(** * Movie / series renamer: scoring, sanitising, path allocation, dry run

    A shallow embedding of the two bundled scripts [movie_tool.py] and
    [movie_tools.py].  Python values are modelled as follows.

    - [str] is [string]; a character is one of the 256 code points of
      Latin-1, and the character classes below ([\s], [\d], [\w],
      [str.lower], [str.isdigit]) are Python's on that range.
    - a [float] is the rational it stands for.  The scorers the pipelines
      run ([Scorer64], [Trailer64]) round every operation to binary64; the
      modules [Scorer] and [Trailer] give the same arithmetic over the
      rationals, for the properties that hold before any rounding.
    - [re] patterns are kept as the pattern text of the source and run by a
      backtracking matcher with Python's priorities (leftmost match, first
      alternative first, greedy unless marked lazy; empty matches as from
      Python 3.7 on).
    - a [pathlib.Path] is its tuple of parts, on a POSIX system; the file
      system is a finite set of existing directories and files.  The
      journal that [log_jsonl] appends to is a file of that file system.
    - the built-in [hash] of a string is CPython's keyed SipHash-1-3
      (Python 3.11 and later), the key being part of the process.
    - an exception is the outcome [Raises]. *)

From Stdlib Require Import ZArith QArith Lqa Lia Bool Ascii String List.
From Stdlib Require Import DecimalString DecimalNat DecimalFacts.
From stdpp Require Import base gmap sets strings.
Import ListNotations.

Local Open Scope string_scope.
Local Open Scope list_scope.

(** ** Characters *)

Module Chr.

Definition code (c : ascii) : N := N_of_ascii c.

Definition between (lo hi : N) (c : ascii) : bool :=
  (lo <=? code c)%N && (code c <=? hi)%N.

(** [str.isspace] / [\s] on Latin-1. *)
Definition is_space (c : ascii) : bool :=
  between 9 13 c || between 28 32 c || (code c =? 133)%N || (code c =? 160)%N.

(** [\d]: decimal digits. *)
Definition is_decimal (c : ascii) : bool := between 48 57 c.

(** [str.isdigit]: decimal digits and the superscripts 1, 2, 3. *)
Definition is_digit (c : ascii) : bool :=
  is_decimal c || (code c =? 178)%N || (code c =? 179)%N || (code c =? 185)%N.

Definition is_upper_ascii (c : ascii) : bool := between 65 90 c.
Definition is_lower_ascii (c : ascii) : bool := between 97 122 c.

Definition is_alpha (c : ascii) : bool :=
  is_upper_ascii c || is_lower_ascii c
  || (code c =? 170)%N || (code c =? 181)%N || (code c =? 186)%N
  || between 192 214 c || between 216 246 c || between 248 255 c.

(** [\w]: alphanumeric (letters, digits, numerics) or underscore. *)
Definition is_word (c : ascii) : bool :=
  is_alpha c || is_digit c || between 188 190 c || (code c =? 95)%N.

(** [str.lower] on one character. *)
Definition lower (c : ascii) : ascii :=
  if is_upper_ascii c || ((between 192 222 c) && negb (code c =? 215)%N)
  then ascii_of_N (code c + 32) else c.

Definition digit_val (c : ascii) : Z := Z.of_N (code c) - 48.

End Chr.

(** ** Strings *)

Module Str.

Fixpoint map (f : ascii -> ascii) (s : string) : string :=
  match s with
  | EmptyString => EmptyString
  | String c t => String (f c) (map f t)
  end.

Definition lower (s : string) : string := map Chr.lower s.

Fixpoint forallb (p : ascii -> bool) (s : string) : bool :=
  match s with
  | EmptyString => true
  | String c t => p c && forallb p t
  end.

Fixpoint existsb (p : ascii -> bool) (s : string) : bool :=
  match s with
  | EmptyString => false
  | String c t => p c || existsb p t
  end.

Definition is_empty (s : string) : bool :=
  match s with EmptyString => true | _ => false end.

Fixpoint rev_onto (s acc : string) : string :=
  match s with
  | EmptyString => acc
  | String c t => rev_onto t (String c acc)
  end.

Definition rev (s : string) : string := rev_onto s EmptyString.

(** [s.lstrip(chars)] with the characters given as a predicate. *)
Fixpoint lstrip (p : ascii -> bool) (s : string) : string :=
  match s with
  | EmptyString => EmptyString
  | String c t => if p c then lstrip p t else s
  end.

(** [s.rstrip(chars)]: drop the longest suffix of characters in [p]. *)
Fixpoint rstrip (p : ascii -> bool) (s : string) : string :=
  match s with
  | EmptyString => EmptyString
  | String c t =>
      match rstrip p t with
      | EmptyString => if p c then EmptyString else String c EmptyString
      | r => String c r
      end
  end.

Definition strip_chars (p : ascii -> bool) (s : string) : string :=
  rstrip p (lstrip p s).

(** [s.strip()]. *)
Definition strip (s : string) : string := strip_chars Chr.is_space s.

Definition mem (c : ascii) (chars : string) : bool :=
  existsb (Ascii.eqb c) chars.

Fixpoint take (n : nat) (s : string) : string :=
  match n, s with
  | S k, String c t => String c (take k t)
  | _, _ => EmptyString
  end.

Fixpoint drop (n : nat) (s : string) : string :=
  match n, s with
  | S k, String c t => drop k t
  | _, _ => s
  end.

Fixpoint starts_with (p s : string) : bool :=
  match p, s with
  | EmptyString, _ => true
  | String a p', String b s' => Ascii.eqb a b && starts_with p' s'
  | _, _ => false
  end.

(** [needle in s]. *)
Fixpoint contains (needle s : string) : bool :=
  starts_with needle s ||
  match s with
  | EmptyString => false
  | String _ t => contains needle t
  end.

(** [s.replace(old, new)] for a non-empty [old]: leftmost occurrences,
    not overlapping.  [skip] counts the characters of an occurrence
    still to be dropped. *)
Fixpoint replace_from (old new : string) (skip : nat) (s : string) : string :=
  match s with
  | EmptyString => EmptyString
  | String c t =>
      match skip with
      | S k => replace_from old new k t
      | O =>
          if starts_with old s
          then new ++ replace_from old new (String.length old - 1) t
          else String c (replace_from old new 0 t)
      end
  end.

Definition replace (old new s : string) : string := replace_from old new 0 s.

(** [s.split(sep)] for a one-character separator. *)
Fixpoint split_on (sep : ascii) (s : string) : list string :=
  match s with
  | EmptyString => [EmptyString]
  | String c t =>
      match split_on sep t with
      | [] => [EmptyString]
      | w :: ws => if Ascii.eqb c sep then EmptyString :: w :: ws
                   else String c w :: ws
      end
  end.

(** Index of the last [c], as [s.rfind(c)]. *)
Fixpoint rfind_char (c : ascii) (s : string) : option nat :=
  match s with
  | EmptyString => None
  | String a t =>
      match rfind_char c t with
      | Some i => Some (S i)
      | None => if Ascii.eqb a c then Some 0%nat else None
      end
  end.

(** Start of the last occurrence of [needle], as [s.rfind(needle)]. *)
Fixpoint rfind (needle s : string) : option nat :=
  match s with
  | EmptyString => if is_empty needle then Some 0%nat else None
  | String _ t =>
      match rfind needle t with
      | Some i => Some (S i)
      | None => if starts_with needle s then Some 0%nat else None
      end
  end.

(** Value of a string of decimal digits. *)
Definition int_of_decimal (s : string) : Z :=
  (fix go (acc : Z) (s : string) : Z :=
     match s with
     | EmptyString => acc
     | String c t => go (acc * 10 + Chr.digit_val c)%Z t
     end) 0%Z s.

Definition of_nat (n : nat) : string := NilZero.string_of_uint (Nat.to_uint n).

(** [str(z)] for an integer. *)
Definition of_Z (z : Z) : string :=
  match z with
  | Z0 => "0"
  | Zpos p => of_nat (Pos.to_nat p)
  | Zneg p => "-" ++ of_nat (Pos.to_nat p)
  end.

Definition quote : string := String (ascii_of_nat 34) EmptyString.

End Str.

(** ** Regular expressions

    The subset of Python's [re] syntax that the scripts use, with a parser
    for the pattern text and a backtracking matcher. *)

Module Re.

Inductive item : Type :=
| ILit (c : ascii)
| IRange (lo hi : ascii)
| IDigit | ISpace | IWord
| INotDigit | INotSpace | INotWord.

Inductive regex : Type :=
| Eps
| Dot
| Lit (c : ascii)
| Cls (neg : bool) (items : list item)
| Cat (r1 r2 : regex)
| Alt (r1 r2 : regex)
| Rep (greedy : bool) (lo : nat) (hi : option nat) (r : regex)
| Grp (i : nat) (r : regex)
| WordB
| Bol
| Eol
| NotBehind (r : regex)
| NotAhead (r : regex).

(** *** Parsing the pattern text *)

Definition hex_val (c : ascii) : option N :=
  if Chr.is_decimal c then Some (Chr.code c - 48)%N
  else if Chr.between 65 70 c then Some (Chr.code c - 55)%N
  else if Chr.between 97 102 c then Some (Chr.code c - 87)%N
  else None.

(** The character after a backslash, as a class item. *)
Definition escape_item (c : ascii) : item :=
  match c with
  | "d" => IDigit | "s" => ISpace | "w" => IWord
  | "D" => INotDigit | "S" => INotSpace | "W" => INotWord
  | "n" => ILit (ascii_of_nat 10)
  | "t" => ILit (ascii_of_nat 9)
  | "r" => ILit (ascii_of_nat 13)
  | _ => ILit c
  end%char.

(** One class member at the head of [s], escapes resolved. *)
Definition p_member (s : string) : option (item * string) :=
  match s with
  | String "\" (String "x" (String h1 (String h2 t))) =>
      match hex_val h1, hex_val h2 with
      | Some a, Some b => Some (ILit (ascii_of_N (16 * a + b)), t)
      | _, _ => None
      end
  | String "\" (String c t) => Some (escape_item c, t)
  | String c t => Some (ILit c, t)
  | EmptyString => None
  end%char.

Fixpoint p_class (fuel : nat) (s : string) : option (list item * string) :=
  match fuel with
  | O => None
  | S f =>
      match s with
      | String "]" t => Some ([], t)
      | _ =>
          match p_member s with
          | Some (ILit lo, String "-" t) =>
              match t with
              | String "]" _ =>
                  match p_class f (String "-" t) with
                  | Some (its, t') => Some (ILit lo :: its, t')
                  | None => None
                  end
              | _ =>
                  match p_member t with
                  | Some (ILit hi, t') =>
                      match p_class f t' with
                      | Some (its, t'') => Some (IRange lo hi :: its, t'')
                      | None => None
                      end
                  | _ => None
                  end
              end
          | Some (it, t) =>
              match p_class f t with
              | Some (its, t') => Some (it :: its, t')
              | None => None
              end
          | None => None
          end
      end
  end%char.

Fixpoint p_nat (fuel : nat) (acc : nat) (s : string) : nat * string :=
  match fuel, s with
  | S f, String c t =>
      if Chr.is_decimal c
      then p_nat f (acc * 10 + N.to_nat (Chr.code c - 48)) t
      else (acc, s)
  | _, _ => (acc, s)
  end.

(** The bounds of a quantifier at the head of [s], if there is one. *)
Definition p_bounds (s : string) : option (nat * option nat * string) :=
  match s with
  | String "*" t => Some (0, None, t)
  | String "+" t => Some (1, None, t)
  | String "?" t => Some (0, Some 1, t)
  | String "{" t =>
      let '(lo, t1) := p_nat (String.length t) 0 t in
      match t1 with
      | String "}" t2 => Some (lo, Some lo, t2)
      | String "," (String "}" t2) => Some (lo, None, t2)
      | String "," t2 =>
          let '(hi, t3) := p_nat (String.length t2) 0 t2 in
          match t3 with
          | String "}" t4 => Some (lo, Some hi, t4)
          | _ => None
          end
      | _ => None
      end
  | _ => None
  end%char.

Definition p_quant (a : regex) (s : string) : regex * string :=
  match p_bounds s with
  | Some (lo, hi, String "?" t) => (Rep false lo hi a, t)
  | Some (lo, hi, t) => (Rep true lo hi a, t)
  | None => (a, s)
  end%char.

Definition expect_close (x : option (regex * string * nat))
    (wrap : regex -> regex) : option (regex * string * nat) :=
  match x with
  | Some (r, String ")" t, g) => Some (wrap r, t, g)
  | _ => None
  end%char.

Fixpoint p_alt (fuel : nat) (s : string) (g : nat) {struct fuel}
    : option (regex * string * nat) :=
  match fuel with
  | O => None
  | S f =>
      match p_seq f s g with
      | Some (r1, String "|" t, g1) =>
          match p_alt f t g1 with
          | Some (r2, t2, g2) => Some (Alt r1 r2, t2, g2)
          | None => None
          end
      | other => other
      end
  end%char
with p_seq (fuel : nat) (s : string) (g : nat) {struct fuel}
    : option (regex * string * nat) :=
  match fuel with
  | O => None
  | S f =>
      match s with
      | EmptyString | String "|" _ | String ")" _ => Some (Eps, s, g)
      | _ =>
          match p_atom f s g with
          | Some (a, t, g1) =>
              let '(a', t') := p_quant a t in
              match p_seq f t' g1 with
              | Some (Eps, t2, g2) => Some (a', t2, g2)
              | Some (r, t2, g2) => Some (Cat a' r, t2, g2)
              | None => None
              end
          | None => None
          end
      end
  end%char
with p_atom (fuel : nat) (s : string) (g : nat) {struct fuel}
    : option (regex * string * nat) :=
  match fuel with
  | O => None
  | S f =>
      match s with
      | String "(" (String "?" (String ":" t)) =>
          expect_close (p_alt f t g) (fun r => r)
      | String "(" (String "?" (String "<" (String "!" t))) =>
          expect_close (p_alt f t g) NotBehind
      | String "(" (String "?" (String "!" t)) =>
          expect_close (p_alt f t g) NotAhead
      | String "(" t => expect_close (p_alt f t (S g)) (Grp g)
      | String "[" (String "^" t) =>
          match p_class (S (String.length t)) t with
          | Some (its, t') => Some (Cls true its, t', g)
          | None => None
          end
      | String "[" t =>
          match p_class (S (String.length t)) t with
          | Some (its, t') => Some (Cls false its, t', g)
          | None => None
          end
      | String "\" (String "b" t) => Some (WordB, t, g)
      | String "\" _ =>
          match p_member s with
          | Some (ILit c, t) => Some (Lit c, t, g)
          | Some (it, t) => Some (Cls false [it], t, g)
          | None => None
          end
      | String "." t => Some (Dot, t, g)
      | String "^" t => Some (Bol, t, g)
      | String "$" t => Some (Eol, t, g)
      | String c t => Some (Lit c, t, g)
      | EmptyString => None
      end
  end%char.

(** A compiled pattern: the IGNORECASE flag and the syntax tree.  A
    pattern that does not parse compiles to one that never matches. *)
Record pattern : Type := { icase : bool; tree : regex }.

Definition never : regex := Cls false [].

Definition parse (s : string) : regex :=
  match p_alt (3 * String.length s + 3) s 1 with
  | Some (r, EmptyString, _) => r
  | _ => never
  end.

(** [re.compile(s)], honouring a leading [(?i)]. *)
Definition compile (s : string) : pattern :=
  match s with
  | String "(" (String "?" (String "i" (String ")" t))) =>
      {| icase := true; tree := parse t |}
  | _ => {| icase := false; tree := parse s |}
  end%char.

(** [re.compile(s, re.IGNORECASE)]. *)
Definition compile_i (s : string) : pattern :=
  {| icase := true; tree := tree (compile s) |}.

End Re.

(** *** Matching *)

Module Match.
Import Re.

(** Where the matcher stands: the character before the cursor, the text
    after it, the number of characters consumed since the start of the
    attempt, and the groups captured so far. *)
Record st : Type := mk {
  prev : option ascii;
  rest : string;
  pos : nat;
  caps : list (nat * string)
}.

Definition upper_of (c : ascii) : ascii :=
  if Chr.is_lower_ascii c
     || (Chr.between 224 254 c && negb (Chr.code c =? 247)%N)
  then ascii_of_N (Chr.code c - 32) else c.

Definition in_range (lo hi c : ascii) : bool :=
  Chr.between (Chr.code lo) (Chr.code hi) c.

Definition lit_match (ci : bool) (a c : ascii) : bool :=
  if ci then Ascii.eqb (Chr.lower c) (Chr.lower a) else Ascii.eqb c a.

Definition item_match (ci : bool) (it : item) (c : ascii) : bool :=
  match it with
  | ILit a => lit_match ci a c
  | IRange lo hi =>
      in_range lo hi c
      || (ci && (in_range lo hi (Chr.lower c) || in_range lo hi (upper_of c)))
  | IDigit => Chr.is_decimal c
  | ISpace => Chr.is_space c
  | IWord => Chr.is_word c
  | INotDigit => negb (Chr.is_decimal c)
  | INotSpace => negb (Chr.is_space c)
  | INotWord => negb (Chr.is_word c)
  end.

Definition cls_match (ci neg : bool) (items : list item) (c : ascii) : bool :=
  xorb neg (List.existsb (fun it => item_match ci it c) items).

Definition step (p : ascii -> bool) (s : st) (k : st -> option st) : option st :=
  match rest s with
  | String c t =>
      if p c
      then k {| prev := Some c; rest := t; pos := S (pos s); caps := caps s |}
      else None
  | EmptyString => None
  end.

Definition is_word_opt (o : option ascii) : bool :=
  match o with Some c => Chr.is_word c | None => false end.

Definition next (s : st) : option ascii :=
  match rest s with String c _ => Some c | EmptyString => None end.

Definition newline : ascii := ascii_of_nat 10.

Definition at_end (s : st) : bool :=
  match rest s with
  | EmptyString => true
  | String c EmptyString => Ascii.eqb c newline
  | _ => false
  end.

Definition set_cap (i : nat) (from to : st) : st :=
  {| prev := prev to; rest := rest to; pos := pos to;
     caps := (i, Str.take (pos to - pos from) (rest from)) :: caps to |}.

Definition or_else (a : option st) (b : unit -> option st) : option st :=
  match a with Some x => Some x | None => b tt end.

(** The repetition [r{lo,hi}] of a matcher [m], followed by [k].  Greedy:
    one more iteration first, then stopping; lazy: the other way round.
    An iteration must consume at least one character, so [fuel] above the
    length of the remaining text is never exhausted. *)
Fixpoint rep_loop (m : st -> (st -> option st) -> option st)
    (k : st -> option st) (greedy : bool) (fuel lo : nat) (hi : option nat)
    (s : st) {struct fuel} : option st :=
  let stop := fun _ : unit => if (lo =? 0)%nat then k s else None in
  match fuel with
  | O => stop tt
  | S f =>
      let more := fun _ : unit =>
        match hi with
        | Some O => None
        | _ =>
            m s (fun s' =>
              if (pos s' =? pos s)%nat then None
              else rep_loop m k greedy f (Nat.pred lo) (option_map Nat.pred hi) s')
        end in
      if greedy then or_else (more tt) stop
      else or_else (stop tt) more
  end.

(** [rmatch ci r s k]: match [r] at [s], then the continuation [k];
    alternatives are tried in Python's order and the first that lets the
    continuation succeed wins. *)
Fixpoint rmatch (ci : bool) (r : regex) (s : st) (k : st -> option st)
    {struct r} : option st :=
  match r with
  | Eps => k s
  | Dot => step (fun c => negb (Ascii.eqb c newline)) s k
  | Lit a => step (lit_match ci a) s k
  | Cls neg items => step (cls_match ci neg items) s k
  | Cat r1 r2 => rmatch ci r1 s (fun s' => rmatch ci r2 s' k)
  | Alt r1 r2 => or_else (rmatch ci r1 s k) (fun _ => rmatch ci r2 s k)
  | Rep greedy lo hi r1 =>
      rep_loop (rmatch ci r1) k greedy (S (String.length (rest s))) lo hi s
  | Grp i r1 => rmatch ci r1 s (fun s' => k (set_cap i s s'))
  | WordB =>
      if xorb (is_word_opt (prev s)) (is_word_opt (next s)) then k s else None
  | Bol => match prev s with None => k s | Some _ => None end
  | Eol => if at_end s then k s else None
  | NotBehind r1 =>
      match prev s with
      | None => k s
      | Some c =>
          match rmatch ci r1
                  {| prev := None; rest := String c EmptyString;
                     pos := 0; caps := [] |}
                  (fun s' => if Str.is_empty (rest s') then Some s' else None)
          with
          | Some _ => None
          | None => k s
          end
      end
  | NotAhead r1 =>
      match rmatch ci r1 s Some with
      | Some _ => None
      | None => k s
      end
  end.

(** A match: the text before it since the previous match, the matched
    text and its groups. *)
Record hit : Type := {
  h_pre : string;
  h_text : string;
  h_caps : list (nat * string)
}.

Definition start (prev : option ascii) (s : string) : st :=
  {| prev := prev; rest := s; pos := 0; caps := [] |}.

(** All matches from left to right, not overlapping, and the text after
    the last one. *)
Fixpoint scan (p : pattern) (fuel : nat) (prev : option ascii) (s : string)
    (pre_rev : string) : list hit * string :=
  match fuel with
  | O => ([], Str.rev_onto pre_rev s)
  | S f =>
      match rmatch (icase p) (tree p) (start prev s) Some with
      | Some e =>
          let h := {| h_pre := Str.rev pre_rev;
                      h_text := Str.take (pos e) s;
                      h_caps := caps e |} in
          if (pos e =? 0)%nat then
            match s with
            | EmptyString => ([h], EmptyString)
            | String c t =>
                let '(hs, tl) := scan p f (Some c) t (String c EmptyString) in
                (h :: hs, tl)
            end
          else
            let '(hs, tl) := scan p f (Match.prev e) (rest e) EmptyString in
            (h :: hs, tl)
      | None =>
          match s with
          | EmptyString => ([], Str.rev pre_rev)
          | String c t => scan p f (Some c) t (String c pre_rev)
          end
      end
  end.

(** [re.finditer(p, s)]. *)
Definition finditer (p : pattern) (s : string) : list hit :=
  fst (scan p (S (String.length s)) None s EmptyString).

(** [re.search(p, s)]: the leftmost match. *)
Definition search (p : pattern) (s : string) : option hit :=
  List.head (finditer p s).

(** [re.sub(p, repl, s)] for a replacement text without group
    references. *)
Definition sub (p : pattern) (repl s : string) : string :=
  let '(hs, tl) := scan p (S (String.length s)) None s EmptyString in
  List.fold_right (fun h acc => h_pre h +:+ repl +:+ acc) tl hs.

(** [re.split(p, s)] for a pattern without groups. *)
Definition split (p : pattern) (s : string) : list string :=
  let '(hs, tl) := scan p (S (String.length s)) None s EmptyString in
  List.map h_pre hs ++ [tl].

(** [re.fullmatch(p, s)] as a truth value. *)
Definition fullmatch (p : pattern) (s : string) : bool :=
  match rmatch (icase p) (tree p) (start None s)
          (fun e => if Str.is_empty (rest e) then Some e else None) with
  | Some _ => true
  | None => false
  end.

(** [m.group(i)] for a group that took part in the match. *)
Definition group (i : nat) (h : hit) : string :=
  match List.find (fun c => (fst c =? i)%nat) (h_caps h) with
  | Some (_, t) => t
  | None => EmptyString
  end.

End Match.

(** ** Code shared by both scripts *)

Module Shared.

(** The result of a call that may raise. *)
Inductive outcome (A : Type) : Type :=
| Returns (a : A)
| Raises.
Arguments Returns {A} a.
Arguments Raises {A}.

Definition RESERVED_WIN_NAMES : list string :=
  ["con"; "prn"; "aux"; "nul";
   "com1"; "com2"; "com3"; "com4"; "com5"; "com6"; "com7"; "com8"; "com9";
   "lpt1"; "lpt2"; "lpt3"; "lpt4"; "lpt5"; "lpt6"; "lpt7"; "lpt8"; "lpt9"].

Definition is_reserved (name : string) : bool :=
  List.existsb (String.eqb (Str.lower name)) RESERVED_WIN_NAMES.

Definition WHITESPACE_RUN : Re.pattern := Re.compile "\s+".

(** [re.sub(r"\s+", " ", name).strip().rstrip(".")] *)
Definition squeeze (name : string) : string :=
  Str.rstrip (Ascii.eqb ".") (Str.strip (Match.sub WHITESPACE_RUN " " name)).

(** [_pad2]: [f"{int(val):02d}"], or the empty string for [None]. *)
Definition pad2_int (z : Z) : string :=
  if ((0 <=? z) && (z <? 10))%Z then "0" +:+ Str.of_Z z else Str.of_Z z.

Definition _pad2 (val : option Z) : string :=
  match val with
  | Some z => pad2_int z
  | None => EmptyString
  end.

(** [s00e00]: [f"S{season:02d}E{episode:02d}"]. *)
Definition s00e00 (season episode : Z) : string :=
  "S" +:+ pad2_int season +:+ "E" +:+ pad2_int episode.

(** The render context: the dictionary the callers build, with the keys
    [n], [y], [ny], [s], [e], [s00e00], [t]; a key that is missing and a
    key bound to [None] read the same. *)
Record context : Type := {
  n : option string;
  y : option Z;
  ny : option string;
  s : option Z;
  e : option Z;
  s00e00_ : option string;
  t : option string
}.

(** [str(ctx.get(k, "") or "")] for a text field. *)
Definition text_or_empty (v : option string) : string :=
  match v with Some x => x | None => EmptyString end.

(** [str(ctx.get("y", "") or "")]: a year of [0] is falsy. *)
Definition int_or_empty (v : option Z) : string :=
  match v with
  | Some z => if (z =? 0)%Z then EmptyString else Str.of_Z z
  | None => EmptyString
  end.

Definition substitute (safe : list (string * string)) (fmt : string) : string :=
  List.fold_left (fun out kv => Str.replace ("{" +:+ fst kv +:+ "}") (snd kv) out)
                 safe fmt.

Definition TRAILING_DASH : Re.pattern := Re.compile "\s*-\s*$".
Definition EMPTY_PARENS : Re.pattern := Re.compile "\(\s*\)".
Definition TRAILING_SEPARATORS : Re.pattern := Re.compile "[ ._-]+$".
Definition PATH_SEPARATORS : Re.pattern := Re.compile "[\\/]+".

(** The three clean-up steps both renderers apply after substitution. *)
Definition tidy (out : string) : string :=
  let out := Str.strip (Match.sub WHITESPACE_RUN " " out) in
  let out := Match.sub TRAILING_DASH "" out in
  Match.sub EMPTY_PARENS "" out.

Definition is_slash (c : ascii) : bool :=
  Ascii.eqb c "/" || Ascii.eqb c "\".

(** [re.split(r"[\\/]+", rel_path.strip().strip("/\\"))], empty pieces
    dropped. *)
Definition path_pieces (rel_path : string) : list string :=
  List.filter (fun p => negb (Str.is_empty p))
    (Match.split PATH_SEPARATORS (Str.strip_chars is_slash (Str.strip rel_path))).

(** [Path( *parts )] for parts without separators: empty parts vanish. *)
Definition Path_of (parts : list string) : list string :=
  List.filter (fun p => negb (Str.is_empty p)) parts.

End Shared.

(** ** [movie_tool.py] *)

Module MovieTool.
Import Shared.

Definition WIN_ILLEGAL_RE : Re.pattern :=
  Re.compile ("[<>:" +:+ Str.quote +:+ "/\\\|?*\x00-\x1F]").

Definition sanitize_component (name : string) : string :=
  let name := Match.sub WIN_ILLEGAL_RE " " name in
  let name := squeeze name in
  if is_reserved name then name +:+ "_" else name.

Definition _sanitize_path_components (rel_path : string) : list string :=
  Path_of (List.map sanitize_component (path_pieces rel_path)).

Definition safe (ctx : context) : list (string * string) :=
  [("n", sanitize_component (text_or_empty (n ctx)));
   ("y", int_or_empty (y ctx));
   ("ny", sanitize_component (text_or_empty (ny ctx)));
   ("s", _pad2 (s ctx));
   ("e", _pad2 (e ctx));
   ("s00e00", text_or_empty (s00e00_ ctx));
   ("t", sanitize_component (text_or_empty (t ctx)))].

Definition render_format (fmt : string) (ctx : context) : list string :=
  let out := substitute (safe ctx) fmt in
  let out := tidy out in
  _sanitize_path_components out.

End MovieTool.

(** ** [movie_tools.py] *)

Module MovieTools.
Import Shared.

Definition WIN_ILLEGAL_RE : Re.pattern :=
  Re.compile ("[<>:" +:+ Str.quote +:+ "/\\|?*\x00-\x1F]").

Definition sanitize_component (name : string) : string :=
  let name := Match.sub WIN_ILLEGAL_RE " " name in
  let name := squeeze name in
  let name := if Str.is_empty name then "_" else name in
  if is_reserved name then name +:+ "_" else name.

Definition _sanitize_path_components (rel_path : string) : list string :=
  Path_of (List.map sanitize_component (path_pieces rel_path)).

Definition safe (ctx : context) : list (string * string) :=
  [("n", sanitize_component (text_or_empty (n ctx)));
   ("y", int_or_empty (y ctx));
   ("ny", sanitize_component (text_or_empty (ny ctx)));
   ("s", _pad2 (s ctx));
   ("e", _pad2 (e ctx));
   ("s00e00", text_or_empty (s00e00_ ctx));
   ("t", sanitize_component (text_or_empty (t ctx)))].

Definition render_format (fmt : string) (ctx : context) : list string :=
  let out := substitute (safe ctx) fmt in
  let out := tidy out in
  let out := Match.sub TRAILING_SEPARATORS "" out in
  _sanitize_path_components out.

End MovieTools.

(** ** Candidate scoring (identical in both scripts)

    The scorers are given twice.  [Scorer] reads their arithmetic over the
    rationals: it serves the properties of the single components and of
    margins that rounding cannot reach.  [Scorer64] further down rounds
    every operation to binary64 as the interpreter does; the pipelines run
    [Scorer64], and which candidate is returned, and against which gate,
    is said of [Scorer64]. *)

Module Scorer.
Import Shared.
Local Open Scope Q_scope.

(** A search result of the catalog.  [name] is the [title] of a movie or
    the [name] of a series, [date] its [release_date] or
    [first_air_date]. *)
Record candidate : Type := {
  id : Z;
  name : option string;
  original_name : option string;
  date : option string;
  popularity : option Q;
  poster_path : option string
}.

(** [a or b or ""] on optional text: [None] and [""] are falsy. *)
Definition first_text (a b : option string) : string :=
  match a with
  | Some (String c x) => String c x
  | _ => text_or_empty b
  end.

Definition PUNCTUATION : Re.pattern := Re.compile "[^\w\s]".

(** The inner [norm] of [jaccard]. *)
Definition norm (s : string) : list string :=
  let s := Match.sub PUNCTUATION " " (Str.lower s) in
  let s := Str.strip (Match.sub WHITESPACE_RUN " " s) in
  List.filter (fun t => negb (Str.is_empty t)) (Str.split_on " " s).

Definition jaccard (a b : string) : Q :=
  let A : gset string := list_to_set (norm a) in
  let B : gset string := list_to_set (norm b) in
  if (size A =? 0)%nat || (size B =? 0)%nat then 0
  else Z.of_nat (size (A ∩ B)) # Pos.of_nat (size (A ∪ B)).

(** [int(d[:4]) if d[:4].isdigit() else None]: [isdigit] accepts the
    superscript digits, which [int] then rejects. *)
Definition year_of (d : string) : outcome (option Z) :=
  let p := Str.take 4 d in
  if negb (Str.is_empty p) && Str.forallb Chr.is_digit p then
    if Str.forallb Chr.is_decimal p then Returns (Some (Str.int_of_decimal p))
    else Raises
  else Returns None.

(** [want_year and year]: both present and not zero. *)
Definition both_years (want_year year : option Z) : option (Z * Z) :=
  match want_year, year with
  | Some w, Some y0 => if (w =? 0)%Z || (y0 =? 0)%Z then None else Some (w, y0)
  | _, _ => None
  end.

Definition year_score (one two : Q) (want_year year : option Z) : Q :=
  match both_years want_year year with
  | Some (w, y0) =>
      let diff := Z.abs (w - y0) in
      if (diff =? 0)%Z then 1
      else if (diff =? 1)%Z then one
      else if (diff =? 2)%Z then two
      else 0
  | None => 0
  end.

(** [min(float(c.get("popularity") or 0.0) / 200.0, 0.5)] *)
Definition pop_score (c : candidate) : Q :=
  let p := match popularity c with Some p => p | None => 0 end in
  let x := p / 200 in
  if Qle_bool x (1 # 2) then x else 1 # 2.

Definition movie_score_at (c : candidate) (want_title : string)
    (want_year year : option Z) : Q :=
  jaccard (first_text (name c) (original_name c)) want_title * (65 # 100)
  + year_score (7 # 10) (4 # 10) want_year year * (25 # 100)
  + pop_score c * (10 # 100).

Definition tv_score_at (c : candidate) (want_title : string)
    (want_year year : option Z) : Q :=
  jaccard (first_text (name c) (original_name c)) want_title * (72 # 100)
  + year_score (6 # 10) (3 # 10) want_year year * (18 # 100)
  + pop_score c * (10 # 100).

(** The loop that fills [scored]; it raises at the first candidate whose
    date does not convert. *)
Fixpoint score_all (f : candidate -> option Z -> Q) (cands : list candidate)
    : outcome (list (Q * candidate)) :=
  match cands with
  | [] => Returns []
  | c :: cs =>
      match year_of (text_or_empty (date c)) with
      | Raises => Raises
      | Returns yr =>
          match score_all f cs with
          | Raises => Raises
          | Returns l => Returns ((f c yr, c) :: l)
          end
      end
  end.

(** [scored.sort(key=lambda x: x[0], reverse=True)]: stable, so entries
    of equal score keep their order. *)
Fixpoint insert_desc (x : Q * candidate) (l : list (Q * candidate))
    : list (Q * candidate) :=
  match l with
  | [] => [x]
  | h :: tl => if Qle_bool (fst h) (fst x) then x :: l else h :: insert_desc x tl
  end.

Definition sort_desc (l : list (Q * candidate)) : list (Q * candidate) :=
  List.fold_right insert_desc [] l.

Definition YEAR_ONLY : Re.pattern := Re.compile "(18(8|9)\d|19\d{2}|20\d{2})".

Definition movie_gate (want_title : string) : Q :=
  if Match.fullmatch YEAR_ONLY (Str.strip want_title) then 20 # 100 else 25 # 100.

Definition tv_gate : Q := 18 # 100.

Definition select (f : candidate -> option Z -> Q) (gate : Q)
    (cands : list candidate) : outcome (option candidate) :=
  match cands with
  | [] => Returns None
  | _ =>
      match score_all f cands with
      | Raises => Raises
      | Returns scored =>
          match sort_desc scored with
          | (top_score, top) :: _ =>
              Returns (if Qle_bool gate top_score then Some top else None)
          | [] => Raises
          end
      end
  end.

Definition choose_best_match (cands : list candidate) (want_title : string)
    (want_year : option Z) : outcome (option candidate) :=
  select (fun c yr => movie_score_at c want_title want_year yr)
         (movie_gate want_title) cands.

Definition choose_best_tv (cands : list candidate) (want_title : string)
    (want_year : option Z) : outcome (option candidate) :=
  select (fun c yr => tv_score_at c want_title want_year yr) tv_gate cands.

(** The composite score of a candidate whose date converts. *)
Definition year_or_none (c : candidate) : option Z :=
  match year_of (text_or_empty (date c)) with
  | Returns yr => yr
  | Raises => None
  end.

Definition movie_score (c : candidate) (want_title : string)
    (want_year : option Z) : Q :=
  movie_score_at c want_title want_year (year_or_none c).

Definition tv_score (c : candidate) (want_title : string)
    (want_year : option Z) : Q :=
  tv_score_at c want_title want_year (year_or_none c).

Definition bad_date (c : candidate) : Prop :=
  year_of (text_or_empty (date c)) = Raises.

End Scorer.

(** ** Binary64 arithmetic

    A [float] is the rational it stands for.  Every operation of the
    scorers gives the exact result rounded to the nearest binary64 number;
    no value of theirs leaves the finite range, the popularity being taken
    to lie within it. *)

Module Binary64.
Local Open Scope Z_scope.

(** [num / den] rounded to the nearest integer, a tie to the even one;
    [num] is not negative and [den] is positive. *)
Definition nearest_even (num den : Z) : Z :=
  let q := num / den in
  match 2 * (num mod den) ?= den with
  | Lt => q
  | Gt => q + 1
  | Eq => if Z.even q then q else q + 1
  end.

(** [2^k <= a / d], for positive [a] and [d]. *)
Definition at_least_pow2 (a d k : Z) : bool :=
  if 0 <=? k then d * 2 ^ k <=? a else d <=? a * 2 ^ (- k).

(** The exponent of the last place of [a / d]: the [e] with
    [2^52 <= a / d / 2^e < 2^53], and [-1074] for what lies below the
    normal range. *)
Definition exponent (a d : Z) : Z :=
  let k := Z.log2 a - Z.log2 d in
  Z.max (-1074) ((if at_least_pow2 a d k then k else k - 1) - 52).

(** The binary64 number nearest to [q], a tie to the one with the even
    significand. *)
Definition round (q : Q) : Q :=
  let a := Z.abs (Qnum q) in
  let d := Zpos (Qden q) in
  if a =? 0 then 0%Q
  else
    let e := exponent a d in
    let v :=
      if 0 <=? e then Qmake (nearest_even a (d * 2 ^ e) * 2 ^ e) 1
      else Qred (Qmake (nearest_even (a * 2 ^ (- e)) d) (Z.to_pos (2 ^ (- e)))) in
    if Qnum q <? 0 then Qopp v else v.

Definition add (x y : Q) : Q := round (x + y).
Definition mul (x y : Q) : Q := round (x * y).
Definition div (x y : Q) : Q := round (x / y).

End Binary64.

(** ** Candidate scoring in binary64 *)

Module Scorer64.
Import Shared Scorer.
Local Open Scope Q_scope.

(** A decimal literal of the source. *)
Definition literal (q : Q) : Q := Binary64.round q.

(** [len(A & B) / len(A | B)]: the true division of two integers. *)
Definition jaccard (a b : string) : Q :=
  let A : gset string := list_to_set (norm a) in
  let B : gset string := list_to_set (norm b) in
  if (size A =? 0)%nat || (size B =? 0)%nat then 0
  else Binary64.div (Z.of_nat (size (A ∩ B)) # 1) (Z.of_nat (size (A ∪ B)) # 1).

Definition year_score (one two : Q) (want_year year : option Z) : Q :=
  Scorer.year_score (literal one) (literal two) want_year year.

(** [min(float(c.get("popularity") or 0.0) / 200.0, 0.5)] *)
Definition pop_score (c : candidate) : Q :=
  let p := Binary64.round (match popularity c with Some p => p | None => 0 end) in
  let x := Binary64.div p 200 in
  if Qle_bool x (1 # 2) then x else 1 # 2.

(** [sim * 0.65 + year_score * 0.25 + pop * 0.10] *)
Definition movie_score_at (c : candidate) (want_title : string)
    (want_year year : option Z) : Q :=
  Binary64.add
    (Binary64.add
       (Binary64.mul (jaccard (first_text (name c) (original_name c)) want_title)
          (literal (65 # 100)))
       (Binary64.mul (year_score (7 # 10) (4 # 10) want_year year) (literal (25 # 100))))
    (Binary64.mul (pop_score c) (literal (10 # 100))).

(** [sim * 0.72 + year_score * 0.18 + pop * 0.10] *)
Definition tv_score_at (c : candidate) (want_title : string)
    (want_year year : option Z) : Q :=
  Binary64.add
    (Binary64.add
       (Binary64.mul (jaccard (first_text (name c) (original_name c)) want_title)
          (literal (72 # 100)))
       (Binary64.mul (year_score (6 # 10) (3 # 10) want_year year) (literal (18 # 100))))
    (Binary64.mul (pop_score c) (literal (10 # 100))).

Definition movie_gate (want_title : string) : Q :=
  if Match.fullmatch YEAR_ONLY (Str.strip want_title)
  then literal (20 # 100) else literal (25 # 100).

Definition tv_gate : Q := literal (18 # 100).

Definition choose_best_match (cands : list candidate) (want_title : string)
    (want_year : option Z) : outcome (option candidate) :=
  select (fun c yr => movie_score_at c want_title want_year yr)
         (movie_gate want_title) cands.

Definition choose_best_tv (cands : list candidate) (want_title : string)
    (want_year : option Z) : outcome (option candidate) :=
  select (fun c yr => tv_score_at c want_title want_year yr) tv_gate cands.

(** The composite score of a candidate whose date converts. *)
Definition movie_score (c : candidate) (want_title : string)
    (want_year : option Z) : Q :=
  movie_score_at c want_title want_year (year_or_none c).

Definition tv_score (c : candidate) (want_title : string)
    (want_year : option Z) : Q :=
  tv_score_at c want_title want_year (year_or_none c).

End Scorer64.

(** ** Python's [hash] on [str]

    CPython salts the hash of a string with a key drawn when the process
    starts: from the operating system, or from [PYTHONHASHSEED] when that
    is set.  The algorithm is SipHash-1-3 over the characters (one byte
    each on Latin-1), read as a signed 64-bit number. *)

Module PyHash.
Local Open Scope Z_scope.

Definition mask64 : Z := 2 ^ 64 - 1.
Definition add64 (a b : Z) : Z := Z.land (a + b) mask64.
Definition rotl (x b : Z) : Z :=
  Z.land (Z.lor (Z.shiftl x b) (Z.shiftr x (64 - b))) mask64.

Definition sipround (v : Z * Z * Z * Z) : Z * Z * Z * Z :=
  let '(v0, v1, v2, v3) := v in
  let v0 := add64 v0 v1 in
  let v2 := add64 v2 v3 in
  let v1 := Z.lxor (rotl v1 13) v0 in
  let v3 := Z.lxor (rotl v3 16) v2 in
  let v0 := rotl v0 32 in
  let v2 := add64 v2 v1 in
  let v0 := add64 v0 v3 in
  let v1 := Z.lxor (rotl v1 17) v2 in
  let v3 := Z.lxor (rotl v3 21) v0 in
  let v2 := rotl v2 32 in
  (v0, v1, v2, v3).

Definition absorb (v : Z * Z * Z * Z) (m : Z) : Z * Z * Z * Z :=
  let '(v0, v1, v2, v3) := v in
  let '(v0, v1, v2, v3) := sipround (v0, v1, v2, Z.lxor v3 m) in
  (Z.lxor v0 m, v1, v2, v3).

(** The bytes of [s] as little-endian 64-bit words; the last word holds
    the remaining bytes and the length in its top byte. *)
Fixpoint words (fuel : nat) (len : Z) (s : string) : list Z :=
  let le :=
    (fix le (n : nat) (sh : Z) (s : string) : Z :=
       match n, s with
       | S n', String c t => Z.lor (Z.shiftl (Z.of_N (Chr.code c)) sh) (le n' (sh + 8) t)
       | _, _ => 0
       end) in
  match fuel with
  | O => []
  | S f =>
      if (String.length s <? 8)%nat
      then [Z.lor (Z.shiftl (Z.land len 255) 56) (le 8%nat 0 s)]
      else le 8%nat 0 s :: words f len (Str.drop 8 s)
  end.

Definition siphash13 (k0 k1 : Z) (s : string) : Z :=
  let v := (Z.lxor k0 0x736f6d6570736575, Z.lxor k1 0x646f72616e646f6d,
            Z.lxor k0 0x6c7967656e657261, Z.lxor k1 0x7465646279746573) in
  let len := Z.of_nat (String.length s) in
  let '(v0, v1, v2, v3) :=
    List.fold_left absorb (words (S (String.length s)) len s) v in
  let '(v0, v1, v2, v3) :=
    sipround (sipround (sipround (v0, v1, Z.lxor v2 255, v3))) in
  Z.lxor (Z.lxor v0 v1) (Z.lxor v2 v3).

(** The key of a process: [k0] and [k1]. *)
Definition key : Type := (Z * Z)%type.

(** [hash(s)] in a process with key [k]. *)
Definition hash (k : key) (s : string) : Z :=
  match s with
  | EmptyString => 0
  | _ =>
      let h := siphash13 (fst k) (snd k) s in
      let h := if h <? 2 ^ 63 then h else h - 2 ^ 64 in
      if h =? -1 then -2 else h
  end.

(** The key CPython derives from [PYTHONHASHSEED=seed]: zero for seed 0,
    else the bytes of a linear congruential generator. *)
Fixpoint lcg_bytes (n : nat) (x : Z) : list Z :=
  match n with
  | O => []
  | S n' =>
      let x := Z.land (x * 214013 + 2531011) (2 ^ 32 - 1) in
      Z.land (Z.shiftr x 16) 255 :: lcg_bytes n' x
  end.

Definition le_word (bs : list Z) : Z :=
  List.fold_right (fun b acc => Z.lor b (Z.shiftl acc 8)) 0 bs.

Definition key_of_seed (seed : Z) : key :=
  if seed =? 0 then (0, 0)
  else
    let bs := lcg_bytes 16 seed in
    (le_word (List.firstn 8 bs), le_word (List.firstn 8 (List.skipn 8 bs))).

End PyHash.

(** ** Trailer picking

    The score of [pick_best_trailer] is read over the rationals here, and
    in binary64 in [Trailer64] below; the score of [best_trailer_url] is a
    small integer and the same in both readings. *)

Module Trailer.
Import Shared.
Local Open Scope Q_scope.

(** An entry of a catalog video listing. *)
Record video : Type := {
  site : option string;
  type : option string;
  name : option string;
  size : option Z;
  official : bool;
  iso_639_1 : option string;
  iso_3166_1 : option string;
  published_at : option string;
  key : option string;
  url : option string
}.

Definition YOUTUBE_WATCH : string := "https://www.youtube.com/watch?v=".

Definition _norm_lang (s : option string) : string := Str.lower (text_or_empty s).

Definition truthy (s : option string) : bool :=
  negb (Str.is_empty (text_or_empty s)).

Definition is_youtube (v : video) : bool :=
  String.eqb (Str.lower (text_or_empty (site v))) "youtube".

(** [site == "youtube" and v.get("key")] *)
Definition playable (v : video) : bool := is_youtube v && truthy (key v).

(** [list.index]. *)
Fixpoint index_of (x : string) (l : list string) : option nat :=
  match l with
  | [] => None
  | h :: tl =>
      if String.eqb h x then Some 0%nat
      else option_map S (index_of x tl)
  end.

Definition prefer_norm (prefer_langs : list string) : list string :=
  match List.map (fun x => _norm_lang (Some x))
          (List.filter (fun x => negb (Str.is_empty x)) prefer_langs) with
  | [] => ["en-us"; "en"]
  | l => l
  end.

Definition related (lang : string) (prefs : list string) : bool :=
  List.existsb (fun p =>
    (String.eqb lang "en" && Str.starts_with "en" p)
    || (String.eqb p "en" && Str.starts_with "en" lang)) prefs.

Definition lang_score (prefs : list string) (lang : string) : Q :=
  if Str.is_empty lang then 2 # 10
  else match index_of lang prefs with
       | Some O => 2
       | Some _ => 1
       | None => if related lang prefs then 1 else 0
       end.

(** [(hash(pub) % 1000) / 1000.0 * 1.5] *)
Definition jitter (hash : string -> Z) (pub : string) : Q :=
  ((hash pub mod 1000)%Z # 1) / 1000 * (15 # 10).

(** The inner [score] of [pick_best_trailer]. *)
Definition score (hash : string -> Z) (prefs : list string) (v : video) : Q :=
  let typ := Str.lower (text_or_empty (type v)) in
  let nm := Str.lower (text_or_empty (name v)) in
  let sz := match size v with Some z => z | None => 0%Z end in
  (if String.eqb typ "trailer" then 3 else if String.eqb typ "teaser" then 1 else 0)
  + (if official v then 3 else 0)
  + (if is_youtube v then 2 else 0)
  + (if (1080 <=? sz)%Z then 2 else if (720 <=? sz)%Z then 1 else 0)
  + (if Str.contains "official trailer" nm then 2
     else if Str.contains "trailer" nm then 1 else 0)
  + lang_score prefs (_norm_lang (iso_639_1 v))
  + jitter hash (text_or_empty (published_at v)).

(** [max(pool, key=f)] on a non-empty pool: the first entry of greatest
    key. *)
Fixpoint max_by {A : Type} (f : A -> Q) (best : A) (l : list A) : A :=
  match l with
  | [] => best
  | x :: tl => max_by f (if Qle_bool (f x) (f best) then best else x) tl
  end.

(** [pick_best_trailer] of [movie_tool.py], in a process whose string
    hash is [hash]. *)
Definition pick_best_trailer (hash : string -> Z) (videos : list video)
    (prefer_langs : list string) : option string :=
  match videos with
  | [] => None
  | v0 :: vs =>
      let prefs := prefer_norm prefer_langs in
      let best :=
        match List.filter playable videos with
        | [] => max_by (score hash prefs) v0 vs
        | y0 :: ys => max_by (score hash prefs) y0 ys
        end in
      if playable best then Some (YOUTUBE_WATCH +:+ text_or_empty (key best))
      else None
  end.

Definition upper (s : string) : string := Str.map Match.upper_of s.

(** The inner [score] of [best_trailer_url]. *)
Definition url_score (v : video) : Q :=
  let region := upper (text_or_empty (iso_3166_1 v)) in
  (if is_youtube v then 3 else 0)
  + (if String.eqb (Str.lower (text_or_empty (type v))) "trailer" then 2 else 0)
  + (if official v then 1 else 0)
  + (if String.eqb region "US" || String.eqb region "GB" then 1 else 0).

(** [best_trailer_url] of [movie_tools.py]. *)
Definition best_trailer_url (video_list : list video) : option string :=
  match video_list with
  | [] => None
  | v0 :: vs =>
      let best := max_by url_score v0 vs in
      if playable best then Some (YOUTUBE_WATCH +:+ text_or_empty (key best))
      else if truthy (url best) then url best
      else None
  end.

End Trailer.

(** ** Trailer picking in binary64

    [pick_best_trailer] with the additions of its score rounded as the
    interpreter rounds them. *)

Module Trailer64.
Import Shared Trailer.
Local Open Scope Q_scope.

(** The [lang] branch of the score: [s += 2.0], [s += 1.0], or
    [s += 0.2] for an entry without language. *)
Definition add_lang (prefs : list string) (lang : string) (s : Q) : Q :=
  if Str.is_empty lang then Binary64.add s (Binary64.round (2 # 10))
  else match index_of lang prefs with
       | Some O => Binary64.add s 2
       | Some _ => Binary64.add s 1
       | None => if related lang prefs then Binary64.add s 1 else s
       end.

(** [(hash(pub) % 1000) / 1000.0 * 1.5] *)
Definition jitter (hash : string -> Z) (pub : string) : Q :=
  Binary64.mul (Binary64.div ((hash pub mod 1000)%Z # 1) 1000) (15 # 10).

(** The inner [score] of [pick_best_trailer]. *)
Definition score (hash : string -> Z) (prefs : list string) (v : video) : Q :=
  let typ := Str.lower (text_or_empty (type v)) in
  let nm := Str.lower (text_or_empty (name v)) in
  let sz := match size v with Some z => z | None => 0%Z end in
  let s := 0 in
  let s := if String.eqb typ "trailer" then Binary64.add s 3
           else if String.eqb typ "teaser" then Binary64.add s 1 else s in
  let s := if official v then Binary64.add s 3 else s in
  let s := if is_youtube v then Binary64.add s 2 else s in
  let s := if (1080 <=? sz)%Z then Binary64.add s 2
           else if (720 <=? sz)%Z then Binary64.add s 1 else s in
  let s := if Str.contains "official trailer" nm then Binary64.add s 2
           else if Str.contains "trailer" nm then Binary64.add s 1 else s in
  let s := add_lang prefs (_norm_lang (iso_639_1 v)) s in
  Binary64.add s (jitter hash (text_or_empty (published_at v))).

(** [pick_best_trailer] of [movie_tool.py], in a process whose string
    hash is [hash]. *)
Definition pick_best_trailer (hash : string -> Z) (videos : list video)
    (prefer_langs : list string) : option string :=
  match videos with
  | [] => None
  | v0 :: vs =>
      let prefs := prefer_norm prefer_langs in
      let best :=
        match List.filter playable videos with
        | [] => max_by (score hash prefs) v0 vs
        | y0 :: ys => max_by (score hash prefs) y0 ys
        end in
      if playable best then Some (YOUTUBE_WATCH +:+ text_or_empty (key best))
      else None
  end.

End Trailer64.

(** ** Paths

    A [pathlib.Path] on a POSIX system is its tuple of parts; an absolute
    path has the root ["/"] as its first part. *)

Module Path.

Definition path : Type := list string.

Definition is_anchor (parts : path) : bool :=
  match parts with
  | [r] => String.eqb r "/"
  | _ => false
  end.

(** [p.name]: the last part, empty for the root and for [Path(".")]. *)
Definition name (p : path) : string :=
  if is_anchor p then EmptyString else List.last p EmptyString.

(** [p.parent]: the root and [Path(".")] are their own parents. *)
Definition parent (p : path) : path :=
  if is_anchor p then p else List.removelast p.

(** The index at which the suffix of a name starts: that of the last
    dot, unless it is the first or the last character. *)
Definition suffix_index (nm : string) : option nat :=
  match Str.rfind_char "." nm with
  | Some i => if ((0 <? i) && (i <? String.length nm - 1))%nat then Some i else None
  | None => None
  end.

Definition suffix (p : path) : string :=
  match suffix_index (name p) with
  | Some i => Str.drop i (name p)
  | None => EmptyString
  end.

Definition stem (p : path) : string :=
  match suffix_index (name p) with
  | Some i => Str.take i (name p)
  | None => name p
  end.

(** The parts of a path given as text. *)
Definition parts_of (s : string) : path :=
  let pieces := List.filter
    (fun x => negb (Str.is_empty x) && negb (String.eqb x "."))
    (Str.split_on "/" s) in
  if Str.starts_with "/" s then "/" :: pieces else pieces.

(** [p / s] for text [s]: an absolute [s] replaces [p]. *)
Definition join (p : path) (s : string) : path :=
  if Str.starts_with "/" s then parts_of s else p ++ parts_of s.

(** [p / q] for a relative path [q]. *)
Definition join_path (p q : path) : path := p ++ q.

(** [str(p)]. *)
Definition to_string (p : path) : string :=
  match p with
  | [] => "."
  | r :: tl =>
      if String.eqb r "/" then "/" +:+ String.concat "/" tl
      else String.concat "/" p
  end.

(** [p.with_suffix(ext)] for a path with a name. *)
Definition with_suffix (ext : string) (p : path) : path :=
  List.removelast p ++ [stem p +:+ ext].

(** [p.relative_to(other)]: what follows [other] in [p]; it raises when
    [p] does not start with [other]. *)
Fixpoint relative_to (p other : path) : Shared.outcome path :=
  match other, p with
  | [], _ => Shared.Returns p
  | y :: other', x :: p' =>
      if String.eqb x y then relative_to p' other' else Shared.Raises
  | _ :: _, [] => Shared.Raises
  end.

(** [os.path.basename]. *)
Definition basename (s : string) : string :=
  match Str.rfind_char "/" s with
  | Some i => Str.drop (S i) s
  | None => s
  end.

(** [os.path.splitext(name)[0]] for a name without separator: the text
    before the last dot, unless only dots precede it. *)
Definition splitext_root (nm : string) : string :=
  match Str.rfind_char "." nm with
  | Some i =>
      if Str.forallb (Ascii.eqb ".") (Str.take i nm) then nm else Str.take i nm
  | None => nm
  end.

End Path.

(** ** Reading titles, years and episode tags from names *)

Module Names.
Import Shared.

Definition NOISE_PATTERNS : list Re.pattern :=
  List.map Re.compile_i
    ["\b(?:480p|720p|1080p|2160p|4k|8k)\b";
     "\b(?:hdr10|dolby[\s\-]?vision|dv|hdr|sdr)\b";
     "\b(?:webrip|web\-?dl|bluray|b[dr]rip|hdtv|dvdrip|dvdscr|cam|h?dcam|r[56])\b";
     "\b(?:x264|x265|h264|h265|hevc|av1|xvid|divx)\b";
     "\b(?:yts|yify|rarbg|evo|etrg|spark[s]?|amiable|ntb|tge|ctrlhd|fg[t]?|galaxyrg)\b";
     "\b(?:proper|real|repack|extended|unrated|directors\.? cut|remastered|imax)\b";
     "\b(?:multi(?:lang)?|dubbed?|subbed?)\b";
     "\b(?:aac|dts(?:\-hd)?|truehd|atmos|ddp?[\- ]?\d\.\d)\b";
     "\b(?:sample)\b";
     "\[(?:.*?)\]|\((?:sample)\)"].

Definition DOTS_UNDERSCORES : Re.pattern := Re.compile "[._]+".
Definition YEAR_TOKEN : Re.pattern :=
  Re.compile "(?<!\d)((18(8|9)\d|19\d{2}|20\d{2}))(?!\d)".

Definition TITLE_EDGE : string := " -._()[]{}".

Definition split_stem_year (stem : string) : string * option Z :=
  let s := Match.sub DOTS_UNDERSCORES " " stem in
  let s := List.fold_left (fun s pat => Match.sub pat " " s) NOISE_PATTERNS s in
  let s := Str.strip (Match.sub WHITESPACE_RUN " " s) in
  let year :=
    match List.rev (Match.finditer YEAR_TOKEN s) with
    | m :: _ => Some (Str.int_of_decimal (Match.group 1 m))
    | [] => None
    end in
  let title :=
    match year with
    | Some yr =>
        match Str.rfind (Str.of_Z yr) s with
        | Some idx =>
            Str.strip (Str.strip_chars (fun c => Str.mem c TITLE_EDGE) (Str.take idx s))
        | None => s
        end
    | None => s
    end in
  (if Str.is_empty title then stem else title, year).

Definition SHORT_BRACKETS : Re.pattern := Re.compile "[\(\[][^)\]]{0,12}[\)\]]".
Definition JUNK : Re.pattern :=
  Re.compile_i "\b(1080p|2160p|720p|4k|webrip|web[- ]?dl|bluray|b[dr]rip|hdtv|x26[45]|h26[45]|hevc|av1|hdr10?|dv|sdr|multi|dubbed|subbed)\b".

Definition normalize_show_hint (txt : string) : string :=
  let s := Match.sub DOTS_UNDERSCORES " " txt in
  let s := Match.sub SHORT_BRACKETS " " s in
  let s := Match.sub JUNK " " s in
  Str.strip (Match.sub WHITESPACE_RUN " " s).

Definition SLUG_ILLEGAL : Re.pattern :=
  Re.compile ("[\\/:\*\?\" +:+ Str.quote +:+ "<>\|]").

(** [slugify] of [movie_tools.py]; [movie_tool.py] writes the same steps
    in line, with a class of the same nine characters in which the
    backslash is written twice. *)
Definition slugify (text : string) : string :=
  let text := Match.sub SLUG_ILLEGAL "" text in
  let text := Str.strip (Match.sub WHITESPACE_RUN " " text) in
  if Str.is_empty text then "Unknown" else text.

Definition PLAIN_YEAR : Re.pattern := Re.compile "\b(19|20)\d{2}\b".
Definition SXXEYY : Re.pattern := Re.compile "[Ss](\d{1,2})[ ._-]?[Ee](\d{1,3})".
Definition NXM : Re.pattern := Re.compile "(\d{1,2})x(\d{1,2})".
Definition TAG_AND_REST : Re.pattern :=
  Re.compile_i "\b(S\d+E\d+|\d+x\d+|(19|20)\d{2}|480p|720p|1080p|2160p|WEB[-.]DL|BluRay|HDR|x264|x265)\b.*".

(** The season and episode of [parse_filename_basic], from the name
    without its extension. *)
Definition episode_tag (base : string) : option Z * option Z :=
  match Match.search SXXEYY base with
  | Some m1 =>
      (Some (Str.int_of_decimal (Match.group 1 m1)),
       Some (Str.int_of_decimal (Match.group 2 m1)))
  | None =>
      match Match.search NXM base with
      | Some m2 =>
          (Some (Str.int_of_decimal (Match.group 1 m2)),
           Some (Str.int_of_decimal (Match.group 2 m2)))
      | None => (None, None)
      end
  end.

Definition base_of (path : string) : string :=
  Path.splitext_root (Path.basename path).

Definition parse_filename_basic (path : string)
    : string * option string * option Z * option Z :=
  let base := base_of path in
  let year := option_map Match.h_text (Match.search PLAIN_YEAR base) in
  let '(s, e) := episode_tag base in
  let cleaned := Match.sub TAG_AND_REST "" base in
  (slugify cleaned, year, s, e).

Definition HAS_LETTER : Re.pattern := Re.compile "[A-Za-z]".

Definition has_letter (s : string) : bool :=
  match Match.search HAS_LETTER s with Some _ => true | None => false end.

End Names.

(** ** The file system and the operations that change it *)

Module FS.
Import Shared Path.

(** The directories and the regular files that exist. *)
Record fs : Type := { dirs : gset path; files : gset path }.

Definition entries (f : fs) : gset path := dirs f ∪ files f.

(** [p.exists()], [p.is_dir()], [p.is_file()]. *)
Definition exists_ (f : fs) (p : path) : bool := bool_decide (p ∈ entries f).
Definition is_dir (f : fs) (p : path) : bool := bool_decide (p ∈ dirs f).
Definition is_file (f : fs) (p : path) : bool := bool_decide (p ∈ files f).

(** *** Collision-free destinations *)

(** [parent / f"{base} ({n}){ext}"]: the text has no separator, so it is
    one more part below the parent. *)
Definition numbered (dst : path) (n : nat) : path :=
  parent dst ++ [stem dst +:+ " (" +:+ Str.of_nat n +:+ ")" +:+ suffix dst].

(** The [while True] loop, run for at most [fuel] rounds. *)
Fixpoint next_free (f : fs) (dst : path) (fuel n : nat) : option path :=
  match fuel with
  | O => None
  | S k =>
      let cand := numbered dst n in
      if exists_ f cand then next_free f dst k (S n) else Some cand
  end.

Definition ensure_unique_path (fuel : nat) (f : fs) (dst : path) : option path :=
  if exists_ f dst then next_free f dst fuel 2 else Some dst.

(** *** Primitive operations *)

(** The non-empty prefixes of a path: the path and its ancestors. *)
Fixpoint prefixes (p : path) : list path :=
  match p with
  | [] => []
  | x :: tl => [x] :: List.map (cons x) (prefixes tl)
  end.

(** [p.mkdir(parents=True, exist_ok=True)]; it raises when the path or an
    ancestor is a regular file. *)
Definition mkdir_parents (f : fs) (p : path) : outcome fs :=
  if List.existsb (is_file f) (prefixes p) then Raises
  else Returns {| dirs := dirs f ∪ list_to_set (prefixes p); files := files f |}.

(** [shutil.move(src, dst)] of a regular file: a destination that is a
    directory takes the file under its own name, unless that name is taken
    there; any other destination is replaced. *)
Definition move (f : fs) (src dst : path) : outcome fs :=
  if negb (is_file f src) then Raises
  else if is_dir f dst then
    let real_dst := dst ++ [name src] in
    if exists_ f real_dst then Raises
    else Returns {| dirs := dirs f; files := (files f ∖ {[src]}) ∪ {[real_dst]} |}
  else if is_dir f (parent dst)
  then Returns {| dirs := dirs f; files := (files f ∖ {[src]}) ∪ {[dst]} |}
  else Raises.

(** [p.unlink(missing_ok=True)]. *)
Definition unlink (f : fs) (p : path) : outcome fs :=
  if is_dir f p then Raises
  else Returns {| dirs := dirs f; files := files f ∖ {[p]} |}.

Fixpoint is_prefix (p q : path) : bool :=
  match p, q with
  | [], _ => true
  | x :: p', y :: q' => String.eqb x y && is_prefix p' q'
  | _, [] => false
  end.

(** [shutil.rmtree(p, ignore_errors=True)]. *)
Definition rmtree (f : fs) (p : path) : fs :=
  {| dirs := filter (fun q => is_prefix p q = false) (dirs f);
     files := filter (fun q => is_prefix p q = false) (files f) |}.

(** [p.iterdir()] as a list. *)
Definition iterdir (f : fs) (d : path) : list path :=
  List.filter
    (fun q => is_prefix d q && (List.length q =? S (List.length d))%nat)
    (elements (entries f)).

(** [d.rmdir()]: the directory must be empty. *)
Definition rmdir (f : fs) (d : path) : outcome fs :=
  if is_dir f d && match iterdir f d with [] => true | _ => false end
  then Returns {| dirs := dirs f ∖ {[d]}; files := files f |}
  else Raises.

(** [open(target, mode)] for writing or appending, and a write. *)
Definition write_file (f : fs) (p : path) : outcome fs :=
  if is_dir f (parent p) && negb (is_dir f p)
  then Returns {| dirs := dirs f; files := files f ∪ {[p]} |}
  else Raises.

End FS.

(** ** The catalog client, as far as the pipeline sees it *)

Module Client.
Import Shared.

(** The answer to the GET of a poster: whether the content type names an
    image, and the number of bytes. *)
Record response : Type := { is_image : bool; content_length : nat }.

Record tmdb : Type := {
  search_movie : string -> option Z -> outcome (list Scorer.candidate);
  search_tv : string -> option Z -> outcome (list Scorer.candidate);
  build_poster_url : string -> outcome (option string);
  http_get : string -> outcome response;
  movie_videos : Z -> outcome (list Trailer.video)
}.

End Client.

(** ** The mutating steps of [movie_tools.py] *)

Module Mutator.
Import Shared Path FS Client.

(** An intended or performed action, as logged. *)
Record entry : Type := { action : string; detail : list string }.

(** The state a run works on: the file system, what [logging] has been
    given, and the path [_log_path] answers for the journal, which depends
    on the configuration directory of the user only. *)
Record world : Type := { disk : fs; log : list entry; journal : path }.

(** [logging.info] and [logging.warning]. *)
Definition say (w : world) (a : string) (d : list string) : world :=
  {| disk := disk w; log := log w ++ [{| action := a; detail := d |}];
     journal := journal w |}.

Definition on_disk (w : world) (f : fs) : world :=
  {| disk := f; log := log w; journal := journal w |}.

(** [log_jsonl]: [_log_path] makes the directory of the journal, then the
    journal is opened for appending and a line is written; the whole body
    stands in a [try] whose handler does nothing, so what was made before
    a failure stays. *)
Definition log_jsonl (w : world) : world :=
  match mkdir_parents (disk w) (parent (journal w)) with
  | Raises => w
  | Returns f =>
      match write_file f (journal w) with
      | Raises => on_disk w f
      | Returns f' => on_disk w f'
      end
  end.

Definition SUB_EXTS : list string := [".srt"; ".ass"; ".ssa"; ".sub"; ".idx"; ".vtt"].
Definition VIDEO_EXTS : list string :=
  [".mkv"; ".mp4"; ".avi"; ".mov"; ".wmv"; ".m4v"; ".mpg"; ".mpeg"; ".ts";
   ".m2ts"; ".flv"; ".webm"].

Definition in_list (x : string) (l : list string) : bool :=
  List.existsb (String.eqb x) l.

Definition is_sidecar (src_file p : path) : bool :=
  Str.starts_with (Str.lower (name (with_suffix "" src_file))) (Str.lower (name p))
  && in_list (Str.lower (suffix p)) SUB_EXTS.

(** [p.name[len(src_base.name):-len(p.suffix)]] for a non-empty suffix. *)
Definition extra_of (src_file p : path) : string :=
  if Str.is_empty (suffix p) then EmptyString
  else Str.strip
         (Str.drop (String.length (name (with_suffix "" src_file)))
            (Str.take (String.length (name p) - String.length (suffix p)) (name p))).

Definition move_one_sidecar (src_file dest_stem : path) (dry_run : bool)
    (w : outcome world) (p : path) : outcome world :=
  match w with
  | Raises => Raises
  | Returns w =>
      if bool_decide (p = src_file) then Returns w
      else if negb (is_file (disk w) p) then Returns w
      else if is_sidecar src_file p then
        let dst := join (parent dest_stem)
                     (name dest_stem +:+ extra_of src_file p +:+ suffix p) in
        let w := log_jsonl (say w "sidecar" [name p; name dst]) in
        if dry_run then Returns w
        else
          match mkdir_parents (disk w) (parent dst) with
          | Raises => Raises
          | Returns f =>
              match move f p dst with
              | Raises => Raises
              | Returns f' => Returns (on_disk w f')
              end
          end
      else Returns w
  end.

Definition move_sidecars (src_file dest_stem : path) (dry_run : bool)
    (w : world) : outcome world :=
  List.fold_left (move_one_sidecar src_file dest_stem dry_run)
    (iterdir (disk w) (parent src_file)) (Returns w).

Definition SAMPLE_DIR : Re.pattern := Re.compile "(?i)\bsample\b".

Definition CLUTTER_FILES : list Re.pattern :=
  List.map Re.compile
    ["(?i)^RARBG.*\.txt$";
     "(?i)^Sample.*";
     "(?i)\.nfo$";
     "(?i)\.sfv$";
     "(?i)\.nzb$";
     "(?i)\.torrent$";
     "(?i)^(readme|thanks|how to|instructions|verify|serial|keygen).*\.(txt)$"].

Definition found (p : Re.pattern) (s : string) : bool :=
  match Match.search p s with Some _ => true | None => false end.

Definition clean_one (dry_run : bool) (w : world) (p : path) : world :=
  if is_dir (disk w) p then
    if found SAMPLE_DIR (name p) then
      let w := log_jsonl (say w "remove dir" [name p]) in
      if dry_run then w else on_disk w (rmtree (disk w) p)
    else w
  else if List.existsb (fun pat => found pat (name p)) CLUTTER_FILES then
    let w := log_jsonl (say w "delete" [name p]) in
    if dry_run then w
    else match unlink (disk w) p with
         | Returns f => on_disk w f
         | Raises => say w "warning" ["delete failed"]
         end
  else w.

Definition clean_clutter (folder : path) (dry_run : bool) (w : world) : world :=
  if negb (exists_ (disk w) folder) || negb (is_dir (disk w) folder) then w
  else List.fold_left (clean_one dry_run) (iterdir (disk w) folder) w.

(** The directories below [root] in the order of a bottom-up walk:
    deeper ones first. *)
Fixpoint insert_deeper (d : path) (l : list path) : list path :=
  match l with
  | [] => [d]
  | h :: tl =>
      if (List.length h <? List.length d)%nat then d :: l
      else h :: insert_deeper d tl
  end.

Definition walk_bottom_up (f : fs) (root : path) : list path :=
  List.fold_right insert_deeper []
    (List.filter (is_prefix root) (elements (dirs f))).

(** One round of the loop of [prune_empty_dirs]; whatever raises inside
    its [try], a directory that is gone or one that is not empty, is
    passed over. *)
Definition prune_one (root : path) (dry_run : bool) (w : world) (d : path) : world :=
  if bool_decide (d = root) then w
  else if negb (is_dir (disk w) d) then w
  else
    match iterdir (disk w) d with
    | [] =>
        let w := log_jsonl (say w "prune" [to_string d]) in
        if dry_run then w
        else match rmdir (disk w) d with
             | Returns f => on_disk w f
             | Raises => w
             end
    | _ => w
    end.

Definition prune_empty_dirs (root : path) (dry_run : bool) (w : world) : world :=
  List.fold_left (prune_one root dry_run) (walk_bottom_up (disk w) root) w.

(** [download_poster] of [movie_tools.py]. *)
Definition download_poster (api : tmdb) (movie : Scorer.candidate)
    (out_dir : path) (dry_run : bool) (w : world) : outcome world :=
  match Scorer.poster_path movie with
  | None | Some EmptyString => Returns w
  | Some poster_path =>
      match build_poster_url api poster_path with
      | Raises => Raises
      | Returns None | Returns (Some EmptyString) => Returns w
      | Returns (Some url) =>
          match mkdir_parents (disk w) out_dir with
          | Raises => Raises
          | Returns f =>
              let w := on_disk w f in
              let poster_filename :=
                MovieTools.sanitize_component (name out_dir) +:+ " - poster.jpg" in
              let target := join out_dir poster_filename in
              let w := say w "cover" [poster_filename] in
              if dry_run then Returns w
              else
                match http_get api url with
                | Raises => Returns (say w "warning" ["cover download failed"])
                | Returns r =>
                    if negb (is_image r) then
                      Returns (say w "warning" ["poster is not an image; skipping"])
                    else if (content_length r <? 1024)%nat then
                      Returns (say w "warning" ["poster too small; skipping"])
                    else
                      match write_file (disk w) target with
                      | Raises => Returns (say w "warning" ["cover download failed"])
                      | Returns f' => Returns (log_jsonl (on_disk w f'))
                      end
                end
          end
      end
  end.

(** [download_trailer_with_ytdlp], the same in both scripts up to the
    dry-run return; [fetch] stands for the external trailer fetcher. *)
Definition download_trailer_with_ytdlp (fetch : string -> path -> fs -> outcome fs)
    (url : string) (out_dir : path) (dry_run : bool) (w : world) : world * bool :=
  match mkdir_parents (disk w) out_dir with
  | Raises => (say w "warning" ["trailer download error"], false)
  | Returns f =>
      let w := say (on_disk w f) "trailer" [url; to_string out_dir] in
      if dry_run then (w, true)
      else
        match fetch url out_dir (disk w) with
        | Returns f' => (on_disk w f', true)
        | Raises => (say w "warning" ["trailer download error"], false)
        end
  end.

(** The renaming at the end of [process_video] and [process_series_file]:
    the move and the sidecars happen only outside a dry run, the line in
    the journal in either case. *)
Definition rename_files (file_path dest_path : path) (w : world) : outcome world :=
  match mkdir_parents (disk w) (parent dest_path) with
  | Raises => Raises
  | Returns f =>
      match move f file_path dest_path with
      | Raises => Raises
      | Returns f' =>
          move_sidecars file_path (with_suffix "" dest_path) false (on_disk w f')
      end
  end.

Definition rename_step (file_path dest_path : path) (shown : string)
    (dry_run : bool) (w : world) : outcome world :=
  let w := say w "rename" [name file_path; shown] in
  match (if dry_run then Returns w else rename_files file_path dest_path w) with
  | Raises => Raises
  | Returns w => Returns (log_jsonl w)
  end.

End Mutator.

(** ** The movie pipeline of [movie_tools.py] for a single file *)

Module Pipeline.
Import Shared Path FS Client Mutator.

(** [build_ny]: the title with the year in parentheses, sanitised. *)
Definition build_ny (title : string) (year : option Z) : string :=
  MovieTools.sanitize_component
    (title +:+ match year with
               | Some yr => if (yr =? 0)%Z then EmptyString
                            else " (" +:+ Str.of_Z yr +:+ ")"
               | None => EmptyString
               end).

Definition nonzero (year : option Z) : option Z :=
  match year with
  | Some z => if (z =? 0)%Z then None else Some z
  | None => None
  end.

(** The options of a run: the command-line switches and the globals
    [CLI_MOVIE_FMT] and [CLI_DL_TRAILER]. *)
Record options : Type := {
  do_cover : bool;
  do_clean : bool;
  do_prune : bool;
  dry_run : bool;
  do_trailer : bool;
  movie_fmt : option string
}.

(** The match of [process_video]: the first search, then the search
    without the year. *)
Definition find_movie (api : tmdb) (title_guess : string) (year_guess : option Z)
    : outcome (option Scorer.candidate) :=
  let matches :=
    match search_movie api title_guess year_guess with
    | Returns l => l
    | Raises => []
    end in
  match Scorer64.choose_best_match matches title_guess year_guess with
  | Raises => Raises
  | Returns (Some m) => Returns (Some m)
  | Returns None =>
      match nonzero year_guess with
      | None => Returns None
      | Some _ =>
          match search_movie api title_guess None with
          | Raises => Returns None
          | Returns l =>
              match Scorer64.choose_best_match l title_guess None with
              | Raises => Returns None
              | Returns m => Returns m
              end
          end
      end
  end.

(** Where [process_video] wants the file to go; [with_suffix] raises on
    a path without a name, which is [None] here. *)
Definition destination (opts : options) (file_path : path)
    (title_guess : string) (year_guess : option Z) (movie : Scorer.candidate)
    (f : fs) : option path :=
  let title :=
    match Scorer.first_text (Scorer.name movie) (Scorer.original_name movie) with
    | EmptyString => title_guess
    | x => x
    end in
  let year :=
    match Scorer.year_or_none movie with
    | Some yr => Some yr
    | None => nonzero year_guess
    end in
  let ny := build_ny title year in
  let fmt := match movie_fmt opts with
             | Some (String c x) => String c x
             | _ => "{ny}/{ny}"
             end in
  let ctx := {| n := Some title; y := year; ny := Some ny; s := None; e := None;
                s00e00_ := None; t := None |} in
  let rel := MovieTools.render_format fmt ctx in
  let dest_wo_ext := join_path (parent file_path) rel in
  if Str.is_empty (name dest_wo_ext) then None
  else ensure_unique_path (S (size (entries f))) f
         (with_suffix (Str.lower (suffix file_path)) dest_wo_ext).

Definition process_video (api : tmdb) (opts : options) (file_path : path)
    (w : world) : outcome (world * option (path * path * Scorer.candidate)) :=
  let '(title_guess, year_guess) := Names.split_stem_year (stem file_path) in
  let w := say w "guess" [name file_path; title_guess] in
  match find_movie api title_guess year_guess with
  | Raises => Raises
  | Returns None => Returns (say w "warning" ["no confident TMDB match; skipping"], None)
  | Returns (Some movie) =>
      match destination opts file_path title_guess year_guess movie (disk w) with
      | None => Raises
      | Some dest_path =>
          match relative_to dest_path (parent file_path) with
          | Raises => Raises
          | Returns shown =>
              match rename_step file_path dest_path (to_string shown)
                      (dry_run opts) w with
              | Raises => Raises
              | Returns w' => Returns (w', Some (file_path, dest_path, movie))
              end
          end
      end
  end.

(** [get_movie_trailer_url]. *)
Definition get_movie_trailer_url (api : tmdb) (movie_id : Z) : option string :=
  match movie_videos api movie_id with
  | Returns vids => Trailer.best_trailer_url vids
  | Raises => None
  end.

(** The trailer step of [handle_root] for one renamed file. *)
Definition trailer_step (fetch : string -> path -> fs -> outcome fs)
    (api : tmdb) (opts : options) (mv : Scorer.candidate) (dest_dir : path)
    (w : world) : world :=
  match get_movie_trailer_url api (Scorer.id mv) with
  | Some (String c u) =>
      let '(w', ok) :=
        download_trailer_with_ytdlp fetch (String c u) dest_dir (dry_run opts) w in
      if ok then log_jsonl w' else w'
  | _ => w
  end.

(** The branch of [handle_root] for a [root] that is a file: the world
    after it and the parent directories touched by a rename. *)
Definition handle_file (fetch : string -> path -> fs -> outcome fs)
    (api : tmdb) (opts : options) (root : path) (w : world)
    : outcome (world * list path) :=
  if negb (in_list (Str.lower (suffix root)) VIDEO_EXTS)
  then Returns (say w "warning" ["Not a supported video file."], [])
  else
    match process_video api opts root w with
    | Raises => Raises
    | Returns (w, None) => Returns (w, [])
    | Returns (w, Some (old, new, mv)) =>
        match (if do_cover opts
               then download_poster api mv (parent new) (dry_run opts) w
               else Returns w) with
        | Raises => Raises
        | Returns w =>
            Returns (if do_trailer opts
                     then trailer_step fetch api opts mv (parent new) w
                     else w,
                     [parent old])
        end
    end.

(** [handle_root] when [root] is a file. *)
Definition handle_root (fetch : string -> path -> fs -> outcome fs)
    (api : tmdb) (opts : options) (root : path) (w : world) : outcome world :=
  match handle_file fetch api opts root w with
  | Raises => Raises
  | Returns (w, touched_parents) =>
      let w :=
        if do_clean opts
        then List.fold_left
               (fun w folder =>
                  clean_clutter folder (dry_run opts) (say w "clean" [to_string folder]))
               touched_parents w
        else w in
      Returns (if do_prune opts
               then prune_empty_dirs (parent root) (dry_run opts) w else w)
  end.

End Pipeline.

(** ** The series fallback chain *)

Module Resolver.
Import Shared Path.

(** [_safe_int]: [isdigit] admits text that [int] rejects. *)
Definition _safe_int (txt : option string) : outcome (option Z) :=
  match txt with
  | Some (String c x) =>
      if Str.forallb Chr.is_digit (String c x) then
        if Str.forallb Chr.is_decimal (String c x)
        then Returns (Some (Str.int_of_decimal (String c x)))
        else Raises
      else Returns None
  | _ => Returns None
  end.

Definition SEASON_DIR_TOOLS : Re.pattern :=
  Re.compile "(?i)\bseason\b|\bseizoen\b|saison|staffel|temporada".
Definition SEASON_DIR_TOOL : Re.pattern :=
  Re.compile "(?i)\bseason\b|\bseizoen\b".

(** [season_folder_parent], with the pattern of the script at hand. *)
Definition season_folder_parent (pat : Re.pattern) (file_path : path) : option path :=
  let p := parent file_path in
  if Mutator.found pat (name p) then Some (parent p) else None.

(** The directories whose names are tried, in order. *)
Definition parent_chain (pat : Re.pattern) (file_path : path) : list path :=
  match season_folder_parent pat file_path with
  | Some sfp => [sfp]
  | None => []
  end ++ [parent file_path; parent (parent file_path)].

Definition from_directory (file_path : path) (d : path)
    : list (string * option Z) :=
  if negb (bool_decide (d = file_path)) && negb (Str.is_empty (name d)) then
    let '(t0, y0) := Names.split_stem_year (name d) in
    let t0 := Names.normalize_show_hint t0 in
    if negb (Str.is_empty t0) && Names.has_letter t0 then [(t0, y0)] else []
  else [].

(** The list [cands] before duplicates are dropped. *)
Definition raw_candidates (pat : Re.pattern) (file_path : path)
    (title_guess : string) (year_guess : option Z)
    (force_show : option string) (force_year : option Z)
    : outcome (list (string * option Z)) :=
  let forced :=
    match force_show with
    | Some (String c x) => [(Names.normalize_show_hint (String c x), force_year)]
    | _ => []
    end in
  let '(title_from_parse, year_from_parse, _, _) :=
    Names.parse_filename_basic (to_string file_path) in
  let parsed :=
    if negb (Str.is_empty title_from_parse) && Names.has_letter title_from_parse
    then match _safe_int year_from_parse with
         | Raises => Raises
         | Returns yp => Returns [(Names.normalize_show_hint title_from_parse, yp)]
         end
    else Returns [] in
  let guessed :=
    if negb (Str.is_empty title_guess) && Names.has_letter title_guess
    then [(Names.normalize_show_hint title_guess, year_guess)] else [] in
  match parsed with
  | Raises => Raises
  | Returns parsed =>
      Returns (forced ++ parsed ++ guessed
               ++ List.concat (List.map (from_directory file_path)
                                 (parent_chain pat file_path)))
  end.

(** The loop that keeps the first candidate of each lower-cased title. *)
Fixpoint uniq_from (seen : list string) (cands : list (string * option Z))
    : list (string * option Z) :=
  match cands with
  | [] => []
  | (t0, y0) :: tl =>
      if Mutator.in_list (Str.lower t0) seen then uniq_from seen tl
      else (t0, y0) :: uniq_from (Str.lower t0 :: seen) tl
  end.

Definition uniq (cands : list (string * option Z)) : list (string * option Z) :=
  uniq_from [] cands.

(** The queries in the order they are sent: each candidate without its
    year, then with it. *)
Definition queries (u : list (string * option Z)) : list (string * option Z) :=
  List.concat (List.map (fun ty => [(fst ty, None); (fst ty, snd ty)]) u).

(** How a script reads the search of one query: [movie_tools.py] takes a
    failed search for an empty result, [movie_tool.py] lets it raise. *)
Definition guarded (search : string -> option Z -> outcome (list Scorer.candidate))
    (qt : string) (qy : option Z) : outcome (list Scorer.candidate) :=
  match search qt qy with
  | Raises => Returns []
  | r => r
  end.

(** The query loop: the first query whose best result clears the gate
    ends it. *)
Fixpoint first_match (search : string -> option Z -> outcome (list Scorer.candidate))
    (qs : list (string * option Z)) : outcome (option Scorer.candidate) :=
  match qs with
  | [] => Returns None
  | (qt, qy) :: tl =>
      match search qt qy with
      | Raises => Raises
      | Returns results =>
          match Scorer64.choose_best_tv results qt qy with
          | Raises => Raises
          | Returns (Some show) => Returns (Some show)
          | Returns None => first_match search tl
          end
      end
  end.

Definition resolve (pat : Re.pattern)
    (search : string -> option Z -> outcome (list Scorer.candidate))
    (file_path : path) (title_guess : string) (year_guess : option Z)
    (force_show : option string) (force_year : option Z)
    : outcome (option Scorer.candidate) :=
  match raw_candidates pat file_path title_guess year_guess force_show force_year with
  | Raises => Raises
  | Returns cands => first_match search (queries (uniq cands))
  end.

End Resolver.

Module MovieToolsTv.
(** [try_tv_match_with_fallbacks] of [movie_tools.py]. *)
Definition try_tv_match_with_fallbacks (api : Client.tmdb) :=
  Resolver.resolve Resolver.SEASON_DIR_TOOLS
    (Resolver.guarded (Client.search_tv api)).
End MovieToolsTv.

Module MovieToolTv.
(** [try_tv_match_with_fallbacks] of [movie_tool.py]. *)
Definition try_tv_match_with_fallbacks (api : Client.tmdb) :=
  Resolver.resolve Resolver.SEASON_DIR_TOOL (Client.search_tv api).
End MovieToolTv.

(** ** The series pipeline of [movie_tools.py] for a single file *)

Module Series.
Import Shared Path FS Client Mutator.

(** The series client, as far as the pipeline sees it: the catalog
    client, the [name] of an episode ([None] when the request fails or
    the answer has no name), and the [poster_path] of a season. *)
Record tv_client : Type := {
  api : tmdb;
  get_episode : Z -> Z -> Z -> option string;
  season_details : Z -> Z -> outcome (option string)
}.

(** The options of a run: the layout, the switches, and the globals
    [CLI_SERIES_FMT], [CLI_SEASON_COVERS], [CLI_FORCE_SHOW] and
    [CLI_FORCE_YEAR]. *)
Record options : Type := {
  layout : string;
  do_cover : bool;
  dry_run : bool;
  series_fmt : option string;
  season_covers : bool;
  force_show : option string;
  force_year : option Z
}.

(** [download_season_poster]: every failure is swallowed. *)
Definition download_season_poster (tv : tv_client) (tv_id season : Z)
    (out_dir : path) (dry_run : bool) (w : world) : world :=
  match season_details tv tv_id season with
  | Raises | Returns None | Returns (Some EmptyString) => w
  | Returns (Some poster_path) =>
      match build_poster_url (api tv) poster_path with
      | Raises | Returns None | Returns (Some EmptyString) => w
      | Returns (Some url) =>
          match mkdir_parents (disk w) out_dir with
          | Raises => w
          | Returns f =>
              let w := on_disk w f in
              let poster_filename := "Season " +:+ pad2_int season +:+ " - poster.jpg" in
              let target := join out_dir poster_filename in
              let w := say w "season cover" [poster_filename] in
              if dry_run then w
              else
                match http_get (api tv) url with
                | Raises => w
                | Returns r =>
                    if negb (is_image r) then w
                    else if (content_length r <? 1024)%nat then w
                    else
                      match write_file (disk w) target with
                      | Raises => w
                      | Returns f' => log_jsonl (on_disk w f')
                      end
                end
          end
      end
  end.

(** The layout when [CLI_SERIES_FMT] is not set. *)
Definition default_fmt (layout : string) : string :=
  if String.eqb layout "flat" then "{n} ({y}) - {s00e00} - {t}"
  else "{ny}/{ny} - Season {s}/{ny} - {s00e00} - {t}".

(** The destination as the rename line shows it: relative to the folder
    of the file when the format has a separator or the layout is
    [folders], which raises for a destination outside that folder. *)
Definition shown_destination (fmt layout : string) (file_path dest : path)
    : outcome string :=
  if Str.mem "/" fmt || Str.mem "\" fmt || String.eqb layout "folders" then
    match relative_to dest (parent file_path) with
    | Raises => Raises
    | Returns rel => Returns (to_string rel)
    end
  else Returns (name dest).

Definition process_series_file (tv : tv_client) (opts : options) (file_path : path)
    (w : world) : outcome (world * option (path * path * Scorer.candidate)) :=
  let '(title_guess, year_guess) := Names.split_stem_year (stem file_path) in
  let '(_, _, season, episode) := Names.parse_filename_basic (to_string file_path) in
  match Pipeline.nonzero season, Pipeline.nonzero episode with
  | Some season, Some episode =>
      match MovieToolsTv.try_tv_match_with_fallbacks (api tv) file_path
              title_guess year_guess (force_show opts) (force_year opts) with
      | Raises => Raises
      | Returns None =>
          Returns (say w "warning" ["no confident TMDB TV match; skipping"], None)
      | Returns (Some show) =>
          let show_name :=
            match Scorer.first_text (Scorer.name show) (Scorer.original_name show) with
            | EmptyString => title_guess
            | x => x
            end in
          match Scorer.year_of (text_or_empty (Scorer.date show)) with
          | Raises => Raises
          | Returns yr =>
              let show_year :=
                match yr with
                | Some v => Some v
                | None => Pipeline.nonzero year_guess
                end in
              let ep_title :=
                match get_episode tv (Scorer.id show) season episode with
                | Some (String c x) => String c x
                | _ => "Episode " +:+ Str.of_Z episode
                end in
              let ny := Pipeline.build_ny show_name show_year in
              let ctx := {| n := Some show_name; y := show_year; ny := Some ny;
                            s := Some season; e := Some episode;
                            s00e00_ := Some (s00e00 season episode);
                            t := Some ep_title |} in
              let fmt := match series_fmt opts with
                         | Some (String c x) => String c x
                         | _ => default_fmt (layout opts)
                         end in
              let rel := MovieTools.render_format fmt ctx in
              let dest_wo_ext := join_path (parent file_path) rel in
              match (if Str.is_empty (name dest_wo_ext) then None
                     else ensure_unique_path (S (size (entries (disk w)))) (disk w)
                            (with_suffix (Str.lower (suffix file_path)) dest_wo_ext)) with
              | None => Raises
              | Some dest =>
                  match shown_destination fmt (layout opts) file_path dest with
                  | Raises => Raises
                  | Returns shown =>
                      match rename_step file_path dest shown (dry_run opts) w with
                      | Raises => Raises
                      | Returns w =>
                          let out_dir :=
                            if String.eqb (layout opts) "flat" then parent dest
                            else parent (parent dest) in
                          match (if do_cover opts
                                 then download_poster (api tv) show out_dir
                                        (dry_run opts) w
                                 else Returns w) with
                          | Raises => Raises
                          | Returns w =>
                              Returns
                                (if do_cover opts && season_covers opts
                                 then download_season_poster tv (Scorer.id show) season
                                        (parent dest) (dry_run opts) w
                                 else w,
                                 Some (file_path, dest, show))
                          end
                      end
                  end
              end
          end
      end
  | _, _ => Returns (say w "warning" ["no SxxEyy detected; skipping"], None)
  end.

End Series.

(** * Vocabulary of the properties *)

Section Vocabulary.
Import Shared.

(** What both sanitisers compute before they part ways. *)
Definition squeezed (x : string) : string :=
  squeeze (Match.sub MovieTool.WIN_ILLEGAL_RE " " x).







(** A query whose best result does not clear the gate. *)
Definition rejected (search : string -> option Z -> outcome (list Scorer.candidate))
    (q : string * option Z) : Prop :=
  exists results,
    search (fst q) (snd q) = Returns results
    /\ Scorer64.choose_best_tv results (fst q) (snd q) = Returns None.

(** A query whose best result is [show] and clears the gate. *)
Definition accepted (search : string -> option Z -> outcome (list Scorer.candidate))
    (q : string * option Z) (show : Scorer.candidate) : Prop :=
  exists results,
    search (fst q) (snd q) = Returns results
    /\ Scorer64.choose_best_tv results (fst q) (snd q) = Returns (Some show).

(** The key under which candidates are de-duplicated. *)
Definition lowered (ty : string * option Z) : string := Str.lower (fst ty).





(** The disk a run ends with, when it ends without raising. *)
Definition final_disk (r : outcome Mutator.world) : option FS.fs :=
  match r with
  | Returns w => Some (Mutator.disk w)
  | Raises => None
  end.

End Vocabulary.

(** ** Vocabulary for episode tags and separators *)

Definition is_s (c : ascii) : bool := Ascii.eqb c "S" || Ascii.eqb c "s".
Definition is_e (c : ascii) : bool := Ascii.eqb c "E" || Ascii.eqb c "e".
Definition is_sep (c : ascii) : bool := Str.mem c " ._-".
Definition is_x (c : ascii) : bool := Ascii.eqb c "x".

(** No [S] or [s] of [pre] is directly followed, within [pre], by a
    decimal digit: no [SxxEyy] tag starts in [pre]. *)
Fixpoint sxe_quiet (pre : string) : bool :=
  match pre with
  | EmptyString => true
  | String c b =>
      (negb (is_s c)
       || match b with
          | String c2 _ => negb (Chr.is_decimal c2)
          | EmptyString => true
          end)
      && sxe_quiet b
  end.

(** Every decimal digit of [pre] is directly followed, within [pre], by
    a character other than [x]: no [NxM] tag starts in [pre], and [pre]
    does not end in a digit, so that the digits after it are not the tail
    of a longer number. *)
Fixpoint nxm_quiet (pre : string) : bool :=
  match pre with
  | EmptyString => true
  | String c b =>
      (negb (Chr.is_decimal c)
       || match b with
          | String c2 _ => negb (is_x c2)
          | EmptyString => false
          end)
      && nxm_quiet b
  end.

(** [s] does not start with a decimal digit. *)
Definition no_leading_decimal (s : string) : bool :=
  match s with
  | String c _ => negb (Chr.is_decimal c)
  | EmptyString => true
  end.

(** ** Vocabulary for the matcher *)

Section MatcherVocabulary.
Import Re Match.

(** The character before the cursor after the text [w] has been read. *)
Fixpoint last_or (prev : option ascii) (w : string) : option ascii :=
  match w with
  | EmptyString => prev
  | String c w' => last_or (Some c) w'
  end.

(** The state after reading [w], with [tail] left. *)
Definition moved (s : st) (w tail : string) : st :=
  {| prev := last_or (prev s) w; rest := tail;
     pos := String.length w + pos s; caps := caps s |}.

(** [tail] does not go on with a character of the class [p]. *)
Definition stops (p : ascii -> bool) (tail : string) : Prop :=
  match tail with
  | String c _ => p c = false
  | EmptyString => True
  end.

(** No match of [p] starts inside [pre] when the text goes on with [s]. *)
Fixpoint quiet_at (p : pattern) (prev : option ascii) (pre s : string) : Prop :=
  match pre with
  | EmptyString => True
  | String c b =>
      rmatch (icase p) (tree p) (start prev (String c (b +:+ s))) Some = None
      /\ quiet_at p (Some c) b s
  end.

(** The class of [\d]. *)
Definition DIGIT : regex := Cls false [IDigit].

(** The syntax tree of the [SxxEyy] pattern. *)
Definition SXE_TREE : regex :=
  Cat (Cls false [ILit "S"; ILit "s"])
    (Cat (Grp 1 (Rep true 1 (Some 2) DIGIT))
       (Cat (Rep true 0 (Some 1) (Cls false [ILit " "; ILit "."; ILit "_"; ILit "-"]))
          (Cat (Cls false [ILit "E"; ILit "e"])
             (Grp 2 (Rep true 1 (Some 3) DIGIT))))).

(** The syntax tree of the [NxM] pattern. *)
Definition NXM_TREE : regex :=
  Cat (Grp 1 (Rep true 1 (Some 2) DIGIT))
    (Cat (Lit "x") (Grp 2 (Rep true 1 (Some 2) DIGIT))).

(** No match of [p] starts anywhere in [s], its end included. *)
Fixpoint silent (p : pattern) (pv : option ascii) (s : string) : Prop :=
  rmatch (icase p) (tree p) (start pv s) Some = None
  /\ match s with
     | EmptyString => True
     | String c t => silent p (Some c) t
     end.

(** The last character of [s], if there is one, is none of space, dot,
    underscore, dash and line feed. *)
Fixpoint ends_clean (s : string) : bool :=
  match s with
  | EmptyString => true
  | String c t =>
      match t with
      | EmptyString => negb (is_sep c) && negb (Ascii.eqb c newline)
      | String _ _ => ends_clean t
      end
  end.

(** The syntax tree of the pattern for trailing separators. *)
Definition TS_TREE : regex :=
  Cat (Rep true 1 None (Cls false [ILit " "; ILit "."; ILit "_"; ILit "-"])) Eol.

End MatcherVocabulary.

(** The season and the episode of a result of [parse_filename_basic]. *)
Definition season_episode (r : string * option string * option Z * option Z)
    : option Z * option Z :=
  (snd (fst r), snd r).

(** [base] holds a tag with the season digits [d1] and the episode digits
    [d2], and no tag of its kind starts to the left of it: either an
    [SxxEyy] tag (one or two season digits, an optional separator, one to
    three episode digits), or, when no [SxxEyy] tag is found at all, an
    [NxM] tag (one or two digits on each side). *)
Inductive leftmost_tag (base d1 d2 : string) : Prop :=
| tag_sxe (pre : string) (sc : ascii) (sep : string) (ec : ascii) (post : string) :
    base = pre +:+ String sc (d1 +:+ sep +:+ String ec (d2 +:+ post)) ->
    is_s sc = true -> is_e ec = true ->
    Str.forallb is_sep sep = true -> String.length sep <= 1 ->
    Str.forallb Chr.is_decimal d1 = true -> 1 <= String.length d1 <= 2 ->
    Str.forallb Chr.is_decimal d2 = true -> 1 <= String.length d2 <= 3 ->
    no_leading_decimal post = true ->
    sxe_quiet pre = true ->
    leftmost_tag base d1 d2
| tag_nxm (pre post : string) :
    base = pre +:+ d1 +:+ String "x" (d2 +:+ post) ->
    Match.search Names.SXXEYY base = None ->
    Str.forallb Chr.is_decimal d1 = true -> 1 <= String.length d1 <= 2 ->
    Str.forallb Chr.is_decimal d2 = true -> 1 <= String.length d2 <= 2 ->
    no_leading_decimal post = true ->
    nxm_quiet pre = true ->
    leftmost_tag base d1 d2.

(** ** Vocabulary for the further properties *)

(** Every match of the class [p] replaced by [repl]. *)
Fixpoint replace_class (p : ascii -> bool) (repl s : string) : string :=
  match s with
  | EmptyString => EmptyString
  | String c t =>
      if p c then repl +:+ replace_class p repl t
      else String c (replace_class p repl t)
  end.

(** Every run of white space replaced by one space; [in_run] tells that
    the character before was white space. *)
Fixpoint collapse (in_run : bool) (s : string) : string :=
  match s with
  | EmptyString => EmptyString
  | String c t =>
      if Chr.is_space c
      then if in_run then collapse true t else String " " (collapse true t)
      else String c (collapse false t)
  end.

(** The longest prefix of characters in [p], and what follows it. *)
Fixpoint span (p : ascii -> bool) (s : string) : string * string :=
  match s with
  | EmptyString => (EmptyString, EmptyString)
  | String c t =>
      if p c then (String c (fst (span p t)), snd (span p t))
      else (EmptyString, s)
  end.

(** The first and the last character of a text. *)
Definition first_char (s : string) : option ascii :=
  match s with
  | String c _ => Some c
  | EmptyString => None
  end.

Fixpoint last_char (s : string) : option ascii :=
  match s with
  | EmptyString => None
  | String c t =>
      match last_char t with
      | Some d => Some d
      | None => Some c
      end
  end.

(** A character that Windows refuses in a file name: one of the nine
    punctuation marks of [WIN_ILLEGAL_RE], or a control character. *)
Definition illegal (c : ascii) : bool :=
  Str.mem c ("<>:/\|?*" +:+ Str.quote) || (Chr.code c <=? 31)%N.

Definition legal (c : ascii) : bool := negb (illegal c).

(** The text starts with no white space. *)
Definition starts_clean (x : string) : Prop :=
  match first_char x with
  | Some c => Chr.is_space c = false
  | None => True
  end.

(** A text that can stand as one component of a relative path below the
    destination root: not empty, not a reserved device name, made of legal
    characters, and neither [.] nor [..]. *)
Definition usable (part : string) : Prop :=
  part <> EmptyString
  /\ Shared.is_reserved part = false
  /\ Str.forallb legal part = true
  /\ part <> "." /\ part <> "..".



(** [c] is the first entry of [cands] with the greatest value of [f]. *)
Definition first_best {A : Type} (f : A -> Q) (cands : list A) (c : A) : Prop :=
  exists pre post,
    cands = pre ++ c :: post
    /\ Forall (fun d => (f d < f c)%Q) pre
    /\ Forall (fun d => (f d <= f c)%Q) post.


(** The URL built from the key of an entry. *)
Definition watch_url (v : Trailer.video) : string :=
  Trailer.YOUTUBE_WATCH +:+ Shared.text_or_empty (Trailer.key v).

(** [q] is an entry directly inside [d]. *)
Definition child_of (d q : Path.path) : Prop :=
  FS.is_prefix d q = true /\ List.length q = S (List.length d).

(** The directories [log_jsonl] may make: the one of the journal [j] and
    those above it. *)
Definition journal_dirs (j : Path.path) : gset Path.path :=
  list_to_set (FS.prefixes (Path.parent j)).

(** What lines in the journal [j] may do to a disk: they add the journal
    and the directories above it, and nothing else changes. *)
Definition journaled (j : Path.path) (before after : FS.fs) : Prop :=
  FS.dirs before ⊆ FS.dirs after
  /\ FS.dirs after ⊆ FS.dirs before ∪ journal_dirs j
  /\ FS.files before ⊆ FS.files after
  /\ FS.files after ⊆ FS.files before ∪ {[ j ]}.

(** What a pruning run may do to a disk: it keeps every file; it creates
    nothing but the journal [j] and the directories above it; and every
    directory it removes lies below [root], is not [root], and has no
    entry left directly inside it. *)
Definition pruned (root j : Path.path) (before after : FS.fs) : Prop :=
  FS.files before ⊆ FS.files after
  /\ FS.files after ⊆ FS.files before ∪ {[ j ]}
  /\ FS.dirs after ⊆ FS.dirs before ∪ journal_dirs j
  /\ forall d, d ∈ FS.dirs before -> d ∉ FS.dirs after ->
       FS.is_prefix root d = true /\ d <> root
       /\ forall q, q ∈ FS.entries after -> ~ child_of d q.

(** The name of [c] marks it as clutter: a sample directory, or a file
    of one of the clutter patterns. *)
Definition sample_name (c : Path.path) : Prop :=
  Mutator.found Mutator.SAMPLE_DIR (Path.name c) = true.

Definition clutter_name (c : Path.path) : Prop :=
  List.existsb (fun pat => Mutator.found pat (Path.name c)) Mutator.CLUTTER_FILES = true.

(** What a clean-up of [folder] may do to a disk: it creates nothing but
    the journal [j] and the directories above it, and every entry it
    removes is a clutter file directly inside [folder], or is or lies
    below a sample directory directly inside [folder]. *)
Definition cleaned (folder j : Path.path) (before after : FS.fs) : Prop :=
  FS.dirs after ⊆ FS.dirs before ∪ journal_dirs j
  /\ FS.files after ⊆ FS.files before ∪ {[ j ]}
  /\ forall p, p ∈ FS.entries before -> p ∉ FS.entries after ->
       exists c, child_of folder c /\ c ∈ FS.entries before
                 /\ ((c = p /\ clutter_name c)
                     \/ (FS.is_prefix c p = true /\ c ∈ FS.dirs before /\ sample_name c)).

(** The call returned. *)
Definition returned {A : Type} (r : Shared.outcome A) : bool :=
  match r with
  | Shared.Returns _ => true
  | Shared.Raises => false
  end.

(** What a dry run may do to a disk: it keeps every file, writes none
    but the journal [j], and removes no directory. *)
Definition grown (j : Path.path) (before after : FS.fs) : Prop :=
  FS.files before ⊆ FS.files after
  /\ FS.files after ⊆ FS.files before ∪ {[ j ]}
  /\ FS.dirs before ⊆ FS.dirs after.

(** The padded number reads back as the number, from two or three
    decimal digits, two below 100. *)
Definition pad_ok (z : Z) : bool :=
  let d := Shared.pad2_int z in
  Str.forallb Chr.is_decimal d
  && (2 <=? String.length d)%nat && (String.length d <=? 3)%nat
  && (Str.int_of_decimal d =? z)%Z
  && (if (z <? 100)%Z then (String.length d =? 2)%nat else true).

(** One of the nine marks [slugify] deletes. *)
Definition slug_illegal (c : ascii) : bool :=
  Str.mem c ("\/:*?<>|" +:+ Str.quote).

(** The text neither starts nor ends with white space. *)
Definition trimmed (x : string) : Prop :=
  starts_clean x
  /\ match last_char x with
     | Some c => Chr.is_space c = false
     | None => True
     end.

(** A year the patterns of the parsers can read: four decimal digits
    that start with 188, 189, 19 or 20. *)
Definition year_text (d : string) : Prop :=
  exists c3 c4 : ascii,
    Chr.is_decimal c3 = true /\ Chr.is_decimal c4 = true
    /\ (d = String "1" (String "8" (String c3 (String c4 "")))
          /\ (c3 = "8"%char \/ c3 = "9"%char)
        \/ d = String "1" (String "9" (String c3 (String c4 "")))
        \/ d = String "2" (String "0" (String c3 (String c4 "")))).

Section YearTrees.
Import Re.

(** The syntax tree of the pattern for a year token. *)
Definition YEAR_TREE : regex :=
  Cat (NotBehind DIGIT)
    (Cat
       (Grp 1
          (Grp 2
             (Alt (Cat (Lit "1") (Cat (Lit "8")
                                    (Cat (Grp 3 (Alt (Lit "8") (Lit "9"))) DIGIT)))
                (Alt (Cat (Lit "1") (Cat (Lit "9") (Rep true 2 (Some 2) DIGIT)))
                   (Cat (Lit "2") (Cat (Lit "0") (Rep true 2 (Some 2) DIGIT)))))))
       (NotAhead DIGIT)).

(** The syntax tree of the pattern for a plain year. *)
Definition PLAIN_TREE : regex :=
  Cat WordB
    (Cat (Grp 1 (Alt (Cat (Lit "1") (Lit "9")) (Cat (Lit "2") (Lit "0"))))
       (Cat (Rep true 2 (Some 2) DIGIT) WordB)).



End YearTrees.

(** The file [download_poster] writes below [out_dir]. *)
Definition poster_target (out_dir : Path.path) : Path.path :=
  Path.join out_dir
    (MovieTools.sanitize_component (Path.name out_dir) +:+ " - poster.jpg").

(** * Properties *)

(** ** Facts about strings and the matcher *)

Lemma append_length (a b : string) :
  String.length (a +:+ b) = String.length a + String.length b.
Proof.
  induction a as [|c a IH]; [reflexivity|].
  change (String c a +:+ b) with (String c (a +:+ b)).
  cbn [String.length]. rewrite IH. reflexivity.
Qed.

Lemma append_inv_head (a x z : string) : a +:+ x = a +:+ z -> x = z.
Proof.
  induction a as [|c a IH]; intros H; [exact H|].
  change (String c (a +:+ x) = String c (a +:+ z)) in H.
  injection H as H. apply IH. exact H.
Qed.

Lemma append_inv_tail (a b x : string) : a +:+ x = b +:+ x -> a = b.
Proof.
  revert b. induction a as [|c a IH]; intros [|d b] H.
  - reflexivity.
  - apply (f_equal String.length) in H. rewrite !append_length in H.
    cbn [String.length] in H. lia.
  - apply (f_equal String.length) in H. rewrite !append_length in H.
    cbn [String.length] in H. lia.
  - change (String c (a +:+ x) = String d (b +:+ x)) in H.
    injection H as -> H. f_equal. apply IH. exact H.
Qed.

Lemma append_nil_l (x : string) : "" +:+ x = x.
Proof. reflexivity. Qed.

Lemma append_cons (c : ascii) (a x : string) : String c a +:+ x = String c (a +:+ x).
Proof. reflexivity. Qed.

Lemma take_app (w t : string) : Str.take (String.length w) (w +:+ t) = w.
Proof.
  induction w as [|c w IH]; [destruct t; reflexivity|].
  change (String c w +:+ t) with (String c (w +:+ t)).
  cbn [String.length Str.take]. rewrite IH. reflexivity.
Qed.

Section MatcherFacts.
Import Re Match.

Lemma step_stops (p : ascii -> bool) (s : st) (k : st -> option st) :
  stops p (rest s) -> step p s k = None.
Proof.
  unfold step, stops. destruct (rest s) as [|c t]; [reflexivity|].
  intros ->. reflexivity.
Qed.

Lemma rep_fail (p : ascii -> bool) (k : st -> option st) (fuel lo : nat)
    (hi : option nat) (s : st) :
  1 <= lo -> stops p (rest s) ->
  rep_loop (step p) k true fuel lo hi s = None.
Proof.
  intros Hlo Hstop.
  assert (E : (lo =? 0)%nat = false) by (apply Nat.eqb_neq; lia).
  destruct fuel as [|f]; cbn [rep_loop]; rewrite E; [reflexivity|].
  destruct hi as [[|h]|]; cbn [or_else]; rewrite ?step_stops by exact Hstop; reflexivity.
Qed.

Lemma rep_run (p : ascii -> bool) (k : st -> option st) (e : st) :
  forall (w : string) (fuel lo hi : nat) (s : st) (tail : string),
    rest s = w +:+ tail ->
    Str.forallb p w = true ->
    String.length w <= hi -> lo <= String.length w -> String.length w < fuel ->
    (String.length w < hi -> stops p tail) ->
    k (moved s w tail) = Some e ->
    rep_loop (step p) k true fuel lo (Some hi) s = Some e.
Proof.
  induction w as [|c w IH]; intros fuel lo hi s tail Hrest Hall Hhi Hlo Hfuel Hstop Hk.
  - cbn [String.length] in *. assert (lo = 0) by lia. subst lo.
    destruct fuel as [|f]; [lia|]. cbn [rep_loop Nat.eqb].
    assert (Hs : moved s "" tail = s).
    { destruct s as [pv rs ps cs]. cbn in Hrest. subst rs. reflexivity. }
    rewrite Hs in Hk.
    destruct hi as [|h]; cbn [or_else]; [exact Hk|].
    rewrite step_stops; [exact Hk|]. rewrite Hrest. apply Hstop. lia.
  - change (String c w +:+ tail) with (String c (w +:+ tail)) in Hrest.
    cbn [String.length Str.forallb] in *.
    apply andb_prop in Hall as [Hc Hall].
    destruct fuel as [|f]; [lia|]. destruct hi as [|h]; [lia|].
    cbn [rep_loop]. unfold step at 1. rewrite Hrest, Hc.
    cbn [pos option_map Nat.pred].
    replace (S (pos s) =? pos s)%nat with false by (symmetry; apply Nat.eqb_neq; lia).
    rewrite (IH f (Nat.pred lo) h
               {| prev := Some c; rest := w +:+ tail; pos := S (pos s); caps := caps s |}
               tail); [reflexivity|reflexivity|exact Hall|lia|lia|lia| |].
    + intros H. apply Hstop. lia.
    + unfold moved in *. cbn [prev rest pos caps last_or] in *.
      rewrite Nat.add_succ_r. exact Hk.
Qed.

Lemma rep_all_fail (p : ascii -> bool) (k : st -> option st) :
  forall (fuel lo : nat) (hi : option nat) (s : st),
    (forall w tail, rest s = w +:+ tail -> Str.forallb p w = true ->
                    k (moved s w tail) = None) ->
    rep_loop (step p) k true fuel lo hi s = None.
Proof.
  induction fuel as [|f IH]; intros lo hi s Hk.
  - cbn [rep_loop]. destruct (lo =? 0)%nat; [|reflexivity].
    specialize (Hk "" (rest s) eq_refl eq_refl).
    destruct s as [pv rs ps cs]. exact Hk.
  - assert (Hstop : (if (lo =? 0)%nat then k s else None) = None).
    { destruct (lo =? 0)%nat; [|reflexivity].
      specialize (Hk "" (rest s) eq_refl eq_refl).
      destruct s as [pv rs ps cs]. exact Hk. }
    assert (Hmore : step p s (fun s' =>
              if (pos s' =? pos s)%nat then None
              else rep_loop (step p) k true f (Nat.pred lo) (option_map Nat.pred hi) s')
            = None).
    { unfold step. destruct (rest s) as [|c t] eqn:Er; [reflexivity|].
      destruct (p c) eqn:Ec; [|reflexivity]. cbn [pos].
      replace (S (pos s) =? pos s)%nat with false by (symmetry; apply Nat.eqb_neq; lia).
      apply IH. intros w tail Hrest Hall. cbn [rest] in Hrest.
      specialize (Hk (String c w) tail).
      unfold moved in *. cbn [prev rest pos caps last_or String.length] in *.
      rewrite Nat.add_succ_r. apply Hk.
      - rewrite Hrest. reflexivity.
      - cbn [Str.forallb]. rewrite Ec, Hall. reflexivity. }
    cbn [rep_loop]. destruct hi as [[|h]|]; cbn [or_else];
      rewrite ?Hmore; cbn [or_else]; exact Hstop.
Qed.

Lemma scan_first (p : pattern) (s : string) (e : st) :
  forall (pre : string) (pv : option ascii) (acc : string) (fuel : nat),
    String.length (pre +:+ s) < fuel ->
    quiet_at p pv pre s ->
    rmatch (icase p) (tree p) (start (last_or pv pre) s) Some = Some e ->
    pos e <> 0 ->
    exists h, List.head (fst (scan p fuel pv (pre +:+ s) acc)) = Some h
              /\ h_text h = Str.take (pos e) s /\ h_caps h = caps e.
Proof.
  induction pre as [|c b IH]; intros pv acc fuel Hfuel Hquiet Hm Hpos.
  - destruct fuel as [|f]; [cbn in Hfuel; lia|].
    change ("" +:+ s) with s. cbn [scan last_or] in *. rewrite Hm.
    replace (pos e =? 0)%nat with false by (symmetry; apply Nat.eqb_neq; exact Hpos).
    destruct (scan p f (prev e) (rest e) "") as [hs tl].
    eexists. split; [reflexivity|]. split; reflexivity.
  - destruct fuel as [|f]; [cbn in Hfuel; lia|].
    change (String c b +:+ s) with (String c (b +:+ s)) in *.
    cbn [quiet_at] in Hquiet. destruct Hquiet as [Hnone Hquiet].
    cbn [scan]. rewrite Hnone.
    apply IH; [cbn [String.length] in Hfuel; lia | exact Hquiet | exact Hm | exact Hpos].
Qed.

Lemma search_first (p : pattern) (pre s : string) (e : st) :
  quiet_at p None pre s ->
  rmatch (icase p) (tree p) (start (last_or None pre) s) Some = Some e ->
  pos e <> 0 ->
  exists h, search p (pre +:+ s) = Some h
            /\ h_text h = Str.take (pos e) s /\ h_caps h = caps e.
Proof.
  intros Hq Hm Hpos. unfold search, finditer.
  apply scan_first; [lia | exact Hq | exact Hm | exact Hpos].
Qed.

Lemma scan_silent (p : pattern) :
  forall (txt : string) (pv : option ascii) (acc : string) (fuel : nat),
    silent p pv txt -> scan p fuel pv txt acc = ([], Str.rev_onto acc txt).
Proof.
  induction txt as [|c t IH]; intros pv acc fuel Hs;
    (destruct fuel as [|f]; [reflexivity|]); cbn [scan];
    destruct Hs as [Hnone Hrest]; rewrite Hnone.
  - reflexivity.
  - rewrite (IH (Some c) (String c acc) f Hrest). reflexivity.
Qed.

Lemma sub_silent (p : pattern) (repl txt : string) :
  silent p None txt -> sub p repl txt = txt.
Proof.
  intros Hs. unfold sub. rewrite (scan_silent p txt None "" _ Hs). reflexivity.
Qed.

End MatcherFacts.

Section Classes.
Import Re Match.

Lemma cls_s (c : ascii) : cls_match false false [ILit "S"; ILit "s"] c = is_s c.
Proof.
  unfold cls_match, is_s. cbn [List.existsb item_match lit_match xorb].
  rewrite orb_false_r. reflexivity.
Qed.

Lemma cls_e (c : ascii) : cls_match false false [ILit "E"; ILit "e"] c = is_e c.
Proof.
  unfold cls_match, is_e. cbn [List.existsb item_match lit_match xorb].
  rewrite orb_false_r. reflexivity.
Qed.

Lemma cls_sep (c : ascii) :
  cls_match false false [ILit " "; ILit "."; ILit "_"; ILit "-"] c = is_sep c.
Proof.
  unfold cls_match, is_sep, Str.mem.
  cbn [List.existsb item_match lit_match xorb Str.existsb]. reflexivity.
Qed.

Lemma cls_digit (c : ascii) : cls_match false false [IDigit] c = Chr.is_decimal c.
Proof. unfold cls_match. cbn [List.existsb item_match xorb]. apply orb_false_r. Qed.

Lemma stops_digit (t : string) :
  no_leading_decimal t = true -> stops (cls_match false false [IDigit]) t.
Proof.
  destruct t as [|c t]; cbn [stops no_leading_decimal]; [trivial|].
  rewrite cls_digit. intros H. apply negb_true_iff. exact H.
Qed.

Lemma all_digit (w : string) :
  Str.forallb Chr.is_decimal w = true ->
  Str.forallb (cls_match false false [IDigit]) w = true.
Proof.
  induction w as [|c w IH]; cbn [Str.forallb]; [reflexivity|].
  rewrite cls_digit. intros H. apply andb_prop in H as [-> H]. apply IH. exact H.
Qed.

Lemma e_facts (c : ascii) :
  is_e c = true -> Chr.is_decimal c = false /\ is_sep c = false.
Proof.
  unfold is_e. intros H. apply orb_prop in H as [H|H];
    apply Ascii.eqb_eq in H; subst c; split; reflexivity.
Qed.

Lemma sep_facts (c : ascii) : is_sep c = true -> Chr.is_decimal c = false.
Proof.
  unfold is_sep, Str.mem. cbn [Str.existsb]. intros H.
  repeat (apply orb_prop in H as [H|H];
          [apply Ascii.eqb_eq in H; subst c; reflexivity|]).
  discriminate H.
Qed.

Lemma all_sep (w : string) :
  Str.forallb is_sep w = true ->
  Str.forallb (cls_match false false [ILit " "; ILit "."; ILit "_"; ILit "-"]) w = true.
Proof.
  induction w as [|c w IH]; cbn [Str.forallb]; [reflexivity|].
  intros H. apply andb_prop in H as [Hc H].
  rewrite (IH H). rewrite <- (cls_sep c) in Hc. rewrite Hc. reflexivity.
Qed.

End Classes.


(** ** Sanitising path components *)

Section Sanitize.
Import Shared.

Lemma illegal_classes_equal : MovieTools.WIN_ILLEGAL_RE = MovieTool.WIN_ILLEGAL_RE.
Proof. vm_compute. reflexivity. Qed.

Lemma tool_sanitize_unfold (x : string) :
  MovieTool.sanitize_component x
  = if is_reserved (squeezed x) then squeezed x +:+ "_" else squeezed x.
Proof. reflexivity. Qed.

Lemma tools_sanitize_unfold (x : string) :
  MovieTools.sanitize_component x
  = let nm := if Str.is_empty (squeezed x) then "_" else squeezed x in
    if is_reserved nm then nm +:+ "_" else nm.
Proof.
  unfold MovieTools.sanitize_component, squeezed.
  rewrite illegal_classes_equal. reflexivity.
Qed.



End Sanitize.

(** C6.  The sanitiser of [movie_tools.py] is not idempotent: a component
    in which white space precedes the final period keeps a trailing space
    on the first pass (the period is stripped after the white space), and
    loses it only on the second pass.  The same holds for the sanitiser of
    [movie_tool.py]. *)
Theorem sanitize_component_second_pass_differs :
  MovieTools.sanitize_component "What ?." = "What "
  /\ MovieTools.sanitize_component (MovieTools.sanitize_component "What ?.") = "What"
  /\ MovieTool.sanitize_component "What ?." = "What "
  /\ MovieTool.sanitize_component (MovieTool.sanitize_component "What ?.") = "What".
Proof. vm_compute. repeat split. Qed.

(** ** The two renderers *)

Section Renderers.
Import Re Match Shared.




Lemma trailing_compiled : TRAILING_SEPARATORS = {| icase := false; tree := TS_TREE |}.
Proof. vm_compute. reflexivity. Qed.

Lemma ends_clean_tail (c : ascii) (t : string) :
  t <> EmptyString -> ends_clean (String c t) = ends_clean t.
Proof. destruct t; [congruence | reflexivity]. Qed.

(** After a run of separators in a text that ends clean, the text goes
    on, and not with a closing line feed. *)
Lemma clean_after_run (w : string) :
  forall tail : string,
    ends_clean (w +:+ tail) = true ->
    w +:+ tail <> EmptyString ->
    Str.forallb (cls_match false false [ILit " "; ILit "."; ILit "_"; ILit "-"]) w = true ->
    at_end {| prev := None; rest := tail; pos := 0; caps := [] |} = false.
Proof.
  induction w as [|c w IH]; intros tail Hclean Hne Hall.
  - rewrite append_nil_l in *. unfold at_end. cbn [rest].
    destruct tail as [|a [|b tl]]; [congruence| |reflexivity].
    cbn [ends_clean] in Hclean. apply andb_prop in Hclean as [_ H].
    apply negb_true_iff in H. exact H.
  - rewrite append_cons in *. cbn [Str.forallb] in Hall.
    apply andb_prop in Hall as [Hc Hall]. rewrite cls_sep in Hc.
    destruct (w +:+ tail) as [|a r] eqn:E.
    + cbn [ends_clean] in Hclean. rewrite Hc in Hclean. discriminate Hclean.
    + apply IH; [|rewrite E; discriminate|exact Hall].
      rewrite E. rewrite ends_clean_tail in Hclean by discriminate. exact Hclean.
Qed.

Lemma trailing_silent (txt : string) :
  forall pv : option ascii,
    ends_clean txt = true -> silent {| icase := false; tree := TS_TREE |} pv txt.
Proof.
  assert (Hend : forall pv, rmatch false TS_TREE (start pv "") Some = None).
  { intros pv. unfold TS_TREE. cbn [rmatch].
    change (rmatch false (Cls false [ILit " "; ILit "."; ILit "_"; ILit "-"]))
      with (step (cls_match false false [ILit " "; ILit "."; ILit "_"; ILit "-"])).
    apply rep_fail; [lia | exact I]. }
  induction txt as [|c t IH]; intros pv Hclean; cbn [silent icase tree].
  - split; [apply Hend | exact I].
  - split.
    + unfold TS_TREE. cbn [rmatch].
      change (rmatch false (Cls false [ILit " "; ILit "."; ILit "_"; ILit "-"]))
        with (step (cls_match false false [ILit " "; ILit "."; ILit "_"; ILit "-"])).
      apply rep_all_fail. intros w tail Hrest Hall. cbn [rest start] in Hrest.
      cbn [rmatch].
      assert (H : at_end (moved (start pv (String c t)) w tail) = false).
      { unfold at_end. cbn [rest moved].
        apply (clean_after_run w tail); [rewrite <- Hrest; exact Hclean | | exact Hall].
        rewrite <- Hrest. discriminate. }
      rewrite H. reflexivity.
    + destruct t as [|a r]; [|apply IH; exact Hclean].
      cbn [silent icase tree]. split; [apply Hend | exact I].
Qed.

Lemma trailing_strip_noop (txt : string) :
  ends_clean txt = true -> sub TRAILING_SEPARATORS "" txt = txt.
Proof.
  intros H. rewrite trailing_compiled. apply sub_silent, trailing_silent. exact H.
Qed.

End Renderers.




(** ** Candidate scoring *)

Section Scoring.
Import Shared Scorer.
Local Open Scope Q_scope.



Lemma score_all_returns (f : candidate -> option Z -> Q) (cands : list candidate)
    (l : list (Q * candidate)) :
  score_all f cands = Returns l ->
  l = List.map (fun c => (f c (year_or_none c), c)) cands.
Proof.
  revert l. induction cands as [|c cs IH]; intros l H; cbn in H.
  - injection H as <-. reflexivity.
  - cbn [List.map]. unfold year_or_none at 1.
    destruct (year_of (text_or_empty (date c))) as [yr|] eqn:Ey; [|discriminate].
    destruct (score_all f cs) as [l'|]; [|discriminate].
    injection H as <-. f_equal. apply IH. reflexivity.
Qed.

Lemma score_all_raises (f : candidate -> option Z -> Q) (cands : list candidate) :
  score_all f cands = Raises -> List.Exists bad_date cands.
Proof.
  induction cands as [|c cs IH]; intros H; cbn in H; [discriminate|].
  destruct (year_of (text_or_empty (date c))) as [yr|] eqn:Ey.
  - destruct (score_all f cs) as [l'|]; [discriminate|].
    apply List.Exists_cons_tl, IH. reflexivity.
  - apply List.Exists_cons_hd. exact Ey.
Qed.

Lemma in_insert_desc (x y : Q * candidate) (l : list (Q * candidate)) :
  List.In y (insert_desc x l) -> y = x \/ List.In y l.
Proof.
  induction l as [|h tl IH]; cbn.
  - intros [<-|[]]. left. reflexivity.
  - destruct (Qle_bool (fst h) (fst x)); cbn.
    + intros [<-|H]; [left; reflexivity | right; exact H].
    + intros [<-|H]; [right; left; reflexivity|].
      destruct (IH H) as [->|H']; [left; reflexivity | right; right; exact H'].
Qed.

Lemma in_sort_desc (y : Q * candidate) (l : list (Q * candidate)) :
  List.In y (sort_desc l) -> List.In y l.
Proof.
  induction l as [|x tl IH]; cbn; [tauto|].
  intros H. apply in_insert_desc in H as [->|H]; [left; reflexivity|].
  right. apply IH. exact H.
Qed.

Lemma sort_desc_nonempty (x : Q * candidate) (l : list (Q * candidate)) :
  sort_desc (x :: l) <> [].
Proof.
  unfold sort_desc. cbn [List.fold_right].
  destruct (List.fold_right insert_desc [] l) as [|h tl]; cbn [insert_desc].
  - intros H. discriminate H.
  - destruct (Qle_bool (fst h) (fst x)); intros H; discriminate H.
Qed.

(** What [select] answers: it raises exactly on a date that does not
    convert, and a candidate it returns is one of the list whose score
    under [f] clears the gate. *)
Lemma select_spec (f : candidate -> option Z -> Q) (gate : Q)
    (cands : list candidate) :
  match select f gate cands with
  | Returns (Some c) => List.In c cands /\ gate <= f c (year_or_none c)
  | Returns None => True
  | Raises => List.Exists bad_date cands
  end.
Proof.
  unfold select. destruct cands as [|c0 cs]; [exact I|].
  destruct (score_all f (c0 :: cs)) as [scored|] eqn:Es.
  - apply score_all_returns in Es.
    destruct (sort_desc scored) as [|[top_score top] rest] eqn:Et.
    + exfalso. subst scored. cbn [List.map] in Et.
      exact (sort_desc_nonempty _ _ Et).
    + destruct (Qle_bool gate top_score) eqn:Eg; [|exact I].
      assert (Hin : List.In (top_score, top) scored).
      { apply in_sort_desc. rewrite Et. left. reflexivity. }
      subst scored. apply List.in_map_iff in Hin as [c [Hc Hin]].
      injection Hc as Hs ->. split; [exact Hin|].
      rewrite Hs. apply Qle_bool_iff. exact Eg.
  - apply score_all_raises in Es. exact Es.
Qed.

End Scoring.




(** ** Trailer picking *)

Section Trailers.
Import Shared Trailer.
Local Open Scope Q_scope.

Lemma max_by_in {A : Type} (f : A -> Q) (l : list A) (best : A) :
  List.In (max_by f best l) (best :: l).
Proof.
  revert best. induction l as [|x tl IH]; intros best; cbn [max_by].
  - left. reflexivity.
  - destruct (IH (if Qle_bool (f x) (f best) then best else x)) as [H|H].
    + destruct (Qle_bool (f x) (f best)).
      * left. exact H.
      * right. left. exact H.
    + right. right. exact H.
Qed.

Lemma filter_playable_nil (videos : list video) :
  List.Forall (fun v => playable v = false) videos ->
  List.filter playable videos = [].
Proof.
  induction 1 as [|v l Hv _ IH]; [reflexivity|].
  cbn. rewrite Hv. exact IH.
Qed.

Lemma Qle_bool_false (x y : Q) : Qle_bool x y = false -> y < x.
Proof.
  intros E. apply Qnot_le_lt. intros H. apply Qle_bool_iff in H. congruence.
Qed.

(** [max] answers the first entry of greatest key. *)
Lemma max_by_first_best {A : Type} (f : A -> Q) (l : list A) :
  forall best, first_best f (best :: l) (max_by f best l).
Proof.
  induction l as [|x tl IH]; intros best; cbn [max_by].
  - exists [], []. repeat split; constructor.
  - destruct (Qle_bool (f x) (f best)) eqn:E.
    + apply Qle_bool_iff in E.
      destruct (IH best) as (pre & post & Heq & Hpre & Hpost).
      remember (max_by f best tl) as m eqn:Em. clear Em IH.
      destruct pre as [|b pre'].
      * cbn [app] in Heq. injection Heq as Hb Htl. subst m tl.
        exists [], (x :: post). split; [reflexivity|].
        split; [constructor|]. constructor; [exact E | exact Hpost].
      * cbn [app] in Heq. injection Heq as Hb Htl. subst b tl.
        exists (best :: x :: pre'), post. split; [reflexivity|].
        split; [|exact Hpost].
        inversion Hpre as [|? ? Hbest Hpre']; subst.
        constructor; [exact Hbest|]. constructor; [|exact Hpre'].
        eapply Qle_lt_trans; [exact E | exact Hbest].
    + apply Qle_bool_false in E.
      destruct (IH x) as (pre & post & Heq & Hpre & Hpost).
      remember (max_by f x tl) as m eqn:Em. clear Em IH.
      exists (best :: pre), post. split; [rewrite Heq; reflexivity|].
      split; [|exact Hpost]. constructor; [|exact Hpre].
      destruct pre as [|b pre'].
      * cbn [app] in Heq. injection Heq as Hb _. rewrite <- Hb. exact E.
      * cbn [app] in Heq. injection Heq as Hb _. subst b.
        inversion Hpre as [|? ? Hx _]; subst.
        eapply Qlt_trans; [exact E | exact Hx].
Qed.

Lemma first_best_in {A : Type} (f : A -> Q) (l : list A) (m : A) :
  first_best f l m -> List.In m l.
Proof.
  intros (pre & post & -> & _). apply List.in_or_app. right. left. reflexivity.
Qed.


Lemma filter_playable_all (videos : list video) :
  List.filter playable videos = [] ->
  List.Forall (fun v => playable v = false) videos.
Proof.
  induction videos as [|v l IH]; cbn [List.filter]; [constructor|].
  destruct (playable v) eqn:E; [discriminate|].
  intros H. constructor; [exact E | apply IH; exact H].
Qed.

(** What a picker of the shape of [pick_best_trailer] answers under the
    score [f]: the watch URL of the first playable entry of greatest
    score, or nothing when no entry is playable. *)
Lemma pick_by_spec (f : video -> Q) (videos : list video) :
  match
    match videos with
    | [] => None
    | v0 :: vs =>
        let best :=
          match List.filter playable videos with
          | [] => max_by f v0 vs
          | y0 :: ys => max_by f y0 ys
          end in
        if playable best then Some (YOUTUBE_WATCH +:+ text_or_empty (key best))
        else None
    end
  with
  | Some u => exists v, first_best f (List.filter playable videos) v /\ u = watch_url v
  | None => List.Forall (fun v => playable v = false) videos
  end.
Proof.
  destruct videos as [|v0 vs]; [constructor|].
  destruct (List.filter playable (v0 :: vs)) as [|y0 ys] eqn:Ef; cbv zeta.
  - pose proof (filter_playable_all _ Ef) as Hall.
    rewrite List.Forall_forall in Hall.
    rewrite (Hall _ (max_by_in _ vs v0)).
    apply List.Forall_forall. exact Hall.
  - pose proof (max_by_first_best f ys y0) as Hb.
    assert (Hp : playable (max_by f y0 ys) = true).
    { apply first_best_in in Hb. rewrite <- Ef in Hb.
      apply List.filter_In in Hb as [_ Hb]. exact Hb. }
    rewrite Hp. eexists. split; [exact Hb | reflexivity].
Qed.

End Trailers.

(** C7, as stated, fails: for a list whose only entry is on another
    platform, both pickers return none. *)
Lemma no_url_from_a_foreign_platform :
  let v := {| Trailer.site := Some "Vimeo"; Trailer.type := Some "Trailer";
              Trailer.name := Some "Official Trailer"; Trailer.size := Some 1080%Z;
              Trailer.official := true; Trailer.iso_639_1 := Some "en";
              Trailer.iso_3166_1 := Some "US";
              Trailer.published_at := Some "2021-01-01T12:00:00.000Z";
              Trailer.key := Some "123456"; Trailer.url := None |} in
  Trailer.playable v = false
  /\ Trailer64.pick_best_trailer (PyHash.hash (PyHash.key_of_seed 0)) [v] ["en-US"; "en"]
     = None
  /\ Trailer.best_trailer_url [v] = None.
Proof. vm_compute. repeat split. Qed.

(** C7, amended.  For a list of video candidates in which no entry has the
    supported platform as its site together with a playable key, the
    picker of [movie_tool.py] scores the unfiltered list and returns none;
    the picker of [movie_tools.py] returns none for the empty list, and
    otherwise looks at its best entry, the first of greatest score: it
    returns the [url] field of that entry when the field is not empty, and
    none when it is. *)
Theorem unplayable_lists_yield_no_watch_url
    (hash : string -> Z) (videos : list Trailer.video) (prefer_langs : list string) :
  List.Forall (fun v => Trailer.playable v = false) videos ->
  Trailer64.pick_best_trailer hash videos prefer_langs = None
  /\ match videos with
     | [] => Trailer.best_trailer_url videos = None
     | _ =>
         exists v,
           first_best Trailer.url_score videos v
           /\ Trailer.best_trailer_url videos
              = if Trailer.truthy (Trailer.url v) then Trailer.url v else None
     end.
Proof.
  intros Hall. destruct videos as [|v0 vs]; [split; reflexivity|].
  assert (Hnot : forall v, List.In v (v0 :: vs) -> Trailer.playable v = false).
  { apply List.Forall_forall. exact Hall. }
  split.
  - unfold Trailer64.pick_best_trailer.
    rewrite (filter_playable_nil _ Hall).
    rewrite (Hnot _ (max_by_in _ vs v0)). reflexivity.
  - exists (Trailer.max_by Trailer.url_score v0 vs).
    split; [apply max_by_first_best|].
    unfold Trailer.best_trailer_url.
    rewrite (Hnot _ (max_by_in Trailer.url_score vs v0)). reflexivity.
Qed.

(** C7 on two unplayable entries that score alike: the first is the best
    entry, and its [url] field is empty, so the second entry's address is
    not returned. *)
Lemma unplayable_pair_yields_no_watch_url :
  let v := {| Trailer.site := Some "Vimeo"; Trailer.type := Some "Trailer";
              Trailer.name := None; Trailer.size := None;
              Trailer.official := false; Trailer.iso_639_1 := None;
              Trailer.iso_3166_1 := None; Trailer.published_at := None;
              Trailer.key := Some "123456"; Trailer.url := None |} in
  let u := {| Trailer.site := Some "Vimeo"; Trailer.type := Some "Trailer";
              Trailer.name := None; Trailer.size := None;
              Trailer.official := false; Trailer.iso_639_1 := None;
              Trailer.iso_3166_1 := None; Trailer.published_at := None;
              Trailer.key := None; Trailer.url := Some "https://example.org/t" |} in
  Trailer64.pick_best_trailer (fun _ => 0%Z) [v; u] [] = None
  /\ exists w,
       first_best Trailer.url_score [v; u] w
       /\ Trailer.best_trailer_url [v; u]
          = if Trailer.truthy (Trailer.url w) then Trailer.url w else None.
Proof.
  apply (unplayable_lists_yield_no_watch_url (fun _ => 0%Z)).
  repeat constructor.
Defined.

(** C8.  The choice of the trailer is not reproducible across processes:
    the tie-breaking term is taken from Python's salted string hash.  With
    the hash keys of [PYTHONHASHSEED=0] and [PYTHONHASHSEED=1], the same
    two entries, which differ in key and publication time only, get
    different tie-breaking terms and the picker returns different URLs. *)
Theorem trailer_choice_depends_on_the_hash_key :
  let entry := fun k pub =>
    {| Trailer.site := Some "YouTube"; Trailer.type := Some "Trailer";
       Trailer.name := Some "Official Trailer"; Trailer.size := Some 1080%Z;
       Trailer.official := true; Trailer.iso_639_1 := Some "en";
       Trailer.iso_3166_1 := Some "US"; Trailer.published_at := Some pub;
       Trailer.key := Some k; Trailer.url := None |} in
  let videos := [entry "AAA" "2021-01-01T12:00:00.000Z";
                 entry "BBB" "2021-06-01T12:00:00.000Z"] in
  let h0 := PyHash.hash (PyHash.key_of_seed 0) in
  let h1 := PyHash.hash (PyHash.key_of_seed 1) in
  (h0 "2021-01-01T12:00:00.000Z" mod 1000 = 834)%Z
  /\ (h1 "2021-01-01T12:00:00.000Z" mod 1000 = 686)%Z
  /\ (h0 "2021-06-01T12:00:00.000Z" mod 1000 = 46)%Z
  /\ (h1 "2021-06-01T12:00:00.000Z" mod 1000 = 998)%Z
  /\ Trailer.pick_best_trailer h0 videos ["en-US"; "en"]
     = Some "https://www.youtube.com/watch?v=AAA"
  /\ Trailer.pick_best_trailer h1 videos ["en-US"; "en"]
     = Some "https://www.youtube.com/watch?v=BBB".
Proof. vm_compute. repeat split. Qed.

(** ** Collision-free destinations *)

Section UniquePath.
Import Path FS.

Lemma to_uint_not_nil (n : nat) : Nat.to_uint n <> Decimal.Nil.
Proof.
  intros H. pose proof (Unsigned.of_to n) as E. rewrite H in E. cbn in E.
  subst n. discriminate H.
Qed.

Lemma of_nat_inj (n m : nat) : Str.of_nat n = Str.of_nat m -> n = m.
Proof.
  unfold Str.of_nat. intros H.
  apply (f_equal NilZero.uint_of_string) in H.
  rewrite !NilZero.usu in H by apply to_uint_not_nil.
  injection H as H. apply Unsigned.to_uint_inj. exact H.
Qed.

Lemma numbered_inj (dst : path) (n m : nat) :
  numbered dst n = numbered dst m -> n = m.
Proof.
  unfold numbered. intros H. apply app_inv_head in H. injection H as H.
  apply append_inv_head in H. apply append_inv_head in H.
  apply append_inv_tail in H. apply of_nat_inj. exact H.
Qed.

Lemma numbered_shape (dst : path) (n : nat) :
  parent (numbered dst n) = parent dst
  /\ name (numbered dst n)
     = stem dst +:+ " (" +:+ Str.of_nat n +:+ ")" +:+ suffix dst.
Proof.
  set (x := stem dst +:+ " (" +:+ Str.of_nat n +:+ ")" +:+ suffix dst).
  assert (Hanchor : is_anchor (numbered dst n) = false).
  { unfold numbered. fold x. destruct (parent dst) as [|a [|b l]]; cbn.
    - apply String.eqb_neq. intros E. apply (f_equal String.length) in E.
      unfold x in E. rewrite !append_length in E. cbn in E. lia.
    - reflexivity.
    - destruct (l ++ [x]); reflexivity. }
  unfold parent, name. rewrite Hanchor. unfold numbered. fold x.
  split; [apply List.removelast_last | apply List.last_last].
Qed.

(** The loop finds the least free number from [n] on, provided the fuel
    exceeds the size of a set that holds the taken candidates. *)
Lemma next_free_finds (f : fs) (dst : path) :
  forall (fuel n : nat) (X : gset path),
    size X < fuel ->
    (forall m, n <= m -> exists_ f (numbered dst m) = true -> numbered dst m ∈ X) ->
    exists k, n <= k
              /\ next_free f dst fuel n = Some (numbered dst k)
              /\ exists_ f (numbered dst k) = false
              /\ forall m, n <= m < k -> exists_ f (numbered dst m) = true.
Proof.
  induction fuel as [|fuel IH]; intros n X Hsize Hin; [lia|].
  cbn [next_free].
  destruct (exists_ f (numbered dst n)) eqn:En.
  - pose proof (Hin n (Nat.le_refl n) En) as HnX.
    destruct (IH (S n) (X ∖ {[numbered dst n]})) as (k & Hk & Hres & Hfree & Hbelow).
    + rewrite size_difference by set_solver.
      rewrite size_singleton.
      assert (size X <> 0) by (apply size_non_empty_iff; set_solver). lia.
    + intros m Hm Em. apply elem_of_difference. split; [apply Hin; [lia | exact Em]|].
      intros Heq. apply elem_of_singleton in Heq. apply numbered_inj in Heq. lia.
    + exists k. split; [lia|]. split; [exact Hres|]. split; [exact Hfree|].
      intros m Hm. destruct (Nat.eq_dec m n) as [->|Hne]; [exact En|].
      apply Hbelow. lia.
  - exists n. split; [lia|]. split; [reflexivity|]. split; [exact En|].
    intros m Hm. lia.
Qed.

End UniquePath.

(** C5.  [ensure_unique_path] returns (given fuel above the number of
    existing paths, the loop ends) a path that does not exist; it is the
    input when the input does not exist, and otherwise the path with the
    least number [n >= 2] for which appending [" (n)"] to the stem, before
    the extension and under the same parent, gives a free path. *)
Theorem ensure_unique_path_allocates (f : FS.fs) (dst : Path.path) :
  exists (r : Path.path) (n : nat),
    (forall fuel, size (FS.entries f) < fuel -> FS.ensure_unique_path fuel f dst = Some r)
    /\ FS.exists_ f r = false
    /\ (FS.exists_ f dst = false -> r = dst)
    /\ (FS.exists_ f dst = true ->
        2 <= n
        /\ r = FS.numbered dst n
        /\ (forall m, 2 <= m < n -> FS.exists_ f (FS.numbered dst m) = true)
        /\ Path.parent r = Path.parent dst
        /\ Path.name r
           = Path.stem dst +:+ " (" +:+ Str.of_nat n +:+ ")" +:+ Path.suffix dst).
Proof.
  destruct (FS.exists_ f dst) eqn:Ed.
  - assert (Hin : forall m, 2 <= m -> FS.exists_ f (FS.numbered dst m) = true ->
                            FS.numbered dst m ∈ FS.entries f).
    { intros m _ Em. apply bool_decide_eq_true in Em. exact Em. }
    destruct (next_free_finds f dst (S (size (FS.entries f))) 2 (FS.entries f)
                (Nat.lt_succ_diag_r _) Hin) as (k & Hk & _ & Hfree & Hbelow).
    exists (FS.numbered dst k), k. split; [|split; [exact Hfree|split; [discriminate|]]].
    + intros fuel Hfuel. unfold FS.ensure_unique_path. rewrite Ed.
      destruct (next_free_finds f dst fuel 2 (FS.entries f) Hfuel Hin)
        as (k' & Hk' & Hres' & Hfree' & Hbelow').
      rewrite Hres'. f_equal. f_equal.
      destruct (Nat.lt_trichotomy k' k) as [Hlt|[Heq|Hgt]]; [|exact Heq|].
      * rewrite (Hbelow k') in Hfree' by lia. discriminate.
      * rewrite (Hbelow' k) in Hfree by lia. discriminate.
    + intros _. split; [exact Hk|]. split; [reflexivity|]. split; [exact Hbelow|].
      apply numbered_shape.
  - exists dst, 0. split; [|split; [exact Ed|split; [reflexivity|discriminate]]].
    intros fuel _. unfold FS.ensure_unique_path. rewrite Ed. reflexivity.
Qed.

(** C5 on a directory that already holds [b.mkv] and [b (2).mkv]. *)
Lemma ensure_unique_path_allocates_third :
  let f := {| FS.dirs := {[ ["/"]; ["/"; "a"] ]};
              FS.files := {[ ["/"; "a"; "b.mkv"]; ["/"; "a"; "b (2).mkv"] ]} |} in
  FS.ensure_unique_path 5 f ["/"; "a"; "b.mkv"] = Some ["/"; "a"; "b (3).mkv"]
  /\ exists (r : Path.path) (n : nat),
       (forall fuel, size (FS.entries f) < fuel ->
                     FS.ensure_unique_path fuel f ["/"; "a"; "b.mkv"] = Some r)
       /\ FS.exists_ f r = false
       /\ (FS.exists_ f ["/"; "a"; "b.mkv"] = false -> r = ["/"; "a"; "b.mkv"])
       /\ (FS.exists_ f ["/"; "a"; "b.mkv"] = true ->
           2 <= n
           /\ r = FS.numbered ["/"; "a"; "b.mkv"] n
           /\ (forall m, 2 <= m < n ->
                         FS.exists_ f (FS.numbered ["/"; "a"; "b.mkv"] m) = true)
           /\ Path.parent r = Path.parent ["/"; "a"; "b.mkv"]
           /\ Path.name r
              = Path.stem ["/"; "a"; "b.mkv"] +:+ " (" +:+ Str.of_nat n +:+ ")"
                +:+ Path.suffix ["/"; "a"; "b.mkv"]).
Proof.
  split; [vm_compute; reflexivity|].
  exact (ensure_unique_path_allocates
           {| FS.dirs := {[ ["/"]; ["/"; "a"] ]};
              FS.files := {[ ["/"; "a"; "b.mkv"]; ["/"; "a"; "b (2).mkv"] ]} |}
           ["/"; "a"; "b.mkv"]).
Defined.

(** ** The series fallback chain *)

Section Fallbacks.
Import Shared Resolver.

Lemma in_list_iff (x : string) (l : list string) :
  Mutator.in_list x l = true <-> List.In x l.
Proof.
  unfold Mutator.in_list. rewrite List.existsb_exists. split.
  - intros [y [Hy E]]. apply String.eqb_eq in E. subst y. exact Hy.
  - intros H. exists x. split; [exact H | apply String.eqb_refl].
Qed.

Lemma uniq_from_spec (cands : list (string * option Z)) :
  forall seen,
    List.NoDup (List.map lowered (uniq_from seen cands))
    /\ (forall ty, List.In ty (uniq_from seen cands) ->
                   List.In ty cands /\ ~ List.In (lowered ty) seen)
    /\ (forall ty, List.In ty cands ->
                   List.In (lowered ty) seen
                   \/ List.In (lowered ty) (List.map lowered (uniq_from seen cands))).
Proof.
  induction cands as [|[t0 y0] tl IH]; intros seen; cbn [uniq_from].
  - split; [constructor|]. split; intros ty [].
  - destruct (Mutator.in_list (Str.lower t0) seen) eqn:E.
    + destruct (IH seen) as (Hnd & Hsub & Hcov).
      split; [exact Hnd|]. split.
      * intros ty Hin. destruct (Hsub ty Hin) as [H1 H2]. split; [right; exact H1 | exact H2].
      * intros ty [<-|Hin]; [left; apply in_list_iff; exact E | apply Hcov; exact Hin].
    + destruct (IH (Str.lower t0 :: seen)) as (Hnd & Hsub & Hcov).
      assert (Hnot : ~ List.In (Str.lower t0) seen).
      { intros H. apply in_list_iff in H. congruence. }
      split; [|split].
      * cbn [List.map]. constructor; [|exact Hnd].
        intros Hin. apply List.in_map_iff in Hin as [ty [Hty Hin]].
        destruct (Hsub ty Hin) as [_ H2]. apply H2. left. symmetry. exact Hty.
      * intros ty [<-|Hin]; [split; [left; reflexivity | exact Hnot]|].
        destruct (Hsub ty Hin) as [H1 H2].
        split; [right; exact H1 | intros H; apply H2; right; exact H].
      * intros ty [<-|Hin]; [right; left; reflexivity|].
        destruct (Hcov ty Hin) as [[H|H]|H].
        -- right. left. exact H.
        -- left. exact H.
        -- right. right. exact H.
Qed.

Lemma first_match_spec (search : string -> option Z -> outcome (list Scorer.candidate))
    (qs : list (string * option Z)) :
  match first_match search qs with
  | Returns (Some show) =>
      exists pre q post,
        qs = pre ++ q :: post /\ List.Forall (rejected search) pre /\ accepted search q show
  | Returns None => List.Forall (rejected search) qs
  | Raises => True
  end.
Proof.
  induction qs as [|[qt qy] tl IH]; cbn [first_match]; [constructor|].
  destruct (search qt qy) as [results|] eqn:Es; [|exact I].
  destruct (Scorer64.choose_best_tv results qt qy) as [[show|]|] eqn:Ec; [| |exact I].
  - exists [], (qt, qy), tl. split; [reflexivity|]. split; [constructor|].
    exists results. split; assumption.
  - assert (Hrej : rejected search (qt, qy)) by (exists results; split; assumption).
    destruct (first_match search tl) as [[show|]|]; [| |exact I].
    + destruct IH as (pre & q & post & -> & Hpre & Hacc).
      exists ((qt, qy) :: pre), q, post. split; [reflexivity|].
      split; [constructor; assumption | exact Hacc].
    + constructor; assumption.
Qed.





End Fallbacks.


(** ** Dry run *)

(** C1.  A dry run does not leave the file system untouched: the poster
    download and the trailer download create the destination directory
    before they look at the dry-run flag.  On a disk that holds only
    [/movies/The.Matrix.1999.1080p.BluRay.x264-GROUP.mkv], a dry run of
    [handle_root] with covers (or with trailers) enabled ends with the new
    directory [/movies/The Matrix (1999)] on the disk, and the video file
    still in place. *)
Theorem dry_run_creates_the_destination_directory :
  let video := ["/"; "movies"; "The.Matrix.1999.1080p.BluRay.x264-GROUP.mkv"] in
  let target := ["/"; "movies"; "The Matrix (1999)"] in
  let before := {| Mutator.disk := {| FS.dirs := {[ ["/"]; ["/"; "movies"] ]};
                                      FS.files := {[ video ]} |};
                   Mutator.log := [];
                   Mutator.journal :=
                     ["/"; "home"; "user"; ".config"; "MovieRenamer"; "actions.jsonl"] |} in
  let matrix := {| Scorer.id := 603; Scorer.name := Some "The Matrix";
                   Scorer.original_name := None; Scorer.date := Some "1999-03-30";
                   Scorer.popularity := Some (80 # 1);
                   Scorer.poster_path := Some "/poster.jpg" |} in
  let clip := {| Trailer.site := Some "YouTube"; Trailer.type := Some "Trailer";
                 Trailer.name := Some "Official Trailer"; Trailer.size := Some 1080%Z;
                 Trailer.official := true; Trailer.iso_639_1 := Some "en";
                 Trailer.iso_3166_1 := Some "US";
                 Trailer.published_at := Some "2021-01-01T12:00:00.000Z";
                 Trailer.key := Some "AAA"; Trailer.url := None |} in
  let api := {| Client.search_movie := fun _ _ => Shared.Returns [matrix];
                Client.search_tv := fun _ _ => Shared.Returns [];
                Client.build_poster_url := fun p =>
                  Shared.Returns (Some ("https://image.tmdb.org/t/p/w500" +:+ p));
                Client.http_get := fun _ => Shared.Raises;
                Client.movie_videos := fun _ => Shared.Returns [clip] |} in
  let fetch := fun (_ : string) (_ : Path.path) (_ : FS.fs) => @Shared.Raises FS.fs in
  let covers := {| Pipeline.do_cover := true; Pipeline.do_clean := true;
                   Pipeline.do_prune := true; Pipeline.dry_run := true;
                   Pipeline.do_trailer := false; Pipeline.movie_fmt := None |} in
  let trailers := {| Pipeline.do_cover := false; Pipeline.do_clean := true;
                     Pipeline.do_prune := true; Pipeline.dry_run := true;
                     Pipeline.do_trailer := true; Pipeline.movie_fmt := None |} in
  FS.exists_ (Mutator.disk before) target = false
  /\ option_map (fun f => (FS.is_dir f target, FS.is_file f video))
       (final_disk (Pipeline.handle_root fetch api covers video before))
     = Some (true, true)
  /\ option_map (fun f => (FS.is_dir f target, FS.is_file f video))
       (final_disk (Pipeline.handle_root fetch api trailers video before))
     = Some (true, true).
Proof. vm_compute. repeat split. Qed.

(** ** Episode tags *)

Section EpisodeTags.
Import Re Match Names.

Lemma sxxeyy_compiled : SXXEYY = {| icase := false; tree := SXE_TREE |}.
Proof. vm_compute. reflexivity. Qed.

Lemma sxe_quiet_at (pre : string) :
  forall (pv : option ascii) (s : string),
    sxe_quiet pre = true -> no_leading_decimal s = true ->
    quiet_at SXXEYY pv pre s.
Proof.
  induction pre as [|c b IH]; intros pv s Hq Hs; cbn [quiet_at]; [exact I|].
  cbn [sxe_quiet] in Hq. apply andb_prop in Hq as [Hc Hq].
  split; [|apply IH; assumption].
  rewrite sxxeyy_compiled. cbn [icase tree]. unfold SXE_TREE. cbn [rmatch].
  unfold step at 1. cbn [rest start]. rewrite cls_s.
  destruct (is_s c); [|reflexivity]. cbn [negb orb] in Hc.
  unfold DIGIT. cbn [rmatch].
  change (rmatch false (Cls false [IDigit])) with (step (cls_match false false [IDigit])).
  apply rep_fail; [lia|]. cbn [rest]. apply stops_digit.
  destruct b as [|c2 b]; [exact Hs | exact Hc].
Qed.

Lemma sxe_match (pv : option ascii) (sc ec : ascii) (sep d1 d2 post : string) :
  is_s sc = true -> is_e ec = true ->
  Str.forallb is_sep sep = true -> String.length sep <= 1 ->
  Str.forallb Chr.is_decimal d1 = true -> 1 <= String.length d1 <= 2 ->
  Str.forallb Chr.is_decimal d2 = true -> 1 <= String.length d2 <= 3 ->
  no_leading_decimal post = true ->
  exists e,
    rmatch false SXE_TREE
      (start pv (String sc (d1 +:+ sep +:+ String ec (d2 +:+ post)))) Some = Some e
    /\ pos e <> 0 /\ caps e = [(2, d2); (1, d1)].
Proof.
  intros Hsc Hec Hsep Hlsep Hd1 Hl1 Hd2 Hl2 Hpost.
  destruct (e_facts ec Hec) as [Hec_dig Hec_sep].
  eexists. split.
  - unfold SXE_TREE, DIGIT. cbn [rmatch]. unfold step at 1. cbn [rest start].
    rewrite cls_s, Hsc.
    change (rmatch false (Cls false [IDigit])) with (step (cls_match false false [IDigit])).
    eapply (rep_run _ _ _ d1) with (tail := sep +:+ String ec (d2 +:+ post)).
    + reflexivity.
    + apply all_digit. exact Hd1.
    + lia.
    + lia.
    + cbn [rest]. rewrite append_length. lia.
    + intros _. destruct sep as [|c sep]; rewrite ?append_nil_l, ?append_cons;
        cbn [stops]; rewrite cls_digit; [exact Hec_dig|].
      cbn [Str.forallb] in Hsep. apply andb_prop in Hsep as [Hc _].
      apply sep_facts. exact Hc.
    + cbn beta. cbn [rmatch].
      change (rmatch false (Cls false [ILit " "; ILit "."; ILit "_"; ILit "-"]))
        with (step (cls_match false false [ILit " "; ILit "."; ILit "_"; ILit "-"])).
      eapply (rep_run _ _ _ sep) with (tail := String ec (d2 +:+ post)).
      * reflexivity.
      * apply all_sep. exact Hsep.
      * exact Hlsep.
      * lia.
      * cbn [rest set_cap moved]. rewrite append_length. lia.
      * intros _. cbn [stops]. rewrite cls_sep. exact Hec_sep.
      * cbn beta. cbn [rmatch]. unfold step at 1. cbn [rest moved].
        rewrite cls_e, Hec.
        change (rmatch false (Cls false [IDigit]))
          with (step (cls_match false false [IDigit])).
        eapply (rep_run _ _ _ d2) with (tail := post).
        -- reflexivity.
        -- apply all_digit. exact Hd2.
        -- lia.
        -- lia.
        -- cbn [rest]. rewrite append_length. lia.
        -- intros _. apply stops_digit. exact Hpost.
        -- reflexivity.
  - cbn [pos caps set_cap moved rest prev start]. split; [lia|].
    rewrite !Nat.add_sub, !take_app. reflexivity.
Qed.

Lemma nxm_compiled : NXM = {| icase := false; tree := NXM_TREE |}.
Proof. vm_compute. reflexivity. Qed.

(** After any run of digits that starts in a quiet prefix, the next
    character is not [x]. *)
Lemma digit_run_stops (s : string) :
  forall (w : string) (c : ascii) (b tail : string),
    nxm_quiet (String c b) = true -> Chr.is_decimal c = true ->
    String c b +:+ s = w +:+ tail ->
    Str.forallb (cls_match false false [IDigit]) w = true ->
    stops (lit_match false "x") tail.
Proof.
  induction w as [|c' w IH]; intros c b tail Hq Hc Heq Hall.
  - rewrite append_nil_l in Heq. subst tail. rewrite append_cons. cbn [stops].
    unfold lit_match. apply Ascii.eqb_neq. intros ->. discriminate Hc.
  - rewrite !append_cons in Heq. injection Heq as <- Heq.
    cbn [nxm_quiet] in Hq. rewrite Hc in Hq. cbn [negb orb] in Hq.
    destruct b as [|c2 b2]; [discriminate Hq|].
    apply andb_prop in Hq as [Hx Hq].
    cbn [Str.forallb] in Hall. apply andb_prop in Hall as [_ Hall].
    destruct w as [|c3 w].
    + rewrite append_nil_l in Heq. subst tail. rewrite append_cons. cbn [stops].
      unfold lit_match. apply negb_true_iff in Hx. exact Hx.
    + assert (Hc2 : Chr.is_decimal c2 = true).
      { rewrite !append_cons in Heq. injection Heq as -> _.
        cbn [Str.forallb] in Hall. apply andb_prop in Hall as [Hd _].
        rewrite cls_digit in Hd. exact Hd. }
      apply (IH c2 b2 tail Hq Hc2 Heq Hall).
Qed.

Lemma nxm_quiet_at (pre : string) :
  forall (pv : option ascii) (s : string),
    nxm_quiet pre = true -> quiet_at NXM pv pre s.
Proof.
  induction pre as [|c b IH]; intros pv s Hq; cbn [quiet_at]; [exact I|].
  assert (Hb : nxm_quiet b = true).
  { cbn [nxm_quiet] in Hq. apply andb_prop in Hq as [_ Hq]. exact Hq. }
  split; [|apply IH; exact Hb].
  rewrite nxm_compiled. cbn [icase tree]. unfold NXM_TREE, DIGIT. cbn [rmatch].
  change (rmatch false (Cls false [IDigit])) with (step (cls_match false false [IDigit])).
  destruct (Chr.is_decimal c) eqn:Hc.
  - apply rep_all_fail. intros w tail Hrest Hall. cbn [rest start] in Hrest.
    cbn [rmatch]. apply step_stops. cbn [rest set_cap moved].
    apply (digit_run_stops s w c b tail Hq Hc); [|exact Hall].
    rewrite append_cons. exact Hrest.
  - apply rep_fail; [lia|]. cbn [rest start stops]. rewrite cls_digit. exact Hc.
Qed.

Lemma nxm_match (pv : option ascii) (d1 d2 post : string) :
  Str.forallb Chr.is_decimal d1 = true -> 1 <= String.length d1 <= 2 ->
  Str.forallb Chr.is_decimal d2 = true -> 1 <= String.length d2 <= 2 ->
  no_leading_decimal post = true ->
  exists e,
    rmatch false NXM_TREE (start pv (d1 +:+ String "x" (d2 +:+ post))) Some = Some e
    /\ pos e <> 0 /\ caps e = [(2, d2); (1, d1)].
Proof.
  intros Hd1 Hl1 Hd2 Hl2 Hpost.
  eexists. split.
  - unfold NXM_TREE, DIGIT. cbn [rmatch].
    change (rmatch false (Cls false [IDigit])) with (step (cls_match false false [IDigit])).
    eapply (rep_run _ _ _ d1) with (tail := String "x" (d2 +:+ post)).
    + reflexivity.
    + apply all_digit. exact Hd1.
    + lia.
    + lia.
    + cbn [rest start]. rewrite append_length. lia.
    + intros _. cbn [stops]. rewrite cls_digit. reflexivity.
    + cbn beta. cbn [rmatch]. unfold step at 1. cbn [rest set_cap moved].
      replace (lit_match false "x" "x") with true by reflexivity.
      eapply (rep_run _ _ _ d2) with (tail := post).
      * reflexivity.
      * apply all_digit. exact Hd2.
      * lia.
      * lia.
      * cbn [rest]. rewrite append_length. lia.
      * intros _. apply stops_digit. exact Hpost.
      * reflexivity.
  - cbn [pos caps set_cap moved rest prev start]. split; [lia|].
    rewrite !Nat.add_sub, !take_app. reflexivity.
Qed.

Lemma group_of_caps (h : hit) (d1 d2 : string) :
  h_caps h = [(2, d2); (1, d1)] -> group 1 h = d1 /\ group 2 h = d2.
Proof. unfold group. intros ->. split; reflexivity. Qed.

Lemma episode_tag_of_leftmost (base d1 d2 : string) :
  leftmost_tag base d1 d2 ->
  episode_tag base = (Some (Str.int_of_decimal d1), Some (Str.int_of_decimal d2)).
Proof.
  intros [pre sc sep ec post -> Hsc Hec Hsep Hlsep Hd1 Hl1 Hd2 Hl2 Hpost Hq
         | pre post Hbase Hnone Hd1 Hl1 Hd2 Hl2 Hpost Hq].
  - destruct (sxe_match (last_or None pre) sc ec sep d1 d2 post
                Hsc Hec Hsep Hlsep Hd1 Hl1 Hd2 Hl2 Hpost) as (e & Hm & Hpos & Hcaps).
    assert (Hs : no_leading_decimal
                   (String sc (d1 +:+ sep +:+ String ec (d2 +:+ post))) = true).
    { cbn [no_leading_decimal]. unfold is_s in Hsc.
      apply orb_prop in Hsc as [H|H]; apply Ascii.eqb_eq in H; subst sc; reflexivity. }
    destruct (search_first SXXEYY pre
                (String sc (d1 +:+ sep +:+ String ec (d2 +:+ post))) e
                (sxe_quiet_at pre None _ Hq Hs))
      as (h & Hh & _ & Hhc).
    + rewrite sxxeyy_compiled. exact Hm.
    + exact Hpos.
    + unfold episode_tag. rewrite Hh.
      rewrite Hcaps in Hhc. destruct (group_of_caps h d1 d2 Hhc) as [-> ->].
      reflexivity.
  - unfold episode_tag. rewrite Hnone. subst base.
    destruct (nxm_match (last_or None pre) d1 d2 post Hd1 Hl1 Hd2 Hl2 Hpost)
      as (e & Hm & Hpos & Hcaps).
    destruct (search_first NXM pre (d1 +:+ String "x" (d2 +:+ post)) e
                (nxm_quiet_at pre None _ Hq))
      as (h & Hh & _ & Hhc).
    + rewrite nxm_compiled. exact Hm.
    + exact Hpos.
    + rewrite Hh.
      rewrite Hcaps in Hhc. destruct (group_of_caps h d1 d2 Hhc) as [-> ->].
      reflexivity.
Qed.

End EpisodeTags.




(** * Further properties *)

(** A character that is legal in a path component on Windows. *)

Lemma append_nil_r (x : string) : x +:+ "" = x.
Proof.
  induction x as [|c x IH]; [reflexivity|]. rewrite append_cons, IH. reflexivity.
Qed.

Lemma append_assoc (a b c : string) : (a +:+ b) +:+ c = a +:+ (b +:+ c).
Proof.
  induction a as [|x a IH]; [reflexivity|]. rewrite !append_cons, IH. reflexivity.
Qed.

Lemma rev_onto_append (a b : string) : Str.rev_onto a b = Str.rev a +:+ b.
Proof.
  revert b. unfold Str.rev. induction a as [|c a IH]; intros b; [reflexivity|].
  cbn [Str.rev_onto]. rewrite (IH (String c b)), (IH (String c "")).
  rewrite append_assoc. reflexivity.
Qed.

Lemma forallb_append (p : ascii -> bool) (a b : string) :
  Str.forallb p (a +:+ b) = Str.forallb p a && Str.forallb p b.
Proof.
  induction a as [|c a IH]; [reflexivity|].
  rewrite append_cons. cbn [Str.forallb]. rewrite IH, andb_assoc. reflexivity.
Qed.

Lemma forallb_lstrip (p q : ascii -> bool) (s : string) :
  Str.forallb p s = true -> Str.forallb p (Str.lstrip q s) = true.
Proof.
  induction s as [|c s IH]; [reflexivity|]. cbn [Str.lstrip].
  destruct (q c); [|trivial]. cbn [Str.forallb]. intros H.
  apply andb_prop in H as [_ H]. apply IH. exact H.
Qed.

Lemma forallb_rstrip (p q : ascii -> bool) (s : string) :
  Str.forallb p s = true -> Str.forallb p (Str.rstrip q s) = true.
Proof.
  induction s as [|c s IH]; [reflexivity|]. cbn [Str.rstrip Str.forallb].
  intros H. apply andb_prop in H as [Hc H]. specialize (IH H).
  destruct (Str.rstrip q s) as [|d r].
  - destruct (q c); [reflexivity|]. cbn [Str.forallb]. rewrite Hc. reflexivity.
  - cbn [Str.forallb] in *. rewrite Hc. exact IH.
Qed.

Lemma last_char_append_cons (a : string) (c : ascii) (b : string) :
  last_char (a +:+ String c b) = last_char (String c b).
Proof.
  induction a as [|x a IH]; [reflexivity|].
  rewrite append_cons. cbn [last_char] in *. rewrite IH.
  destruct (last_char b); reflexivity.
Qed.

(** [rstrip] leaves no character of its class at the end. *)
Lemma rstrip_last (q : ascii -> bool) (s : string) (c : ascii) :
  last_char (Str.rstrip q s) = Some c -> q c = false.
Proof.
  revert c. induction s as [|x s IH]; intros c; cbn [Str.rstrip]; [discriminate|].
  destruct (Str.rstrip q s) as [|d r] eqn:E.
  - destruct (q x) eqn:Ex; cbn [last_char]; [discriminate|].
    intros [= <-]. exact Ex.
  - cbn [last_char]. specialize (IH c). cbn [last_char] in IH.
    destruct (last_char r); exact IH.
Qed.

(** [lstrip] leaves no character of its class at the start. *)
Lemma lstrip_first (q : ascii -> bool) (s : string) (c : ascii) :
  first_char (Str.lstrip q s) = Some c -> q c = false.
Proof.
  induction s as [|x s IH]; cbn [Str.lstrip]; [discriminate|].
  destruct (q x) eqn:Ex; [exact IH|]. cbn [first_char]. intros [= <-]. exact Ex.
Qed.

(** [rstrip] keeps the first character of what it leaves. *)
Lemma rstrip_first (q : ascii -> bool) (s : string) (c : ascii) :
  first_char (Str.rstrip q s) = Some c -> first_char s = Some c.
Proof.
  destruct s as [|x s]; cbn [Str.rstrip]; [discriminate|].
  destruct (Str.rstrip q s); [destruct (q x)|]; cbn [first_char]; congruence.
Qed.

Lemma span_spec (p : ascii -> bool) (s : string) :
  s = fst (span p s) +:+ snd (span p s)
  /\ Str.forallb p (fst (span p s)) = true
  /\ stops p (snd (span p s)).
Proof.
  induction s as [|c s (IH1 & IH2 & IH3)]; [repeat split|].
  cbn [span]. destruct (p c) eqn:E; cbn [fst snd].
  - rewrite append_cons, <- IH1. cbn [Str.forallb]. rewrite E, IH2.
    repeat split. exact IH3.
  - repeat split. exact E.
Qed.

Section SubFacts.
Import Re Match.

Lemma rev_cons (c : ascii) (a : string) : Str.rev (String c a) = Str.rev a +:+ String c "".
Proof. unfold Str.rev at 1. cbn [Str.rev_onto]. apply rev_onto_append. Qed.

(** Substitution for a pattern that is one character class works
    character by character. *)
Lemma scan_class (p : pattern) (neg : bool) (items : list item) (repl : string) :
  tree p = Cls neg items ->
  forall (txt : string) (pv : option ascii) (acc : string) (fuel : nat),
    String.length txt < fuel ->
    List.fold_right (fun h a => h_pre h +:+ repl +:+ a)
      (snd (scan p fuel pv txt acc)) (fst (scan p fuel pv txt acc))
    = Str.rev acc +:+ replace_class (cls_match (icase p) neg items) repl txt.
Proof.
  intros Ht. induction txt as [|c t IH]; intros pv acc fuel Hfuel;
    (destruct fuel as [|f]; [cbn [String.length] in Hfuel; lia|]);
    cbn [scan]; rewrite Ht; cbn [rmatch]; unfold step; cbn [start rest].
  - cbn [fst snd List.fold_right replace_class]. rewrite append_nil_r. reflexivity.
  - cbn [replace_class String.length] in *.
    destruct (cls_match (icase p) neg items c) eqn:E.
    + cbn [pos Nat.eqb prev rest].
      specialize (IH (Some c) "" f ltac:(lia)).
      destruct (scan p f (Some c) t "") as [hs tl]. cbn [fst snd] in *.
      cbn [List.fold_right h_pre]. rewrite IH. reflexivity.
    + rewrite (IH (Some c) (String c acc) f ltac:(lia)), rev_cons, append_assoc.
      reflexivity.
Qed.

Lemma sub_class (p : pattern) (neg : bool) (items : list item) (repl txt : string) :
  tree p = Cls neg items ->
  sub p repl txt = replace_class (cls_match (icase p) neg items) repl txt.
Proof.
  intros Ht. unfold sub.
  pose proof (scan_class p neg items repl Ht txt None "" (S (String.length txt))
                ltac:(lia)) as H.
  destruct (scan p (S (String.length txt)) None txt "") as [hs tl].
  exact H.
Qed.

(** The greedy repetition without an upper bound takes the whole run. *)
Lemma rep_run_unbounded (p : ascii -> bool) (k : st -> option st) (e : st) :
  forall (w : string) (fuel lo : nat) (s : st) (tail : string),
    rest s = w +:+ tail ->
    Str.forallb p w = true ->
    lo <= String.length w -> String.length w < fuel ->
    stops p tail ->
    k (moved s w tail) = Some e ->
    rep_loop (step p) k true fuel lo None s = Some e.
Proof.
  induction w as [|c w IH]; intros fuel lo s tail Hrest Hall Hlo Hfuel Hstop Hk.
  - cbn [String.length] in *. assert (lo = 0) by lia. subst lo.
    destruct fuel as [|f]; [lia|]. cbn [rep_loop Nat.eqb].
    assert (Hs : moved s "" tail = s).
    { destruct s as [pv rs ps cs]. cbn in Hrest. subst rs. reflexivity. }
    rewrite Hs in Hk. cbn [or_else].
    rewrite step_stops; [exact Hk|]. rewrite Hrest. exact Hstop.
  - rewrite append_cons in Hrest.
    cbn [String.length Str.forallb] in *.
    apply andb_prop in Hall as [Hc Hall].
    destruct fuel as [|f]; [lia|].
    cbn [rep_loop]. unfold step at 1. rewrite Hrest, Hc.
    cbn [pos option_map Nat.pred].
    replace (S (pos s) =? pos s)%nat with false by (symmetry; apply Nat.eqb_neq; lia).
    rewrite (IH f (Nat.pred lo)
               {| prev := Some c; rest := w +:+ tail; pos := S (pos s); caps := caps s |}
               tail); [reflexivity|reflexivity|exact Hall|lia|lia|exact Hstop|].
    unfold moved in *. cbn [prev rest pos caps last_or] in *.
    rewrite Nat.add_succ_r. exact Hk.
Qed.

Lemma whitespace_run_compiled :
  tree Shared.WHITESPACE_RUN = Rep true 1 None (Cls false [ISpace])
  /\ icase Shared.WHITESPACE_RUN = false.
Proof. split; vm_compute; reflexivity. Qed.

Lemma cls_space (c : ascii) : cls_match false false [ISpace] c = Chr.is_space c.
Proof. unfold cls_match. cbn [List.existsb item_match xorb]. apply orb_false_r. Qed.

Lemma all_space (w : string) :
  Str.forallb Chr.is_space w = true ->
  Str.forallb (cls_match false false [ISpace]) w = true.
Proof.
  induction w as [|c w IH]; cbn [Str.forallb]; [reflexivity|].
  rewrite cls_space. intros H. apply andb_prop in H as [-> H]. apply IH. exact H.
Qed.

Lemma collapse_stops (t : string) :
  stops Chr.is_space t -> collapse true t = collapse false t.
Proof. destruct t as [|c t]; [reflexivity|]. cbn [stops collapse]. intros ->. reflexivity. Qed.

Lemma collapse_run (w t : string) :
  Str.forallb Chr.is_space w = true -> stops Chr.is_space t ->
  collapse true (w +:+ t) = collapse false t.
Proof.
  intros Hw Ht. induction w as [|c w IH]; [apply collapse_stops; exact Ht|].
  rewrite append_cons. cbn [Str.forallb collapse] in *.
  apply andb_prop in Hw as [-> Hw]. apply IH. exact Hw.
Qed.

(** Substituting one space for every run of white space. *)
Lemma scan_whitespace :
  forall (fuel : nat) (txt : string) (pv : option ascii) (acc : string),
    String.length txt < fuel ->
    List.fold_right (fun h a => h_pre h +:+ " " +:+ a)
      (snd (scan Shared.WHITESPACE_RUN fuel pv txt acc))
      (fst (scan Shared.WHITESPACE_RUN fuel pv txt acc))
    = Str.rev acc +:+ collapse false txt.
Proof.
  destruct whitespace_run_compiled as [Ht Hi].
  induction fuel as [|f IH]; intros txt pv acc Hfuel; [lia|].
  cbn [scan]. rewrite Ht, Hi. cbn [rmatch start rest].
  destruct txt as [|c t].
  - cbn [String.length]. rewrite rep_fail; [|lia|exact I].
    cbn [fst snd List.fold_right collapse]. rewrite append_nil_r. reflexivity.
  - destruct (Chr.is_space c) eqn:Ec.
    + destruct (span_spec Chr.is_space t) as (Hsplit & Hall & Hstop).
      set (w := fst (span Chr.is_space t)) in *.
      set (tail := snd (span Chr.is_space t)) in *.
      assert (Hlen : String.length t = String.length w + String.length tail).
      { rewrite Hsplit at 1. apply append_length. }
      rewrite (rep_run_unbounded _ Some (moved (start pv (String c t)) (String c w) tail)
                 (String c w) _ 1 _ tail).
      * cbn [moved pos start String.length Nat.add Nat.eqb prev rest last_or].
        cbn [String.length] in Hfuel.
        specialize (IH tail (last_or (Some c) w) "" ltac:(lia)).
        destruct (scan Shared.WHITESPACE_RUN f (last_or (Some c) w) tail "") as [hs tl].
        cbn [fst snd List.fold_right h_pre] in *. rewrite IH.
        cbn [collapse]. rewrite Ec.
        rewrite <- (collapse_run w tail Hall Hstop), <- Hsplit.
        reflexivity.
      * cbn [start rest]. rewrite append_cons, <- Hsplit. reflexivity.
      * cbn [Str.forallb]. rewrite cls_space, Ec. apply all_space. exact Hall.
      * cbn [String.length]. lia.
      * cbn [String.length]. lia.
      * destruct tail as [|d tl]; [exact I|]. cbn [stops] in *.
        rewrite cls_space. exact Hstop.
      * reflexivity.
    + rewrite rep_fail; [|lia|cbn [start rest stops]; rewrite cls_space; exact Ec].
      cbn [String.length] in Hfuel.
      rewrite (IH t (Some c) (String c acc) ltac:(lia)), rev_cons, append_assoc.
      cbn [collapse]. rewrite Ec. reflexivity.
Qed.

Lemma sub_whitespace (txt : string) :
  sub Shared.WHITESPACE_RUN " " txt = collapse false txt.
Proof.
  unfold sub.
  pose proof (scan_whitespace (S (String.length txt)) txt None "" ltac:(lia)) as H.
  destruct (scan Shared.WHITESPACE_RUN (S (String.length txt)) None txt "") as [hs tl].
  exact H.
Qed.

End SubFacts.

Section SanitizeInvariants.
Import Shared.

Lemma illegal_compiled :
  exists items,
    Re.tree MovieTool.WIN_ILLEGAL_RE = Re.Cls false items
    /\ Re.icase MovieTool.WIN_ILLEGAL_RE = false
    /\ forall c, Match.cls_match false false items c = illegal c.
Proof.
  eexists. split; [vm_compute; reflexivity|]. split; [vm_compute; reflexivity|].
  intros [[] [] [] [] [] [] [] []]; vm_compute; reflexivity.
Qed.

Lemma replace_class_ext (p q : ascii -> bool) (repl x : string) :
  (forall c, p c = q c) -> replace_class p repl x = replace_class q repl x.
Proof.
  intros H. induction x as [|c x IH]; [reflexivity|].
  cbn [replace_class]. rewrite H, IH. reflexivity.
Qed.

Lemma sub_illegal (x : string) :
  Match.sub MovieTool.WIN_ILLEGAL_RE " " x = replace_class illegal " " x.
Proof.
  destruct illegal_compiled as (items & Ht & Hi & Hc).
  rewrite (sub_class _ false items " " x Ht), Hi.
  apply replace_class_ext. exact Hc.
Qed.

Lemma squeezed_unfold (x : string) :
  squeezed x
  = Str.rstrip (Ascii.eqb ".")
      (Str.strip (collapse false (replace_class illegal " " x))).
Proof. unfold squeezed, squeeze. rewrite sub_whitespace, sub_illegal. reflexivity. Qed.

Lemma replace_illegal_legal (x : string) :
  Str.forallb legal (replace_class illegal " " x) = true.
Proof.
  induction x as [|c x IH]; [reflexivity|]. cbn [replace_class].
  destruct (illegal c) eqn:E.
  - exact IH.
  - cbn [Str.forallb]. unfold legal at 1. rewrite E, IH. reflexivity.
Qed.

Lemma collapse_legal (x : string) :
  forall b, Str.forallb legal x = true -> Str.forallb legal (collapse b x) = true.
Proof.
  induction x as [|c x IH]; intros b; [reflexivity|]. cbn [Str.forallb collapse].
  intros H. apply andb_prop in H as [Hc H].
  destruct (Chr.is_space c); [destruct b|]; cbn [Str.forallb];
    rewrite ?Hc, ?IH by exact H; reflexivity.
Qed.

Lemma squeezed_legal (x : string) : Str.forallb legal (squeezed x) = true.
Proof.
  rewrite squeezed_unfold. unfold Str.strip, Str.strip_chars.
  do 2 apply forallb_rstrip. apply forallb_lstrip, collapse_legal, replace_illegal_legal.
Qed.

Lemma squeezed_last (x : string) : last_char (squeezed x) <> Some "."%char.
Proof.
  unfold squeezed, squeeze. intros H. apply rstrip_last in H. discriminate H.
Qed.

Lemma squeezed_first (x : string) (c : ascii) :
  first_char (squeezed x) = Some c -> Chr.is_space c = false.
Proof.
  unfold squeezed, squeeze, Str.strip, Str.strip_chars. intros H.
  do 2 apply rstrip_first in H. apply lstrip_first in H. exact H.
Qed.

Lemma lower_append (a b : string) : Str.lower (a +:+ b) = Str.lower a +:+ Str.lower b.
Proof.
  unfold Str.lower. induction a as [|c a IH]; [reflexivity|].
  rewrite append_cons. cbn [Str.map]. rewrite IH. reflexivity.
Qed.

(** The appended underscore takes a name out of the reserved ones. *)
Lemma reserved_escape (nm : string) :
  is_reserved nm = true -> is_reserved (nm +:+ "_") = false.
Proof.
  unfold is_reserved. rewrite lower_append. intros H.
  apply List.existsb_exists in H as (v & Hin & Hv).
  apply String.eqb_eq in Hv. rewrite Hv. clear Hv.
  unfold RESERVED_WIN_NAMES in Hin.
  repeat (destruct Hin as [<-|Hin]; [vm_compute; reflexivity|]).
  destruct Hin.
Qed.

Lemma last_char_snoc (a : string) (c : ascii) :
  last_char (a +:+ String c "") = Some c.
Proof. apply last_char_append_cons. Qed.

Lemma first_char_append (a b : string) (c : ascii) :
  first_char a = Some c -> first_char (a +:+ b) = Some c.
Proof. destruct a; [discriminate|]. rewrite append_cons. trivial. Qed.

Lemma tools_sanitize_nonempty (x : string) :
  MovieTools.sanitize_component x <> EmptyString.
Proof.
  rewrite tools_sanitize_unfold. cbv zeta.
  destruct (squeezed x) as [|c r]; cbn [Str.is_empty].
  - vm_compute. discriminate.
  - destruct (is_reserved (String c r)); [rewrite append_cons|]; discriminate.
Qed.

Lemma tools_sanitize_not_reserved (x : string) :
  is_reserved (MovieTools.sanitize_component x) = false.
Proof.
  rewrite tools_sanitize_unfold. cbv zeta.
  destruct (is_reserved (if Str.is_empty (squeezed x) then "_" else squeezed x))
    eqn:E; [apply reserved_escape; exact E | exact E].
Qed.

Lemma tool_sanitize_not_reserved (x : string) :
  is_reserved (MovieTool.sanitize_component x) = false.
Proof.
  rewrite tool_sanitize_unfold.
  destruct (is_reserved (squeezed x)) eqn:E;
    [apply reserved_escape; exact E | exact E].
Qed.

Lemma tools_sanitize_legal (x : string) :
  Str.forallb legal (MovieTools.sanitize_component x) = true.
Proof.
  rewrite tools_sanitize_unfold. cbv zeta.
  pose proof (squeezed_legal x) as H.
  destruct (squeezed x) as [|c r]; cbn [Str.is_empty].
  - vm_compute. reflexivity.
  - destruct (is_reserved (String c r)); [|exact H].
    rewrite forallb_append, H. reflexivity.
Qed.

Lemma tool_sanitize_legal (x : string) :
  Str.forallb legal (MovieTool.sanitize_component x) = true.
Proof.
  rewrite tool_sanitize_unfold.
  pose proof (squeezed_legal x) as H.
  destruct (is_reserved (squeezed x)); [|exact H].
  rewrite forallb_append, H. reflexivity.
Qed.

Lemma tools_sanitize_last (x : string) :
  last_char (MovieTools.sanitize_component x) <> Some "."%char.
Proof.
  rewrite tools_sanitize_unfold. cbv zeta.
  pose proof (squeezed_last x) as Hl.
  destruct (squeezed x) as [|c r]; cbn [Str.is_empty].
  - vm_compute. discriminate.
  - destruct (is_reserved (String c r)); [|exact Hl].
    rewrite last_char_snoc. discriminate.
Qed.

Lemma tool_sanitize_last (x : string) :
  last_char (MovieTool.sanitize_component x) <> Some "."%char.
Proof.
  rewrite tool_sanitize_unfold.
  pose proof (squeezed_last x) as Hl.
  destruct (is_reserved (squeezed x)); [|exact Hl].
  rewrite last_char_snoc. discriminate.
Qed.

Lemma tools_sanitize_first (x : string) (c : ascii) :
  first_char (MovieTools.sanitize_component x) = Some c -> Chr.is_space c = false.
Proof.
  rewrite tools_sanitize_unfold. cbv zeta.
  pose proof (squeezed_first x) as Hf.
  destruct (squeezed x) as [|d r]; cbn [Str.is_empty].
  - vm_compute. intros [= <-]. reflexivity.
  - destruct (is_reserved (String d r)); [|apply Hf].
    rewrite append_cons. apply Hf.
Qed.

Lemma tool_sanitize_first (x : string) (c : ascii) :
  first_char (MovieTool.sanitize_component x) = Some c -> Chr.is_space c = false.
Proof.
  rewrite tool_sanitize_unfold.
  pose proof (squeezed_first x) as Hf.
  destruct (is_reserved (squeezed x)) eqn:E; [|apply Hf].
  destruct (squeezed x) as [|d r]; [discriminate E|].
  rewrite append_cons. apply Hf.
Qed.

Lemma not_dots (part : string) :
  last_char part <> Some "."%char -> part <> "." /\ part <> "..".
Proof. intros H. split; intros E; rewrite E in H; apply H; reflexivity. Qed.

End SanitizeInvariants.

(** X1.  [sanitize_component] never answers a reserved device name,
    whatever the letter case, in either script; in [movie_tools.py] it
    never answers the empty text either. *)
Theorem sanitize_component_is_a_usable_name (x : string) :
  MovieTools.sanitize_component x <> EmptyString
  /\ Shared.is_reserved (MovieTools.sanitize_component x) = false
  /\ Shared.is_reserved (MovieTool.sanitize_component x) = false.
Proof.
  split; [apply tools_sanitize_nonempty|].
  split; [apply tools_sanitize_not_reserved | apply tool_sanitize_not_reserved].
Qed.

(** X2.  The text [sanitize_component] answers holds none of the nine
    marks of [WIN_ILLEGAL_RE] (angle brackets, colon, double quote, slash,
    backslash, bar, question mark, asterisk) and no control character, in
    either script: it can be used as one path component. *)
Theorem sanitize_component_leaves_legal_characters (x : string) :
  Str.forallb legal (MovieTools.sanitize_component x) = true
  /\ Str.forallb legal (MovieTool.sanitize_component x) = true.
Proof. split; [apply tools_sanitize_legal | apply tool_sanitize_legal]. Qed.

(** X3.  The text [sanitize_component] answers never ends with a period
    and never starts with white space, in either script. *)
Theorem sanitize_component_edges (x : string) :
  last_char (MovieTools.sanitize_component x) <> Some "."%char
  /\ last_char (MovieTool.sanitize_component x) <> Some "."%char
  /\ starts_clean (MovieTools.sanitize_component x)
  /\ starts_clean (MovieTool.sanitize_component x).
Proof.
  split; [apply tools_sanitize_last|]. split; [apply tool_sanitize_last|].
  unfold starts_clean. split.
  - destruct (first_char (MovieTools.sanitize_component x)) as [c|] eqn:E; [|exact I].
    apply (tools_sanitize_first x c E).
  - destruct (first_char (MovieTool.sanitize_component x)) as [c|] eqn:E; [|exact I].
    apply (tool_sanitize_first x c E).
Qed.

Lemma path_of_map_all (f : string -> string) (P : string -> Prop) (l : list string) :
  (forall x, f x <> EmptyString -> P (f x)) ->
  Forall P (Shared.Path_of (List.map f l)).
Proof.
  intros H. unfold Shared.Path_of. induction l as [|x l IH]; [constructor|].
  cbn [List.map List.filter]. destruct (f x) as [|c r] eqn:E; cbn [Str.is_empty negb].
  - exact IH.
  - constructor; [|exact IH]. rewrite <- E. apply H. rewrite E. discriminate.
Qed.

Lemma tools_sanitize_usable (x : string) : usable (MovieTools.sanitize_component x).
Proof.
  split; [apply tools_sanitize_nonempty|].
  split; [apply tools_sanitize_not_reserved|].
  split; [apply tools_sanitize_legal | apply not_dots, tools_sanitize_last].
Qed.

Lemma tool_sanitize_usable (x : string) :
  MovieTool.sanitize_component x <> EmptyString -> usable (MovieTool.sanitize_component x).
Proof.
  intros H. split; [exact H|].
  split; [apply tool_sanitize_not_reserved|].
  split; [apply tool_sanitize_legal | apply not_dots, tool_sanitize_last].
Qed.

(** X4.  Every component of the path [render_format] answers is usable,
    whatever the format and the context, in either script: the rendered
    path has no empty, reserved, [.] or [..] component and no component
    holding a separator, so it stays below the root it is joined to. *)
Theorem render_format_components_are_usable (fmt : string) (ctx : Shared.context) :
  Forall usable (MovieTools.render_format fmt ctx)
  /\ Forall usable (MovieTool.render_format fmt ctx).
Proof.
  split.
  - apply path_of_map_all. intros x _. apply tools_sanitize_usable.
  - apply path_of_map_all. intros x. apply tool_sanitize_usable.
Qed.

Section ScoringMore.
Import Shared Scorer.
Local Open Scope Q_scope.

Lemma Zpos_of_nat (m : nat) : (0 < m)%nat -> Zpos (Pos.of_nat m) = Z.of_nat m.
Proof.
  intros H. rewrite <- positive_nat_Z, Nat2Pos.id by lia. reflexivity.
Qed.

Lemma jaccard_unfold (a b : string) :
  jaccard a b
  = let A : gset string := list_to_set (norm a) in
    let B : gset string := list_to_set (norm b) in
    if (size A =? 0)%nat || (size B =? 0)%nat then 0
    else Z.of_nat (size (A ∩ B)) # Pos.of_nat (size (A ∪ B)).
Proof. reflexivity. Qed.

Lemma jaccard_range (a b : string) : 0 <= jaccard a b <= 1.
Proof.
  rewrite jaccard_unfold. cbv zeta.
  set (A := list_to_set (norm a) : gset string).
  set (B := list_to_set (norm b) : gset string).
  destruct ((size A =? 0)%nat || (size B =? 0)%nat) eqn:E; [split; discriminate|].
  apply orb_false_elim in E as [EA EB]. apply Nat.eqb_neq in EA.
  clearbody A B.
  assert (HA : (size A <= size (A ∪ B))%nat)
    by (apply subseteq_size, union_subseteq_l).
  assert (HI : (size (A ∩ B) <= size (A ∪ B))%nat).
  { apply subseteq_size. transitivity A;
      [apply intersection_subseteq_l | apply union_subseteq_l]. }
  unfold Qle. cbn [Qnum Qden]. rewrite Zpos_of_nat by lia. lia.
Qed.

Lemma jaccard_sym (a b : string) : jaccard a b = jaccard b a.
Proof.
  rewrite !jaccard_unfold. cbv zeta.
  set (A := list_to_set (norm a) : gset string).
  set (B := list_to_set (norm b) : gset string).
  rewrite (orb_comm (size A =? 0)%nat).
  rewrite (comm_L (∩) A B), (comm_L (∪) A B). reflexivity.
Qed.

Lemma jaccard_self (a : string) :
  jaccard a a == if Nat.eqb (List.length (norm a)) 0 then 0 else 1.
Proof.
  rewrite jaccard_unfold. cbv zeta.
  set (A := list_to_set (norm a) : gset string).
  assert (E : (size A =? 0)%nat = Nat.eqb (List.length (norm a)) 0).
  { subst A. destruct (norm a) as [|t ts]; [reflexivity|].
    cbn [List.length Nat.eqb list_to_set]. apply Nat.eqb_neq.
    apply size_non_empty_iff. intros H.
    apply (not_elem_of_empty (C := gset string) t). rewrite <- H.
    apply elem_of_union_l, elem_of_singleton. reflexivity. }
  clearbody A.
  rewrite orb_diag, (idemp_L (∩) A), (idemp_L (∪) A).
  destruct (Nat.eqb (List.length (norm a)) 0) eqn:E0; rewrite E; [reflexivity|].
  apply Nat.eqb_neq in E.
  unfold Qeq. cbn [Qnum Qden]. rewrite Zpos_of_nat by lia. lia.
Qed.

Lemma lower_idem (a : string) : Str.lower (Str.lower a) = Str.lower a.
Proof.
  unfold Str.lower. induction a as [|c a IH]; [reflexivity|].
  cbn [Str.map]. rewrite IH. f_equal.
  destruct c as [[] [] [] [] [] [] [] []]; vm_compute; reflexivity.
Qed.

Lemma norm_lower (a : string) : norm (Str.lower a) = norm a.
Proof. unfold norm. rewrite lower_idem. reflexivity. Qed.

Lemma jaccard_lower (a b : string) : jaccard (Str.lower a) b = jaccard a b.
Proof. rewrite !jaccard_unfold, norm_lower. reflexivity. Qed.


Lemma year_score_none (one two : Q) (want_year year : option Z) :
  want_year = None \/ want_year = Some 0%Z -> year_score one two want_year year = 0.
Proof.
  unfold year_score, both_years.
  intros [->| ->]; [reflexivity|]. destruct year; reflexivity.
Qed.


Lemma head_insert_desc (x : Q * candidate) (l : list (Q * candidate)) :
  List.head (insert_desc x l)
  = match List.head l with
    | None => Some x
    | Some h => if Qle_bool (fst h) (fst x) then Some x else Some h
    end.
Proof.
  destruct l as [|h tl]; [reflexivity|]. cbn [insert_desc List.head].
  destruct (Qle_bool (fst h) (fst x)); reflexivity.
Qed.

Lemma head_sort_desc (l : list (Q * candidate)) (m : Q * candidate) :
  List.head (sort_desc l) = Some m -> first_best fst l m.
Proof.
  revert m. induction l as [|x tl IH]; intros m; [discriminate|].
  unfold sort_desc. cbn [List.fold_right]. fold (sort_desc tl).
  rewrite head_insert_desc.
  destruct (List.head (sort_desc tl)) as [h|] eqn:Eh.
  - destruct (IH h eq_refl) as (pre & post & Htl & Hpre & Hpost).
    destruct (Qle_bool (fst h) (fst x)) eqn:E; intros [= <-].
    + apply Qle_bool_iff in E.
      exists [], tl. split; [reflexivity|]. split; [constructor|].
      rewrite Htl. apply Forall_app. split.
      * eapply List.Forall_impl; [|exact Hpre]. cbn beta. intros d Hd.
        apply Qlt_le_weak. eapply Qlt_le_trans; [exact Hd | exact E].
      * constructor; [exact E|].
        eapply List.Forall_impl; [|exact Hpost]. cbn beta. intros d Hd.
        eapply Qle_trans; [exact Hd | exact E].
    + exists (x :: pre), post. split; [rewrite Htl; reflexivity|].
      split; [|exact Hpost]. constructor; [|exact Hpre].
      apply Qnot_le_lt. intros Hle. apply Qle_bool_iff in Hle. congruence.
  - intros [= <-]. destruct tl as [|y tl'].
    + exists [], []. repeat split; constructor.
    + exfalso. destruct (sort_desc (y :: tl')) eqn:Es; [|discriminate Eh].
      exact (sort_desc_nonempty _ _ Es).
Qed.

Lemma first_best_map {A B : Type} (g : A -> B) (f : B -> Q) (l : list A) (m : B) :
  first_best f (List.map g l) m ->
  exists c, g c = m /\ first_best (fun d => f (g d)) l c.
Proof.
  intros (pre & post & Hl & Hpre & Hpost).
  apply List.map_eq_app in Hl as (pre' & rest' & -> & <- & Hrest).
  apply List.map_eq_cons in Hrest as (c & post' & -> & <- & <-).
  exists c. split; [reflexivity|]. exists pre', post'.
  split; [reflexivity|].
  rewrite List.Forall_forall in Hpre, Hpost.
  split; apply List.Forall_forall; intros d Hd;
    [apply Hpre | apply Hpost]; apply List.in_map; exact Hd.
Qed.

(** What [select] answers, in full: the first candidate of greatest
    score when that score clears the gate, nothing when no score does. *)
Lemma select_first_best (f : candidate -> option Z -> Q) (gate : Q)
    (cands : list candidate) :
  match select f gate cands with
  | Returns (Some c) =>
      first_best (fun d => f d (year_or_none d)) cands c
      /\ gate <= f c (year_or_none c)
  | Returns None => Forall (fun d => f d (year_or_none d) < gate) cands
  | Raises => True
  end.
Proof.
  unfold select. destruct cands as [|c0 cs]; [constructor|].
  destruct (score_all f (c0 :: cs)) as [scored|] eqn:Es; [|exact I].
  apply score_all_returns in Es.
  destruct (sort_desc scored) as [|[top_score top] rest] eqn:Et.
  - exfalso. subst scored. cbn [List.map] in Et. exact (sort_desc_nonempty _ _ Et).
  - assert (Hb : first_best fst scored (top_score, top)).
    { apply head_sort_desc. rewrite Et. reflexivity. }
    rewrite Es in Hb. apply first_best_map in Hb as (c & Hc & Hb).
    injection Hc as Hs ->. cbn [fst] in Hb.
    destruct (Qle_bool gate top_score) eqn:Eg.
    + split; [exact Hb|]. rewrite Hs. apply Qle_bool_iff. exact Eg.
    + assert (Hlt : top_score < gate).
      { apply Qnot_le_lt. intros Hle. apply Qle_bool_iff in Hle. congruence. }
      destruct Hb as (pre & post & -> & Hpre & Hpost).
      apply Forall_app. split; [|constructor].
      * eapply List.Forall_impl; [|exact Hpre]. cbn beta. intros d Hd.
        rewrite Hs in Hd. eapply Qlt_trans; [exact Hd | exact Hlt].
      * rewrite Hs. exact Hlt.
      * eapply List.Forall_impl; [|exact Hpost]. cbn beta. intros d Hd.
        rewrite Hs in Hd. eapply Qle_lt_trans; [exact Hd | exact Hlt].
Qed.

Lemma score_all_bad (f : candidate -> option Z -> Q) (cands : list candidate) :
  List.Exists bad_date cands -> score_all f cands = Raises.
Proof.
  induction 1 as [c cs Hc|c cs _ IH]; cbn [score_all].
  - unfold bad_date in Hc. rewrite Hc. reflexivity.
  - rewrite IH. destruct (year_of (text_or_empty (date c))); reflexivity.
Qed.

Lemma select_raises_iff (f : candidate -> option Z -> Q) (gate : Q)
    (cands : list candidate) :
  select f gate cands = Raises <-> List.Exists bad_date cands.
Proof.
  split.
  - intros H. pose proof (select_spec f gate cands) as Hs. rewrite H in Hs. exact Hs.
  - intros H. unfold select. destruct cands as [|c0 cs]; [inversion H|].
    rewrite (score_all_bad f _ H). reflexivity.
Qed.

End ScoringMore.

Section Relatedness.
Import Shared Scorer.
Local Open Scope Q_scope.



End Relatedness.

(** X5.  The similarity [jaccard] of two titles lies between 0 and 1,
    does not depend on the order of the titles nor on their letter case;
    a title compared with itself scores 1, or 0 when it holds no word at
    all. *)
Theorem jaccard_is_a_symmetric_ratio (a b : string) :
  (0 <= Scorer.jaccard a b <= 1)%Q
  /\ Scorer.jaccard a b = Scorer.jaccard b a
  /\ Scorer.jaccard (Str.lower a) b = Scorer.jaccard a b
  /\ (Scorer.jaccard a a == if Nat.eqb (List.length (Scorer.norm a)) 0 then 0 else 1)%Q.
Proof.
  split; [apply jaccard_range|]. split; [apply jaccard_sym|].
  split; [apply jaccard_lower | apply jaccard_self].
Qed.

(** X6.  When the scorers answer a candidate, it is the first of the list
    with the greatest composite score, as the interpreter computes the
    scores in binary64: every earlier candidate scores strictly less,
    every later one at most as much.  When they answer nothing for a list
    whose dates convert, every score is below the gate. *)
Theorem scorers_pick_the_first_best
    (cands : list Scorer.candidate) (want_title : string) (want_year : option Z) :
  match Scorer64.choose_best_match cands want_title want_year with
  | Shared.Returns (Some c) =>
      first_best (fun d => Scorer64.movie_score d want_title want_year) cands c
  | Shared.Returns None =>
      Forall (fun d => (Scorer64.movie_score d want_title want_year
                        < Scorer64.movie_gate want_title)%Q) cands
  | Shared.Raises => True
  end
  /\ match Scorer64.choose_best_tv cands want_title want_year with
     | Shared.Returns (Some c) =>
         first_best (fun d => Scorer64.tv_score d want_title want_year) cands c
     | Shared.Returns None =>
         Forall (fun d => (Scorer64.tv_score d want_title want_year
                           < Scorer64.tv_gate)%Q) cands
     | Shared.Raises => True
     end.
Proof.
  split.
  - pose proof (select_first_best
                  (fun c yr => Scorer64.movie_score_at c want_title want_year yr)
                  (Scorer64.movie_gate want_title) cands) as H.
    unfold Scorer64.choose_best_match.
    destruct (Scorer.select _ _ cands) as [[c|]|]; [exact (proj1 H) | exact H | exact I].
  - pose proof (select_first_best
                  (fun c yr => Scorer64.tv_score_at c want_title want_year yr)
                  Scorer64.tv_gate cands) as H.
    unfold Scorer64.choose_best_tv.
    destruct (Scorer.select _ _ cands) as [[c|]|]; [exact (proj1 H) | exact H | exact I].
Qed.

(** X7.  The scorers raise exactly when some candidate of the list has a
    date that does not convert, wherever it stands in the list and
    whatever it would have scored. *)
Theorem scorers_raise_on_any_bad_date
    (cands : list Scorer.candidate) (want_title : string) (want_year : option Z) :
  (Scorer.choose_best_match cands want_title want_year = Shared.Raises
   <-> List.Exists Scorer.bad_date cands)
  /\ (Scorer.choose_best_tv cands want_title want_year = Shared.Raises
      <-> List.Exists Scorer.bad_date cands).
Proof. split; apply select_raises_iff. Qed.

(** X7 on a list whose second candidate carries a date with a
    superscript digit. *)
Lemma scorers_raise_on_a_late_bad_date :
  let entry := fun nm d =>
    {| Scorer.id := 1; Scorer.name := Some nm; Scorer.original_name := None;
       Scorer.date := Some d; Scorer.popularity := None;
       Scorer.poster_path := None |} in
  Scorer.choose_best_match
    [entry "Alien" "1979-05-25";
     entry "Other" ("19" +:+ String (ascii_of_nat 178) "9-01-01")]
    "Alien" (Some 1979%Z) = Shared.Raises.
Proof.
  apply (proj1 (scorers_raise_on_any_bad_date _ "Alien" (Some 1979%Z))).
  apply List.Exists_cons_tl, List.Exists_cons_hd. vm_compute. reflexivity.
Defined.


Section TrailersMore.
Import Shared Trailer.
Local Open Scope Q_scope.




(** X9.  [best_trailer_url] looks at one entry only, the first of
    greatest score among all entries, playable or not: it answers the
    watch URL of that entry when it is playable, else its [url] field when
    that is not empty, else nothing, whatever the other entries hold. *)
Theorem best_trailer_url_reads_the_top_entry_only (videos : list Trailer.video) :
  match videos with
  | [] => Trailer.best_trailer_url videos = None
  | _ =>
      exists v,
        first_best Trailer.url_score videos v
        /\ Trailer.best_trailer_url videos
           = if Trailer.playable v then Some (watch_url v)
             else if Trailer.truthy (Trailer.url v) then Trailer.url v else None
  end.
Proof.
  destruct videos as [|v0 vs]; [reflexivity|].
  exists (max_by url_score v0 vs). split; [apply max_by_first_best | reflexivity].
Qed.

End TrailersMore.

(** X10.  [pick_best_trailer] answers nothing exactly when no entry of the
    list is playable (on the supported platform, with a key); otherwise
    it answers the watch URL of the first playable entry of greatest
    score, the score being the one the interpreter computes in binary64;
    unplayable entries take no part in the comparison. *)
Theorem pick_best_trailer_answers_the_best_playable
    (hash : string -> Z) (videos : list Trailer.video) (prefer_langs : list string) :
  match Trailer64.pick_best_trailer hash videos prefer_langs with
  | Some u =>
      exists v,
        first_best (Trailer64.score hash (Trailer.prefer_norm prefer_langs))
          (List.filter Trailer.playable videos) v
        /\ u = watch_url v
  | None => List.Forall (fun v => Trailer.playable v = false) videos
  end.
Proof.
  apply (pick_by_spec (Trailer64.score hash (Trailer.prefer_norm prefer_langs))).
Qed.



Section DiskFacts.
Import Shared Path FS Mutator.

Lemma in_iterdir (f : fs) (d q : path) :
  List.In q (iterdir f d) <-> q ∈ entries f /\ child_of d q.
Proof.
  unfold iterdir, child_of. rewrite List.filter_In, <- list_elem_of_In, elem_of_elements.
  rewrite andb_true_iff, Nat.eqb_eq. reflexivity.
Qed.

Lemma iterdir_nil (f : fs) (d : path) :
  iterdir f d = [] <-> forall q, q ∈ entries f -> ~ child_of d q.
Proof.
  split.
  - intros E q Hq Hc. assert (H : List.In q (iterdir f d)) by (apply in_iterdir; tauto).
    rewrite E in H. destruct H.
  - intros H. destruct (iterdir f d) as [|q l] eqn:E; [reflexivity|]. exfalso.
    assert (Hq : List.In q (iterdir f d)) by (rewrite E; left; reflexivity).
    apply in_iterdir in Hq as [Hq Hc]. exact (H q Hq Hc).
Qed.

Lemma in_insert_deeper (d x : path) (l : list path) :
  List.In x (insert_deeper d l) -> x = d \/ List.In x l.
Proof.
  induction l as [|h tl IH]; cbn [insert_deeper].
  - intros [<-|[]]. left. reflexivity.
  - destruct (List.length h <? List.length d)%nat.
    + intros [<-|H]; [left; reflexivity | right; exact H].
    + intros [<-|H]; [right; left; reflexivity|].
      destruct (IH H) as [->|H']; [left; reflexivity | right; right; exact H'].
Qed.

Lemma in_sorted_deeper (x : path) (l : list path) :
  List.In x (List.fold_right insert_deeper [] l) -> List.In x l.
Proof.
  induction l as [|d l IH]; cbn [List.fold_right]; [trivial|].
  intros H. apply in_insert_deeper in H as [->|H]; [left; reflexivity|].
  right. apply IH. exact H.
Qed.

Lemma in_walk_bottom_up (f : fs) (root d : path) :
  List.In d (walk_bottom_up f root) -> is_prefix root d = true.
Proof.
  unfold walk_bottom_up. intros H. apply in_sorted_deeper in H.
  apply List.filter_In in H as [_ H]. exact H.
Qed.

Lemma entries_mono (f f' : fs) :
  dirs f' ⊆ dirs f -> files f' ⊆ files f -> entries f' ⊆ entries f.
Proof.
  intros Hd Hf q Hq. unfold entries in *.
  apply elem_of_union in Hq as [Hq|Hq]; apply elem_of_union;
    [left; apply Hd | right; apply Hf]; exact Hq.
Qed.

Lemma subseteq_same (X : gset path) : X ⊆ X.
Proof. intros x Hx. exact Hx. Qed.

Lemma subseteq_trans (X Y Z : gset path) : X ⊆ Y -> Y ⊆ Z -> X ⊆ Z.
Proof. intros H1 H2 x Hx. apply H2, H1, Hx. Qed.

Lemma subseteq_union (X Y : gset path) : X ⊆ X ∪ Y.
Proof. intros x Hx. apply elem_of_union. left. exact Hx. Qed.

Lemma subseteq_added (X Y Z J : gset path) : X ⊆ Y ∪ J -> Y ⊆ Z ∪ J -> X ⊆ Z ∪ J.
Proof.
  intros H1 H2 x Hx. apply H1 in Hx. apply elem_of_union in Hx as [Hx|Hx].
  - apply H2. exact Hx.
  - apply elem_of_union. right. exact Hx.
Qed.

Lemma child_of_snoc (d q : path) : child_of d q -> exists x, q = d ++ [x].
Proof.
  unfold child_of. revert q.
  induction d as [|a d IH]; intros [|b q] [Hp Hl]; cbn in Hp, Hl; try discriminate.
  - destruct q; [|discriminate]. exists b. reflexivity.
  - apply andb_true_iff in Hp as [Hab Hp]. apply String.eqb_eq in Hab. subst b.
    destruct (IH q) as [x ->]; [split; [exact Hp | congruence]|].
    exists x. reflexivity.
Qed.

Lemma prefixes_closed (p d : path) (x : string) :
  List.In (d ++ [x]) (prefixes p) -> d <> [] -> List.In d (prefixes p).
Proof.
  revert d. induction p as [|a tl IH]; intros d; cbn [prefixes]; [intros []|].
  intros [E|H] Hd.
  - destruct d as [|b [|c d]]; [contradiction | discriminate E | discriminate E].
  - apply List.in_map_iff in H as (y & E & Hy).
    destruct d as [|b d]; [contradiction|].
    cbn [List.app] in E. injection E as -> ->.
    destruct d as [|c d]; [left; reflexivity|].
    right. apply List.in_map. apply IH; [exact Hy | discriminate].
Qed.

Lemma journaled_refl (j : path) (f : fs) : journaled j f f.
Proof.
  repeat split; try apply subseteq_same; apply subseteq_union.
Qed.

Lemma journaled_trans (j : path) (f g h : fs) :
  journaled j f g -> journaled j g h -> journaled j f h.
Proof.
  intros (A1 & A2 & A3 & A4) (B1 & B2 & B3 & B4). repeat split.
  - exact (subseteq_trans _ _ _ A1 B1).
  - exact (subseteq_added _ _ _ _ B2 A2).
  - exact (subseteq_trans _ _ _ A3 B3).
  - exact (subseteq_added _ _ _ _ B4 A4).
Qed.

Lemma log_jsonl_journal (w : world) : journal (log_jsonl w) = journal w.
Proof.
  unfold log_jsonl. destruct (mkdir_parents _ _); [|reflexivity].
  destruct (write_file _ _); reflexivity.
Qed.

Lemma log_jsonl_journaled (w : world) :
  journaled (journal w) (disk w) (disk (log_jsonl w)).
Proof.
  unfold log_jsonl.
  destruct (mkdir_parents (disk w) (parent (journal w))) as [f|] eqn:Em;
    [|apply journaled_refl].
  unfold mkdir_parents in Em.
  destruct (List.existsb _ _); [discriminate|]. injection Em as <-.
  assert (H : journaled (journal w) (disk w)
                {| dirs := dirs (disk w) ∪ list_to_set (prefixes (parent (journal w)));
                   files := files (disk w) |}).
  { repeat split; cbn [dirs files];
      try apply subseteq_same; apply subseteq_union. }
  destruct (write_file _ (journal w)) as [f'|] eqn:Ew; [|exact H].
  unfold write_file in Ew. destruct (_ && _); [|discriminate]. injection Ew as <-.
  cbn [on_disk disk dirs files].
  repeat split; cbn [dirs files];
    try apply subseteq_same; apply subseteq_union.
Qed.

(** What [log_jsonl] adds stands inside a directory that is there. *)
Lemma log_jsonl_closed (w : world) (d q : path) :
  q ∈ entries (disk (log_jsonl w)) -> q ∉ entries (disk w) ->
  child_of d q -> d <> [] -> d ∈ dirs (disk (log_jsonl w)).
Proof.
  intros Hq Hn Hc Hd. apply child_of_snoc in Hc as [x ->].
  revert Hq. unfold log_jsonl.
  destruct (mkdir_parents (disk w) (parent (journal w))) as [f|] eqn:Em;
    [|intros Hq; contradiction].
  unfold mkdir_parents in Em.
  destruct (List.existsb _ _); [discriminate|]. injection Em as <-.
  set (f := {| dirs := dirs (disk w) ∪ list_to_set (prefixes (parent (journal w)));
               files := files (disk w) |}).
  assert (Hnew : d ++ [x] ∈ dirs f -> d ∈ dirs f).
  { cbn [f dirs]. intros H. apply elem_of_union in H as [H|H].
    - exfalso. apply Hn. apply elem_of_union. left. exact H.
    - apply elem_of_union. right. apply elem_of_list_to_set, list_elem_of_In.
      apply elem_of_list_to_set, list_elem_of_In in H.
      apply (prefixes_closed _ _ x); assumption. }
  destruct (write_file f (journal w)) as [f'|] eqn:Ew.
  - unfold write_file in Ew.
    destruct (is_dir f (parent (journal w))) eqn:Ep; cbn [andb] in Ew; [|discriminate].
    destruct (negb (is_dir f (journal w))); [|discriminate]. injection Ew as <-.
    cbn [on_disk disk dirs]. unfold entries. cbn [dirs files].
    intros Hq. apply elem_of_union in Hq as [Hq|Hq]; [apply Hnew; exact Hq|].
    apply elem_of_union in Hq as [Hq|Hq].
    + exfalso. apply Hn. apply elem_of_union. right. exact Hq.
    + apply elem_of_singleton in Hq. apply bool_decide_eq_true in Ep.
      rewrite <- Hq in Ep. unfold parent in Ep.
      destruct (is_anchor (d ++ [x])) eqn:Ea.
      * destruct d as [|a [|b d]]; [contradiction | discriminate Ea | discriminate Ea].
      * rewrite List.removelast_last in Ep. exact Ep.
  - cbn [on_disk disk]. unfold entries. intros Hq.
    apply elem_of_union in Hq as [Hq|Hq]; [apply Hnew; exact Hq|].
    exfalso. apply Hn. apply elem_of_union. right. exact Hq.
Qed.


Lemma fold_journaled {A : Type} (step : world -> A -> world) (j : path) (l : list A) :
  (forall w a, journal w = j ->
     journaled j (disk w) (disk (step w a)) /\ journal (step w a) = j) ->
  forall w, journal w = j ->
    journaled j (disk w) (disk (List.fold_left step l w))
    /\ journal (List.fold_left step l w) = j.
Proof.
  intros Hstep. induction l as [|a l IH]; intros w Hw; cbn [List.fold_left].
  - split; [apply journaled_refl | exact Hw].
  - destruct (Hstep w a Hw) as [H1 H2]. destruct (IH _ H2) as [H3 H4].
    split; [exact (journaled_trans _ _ _ _ H1 H3) | exact H4].
Qed.

Lemma pruned_refl (root j : path) (f : fs) : pruned root j f f.
Proof.
  split; [apply subseteq_same|]. split; [apply subseteq_union|].
  split; [apply subseteq_union|]. intros d Hd Hn. contradiction.
Qed.

Lemma is_prefix_nil (root : path) : is_prefix root [] = true -> root = [].
Proof. destruct root; [reflexivity | discriminate]. Qed.

Lemma pruned_log_jsonl (root : path) (f0 : fs) (w : world) :
  pruned root (journal w) f0 (disk w) ->
  pruned root (journal w) f0 (disk (log_jsonl w)).
Proof.
  intros (Hf1 & Hf2 & Hd & Hgone).
  destruct (log_jsonl_journaled w) as (A1 & A2 & A3 & A4).
  split; [exact (subseteq_trans _ _ _ Hf1 A3)|].
  split; [exact (subseteq_added _ _ _ _ A4 Hf2)|].
  split; [exact (subseteq_added _ _ _ _ A2 Hd)|].
  intros d Hd0 Hn.
  assert (Hn' : d ∉ dirs (disk w)) by (intros H; apply Hn, A1, H).
  destruct (Hgone d Hd0 Hn') as (H1 & H2 & H3).
  split; [exact H1|]. split; [exact H2|].
  intros q Hq Hc.
  destruct (decide (q ∈ entries (disk w))) as [Hin|Hout]; [exact (H3 q Hin Hc)|].
  apply Hn. apply (log_jsonl_closed w d q Hq Hout Hc).
  intros ->. apply H2. symmetry. apply is_prefix_nil. exact H1.
Qed.

Lemma prune_one_journal (root : path) (dry_run : bool) (w : world) (d : path) :
  journal (prune_one root dry_run w d) = journal w.
Proof.
  unfold prune_one.
  destruct (bool_decide (d = root)); [reflexivity|].
  destruct (negb (is_dir (disk w) d)); [reflexivity|].
  destruct (iterdir (disk w) d); [|reflexivity].
  destruct dry_run; [rewrite log_jsonl_journal; reflexivity|].
  destruct (rmdir _ d); cbn [on_disk journal]; rewrite log_jsonl_journal; reflexivity.
Qed.

Lemma prune_one_pruned (root : path) (dry_run : bool) (f0 : fs) (w : world) (d : path) :
  is_prefix root d = true ->
  pruned root (journal w) f0 (disk w) ->
  pruned root (journal w) f0 (disk (prune_one root dry_run w d)).
Proof.
  intros Hpre Hp. unfold prune_one.
  destruct (bool_decide (d = root)) eqn:Eroot; [exact Hp|].
  apply bool_decide_eq_false in Eroot.
  destruct (negb (is_dir (disk w) d)); [exact Hp|].
  destruct (iterdir (disk w) d) as [|q l]; [|exact Hp].
  assert (Hp1 : pruned root (journal w) f0
                  (disk (log_jsonl (say w "prune" [to_string d])))).
  { apply (pruned_log_jsonl root f0 (say w "prune" [to_string d])). exact Hp. }
  set (w1 := log_jsonl (say w "prune" [to_string d])) in *.
  destruct dry_run; [exact Hp1|].
  unfold rmdir.
  destruct (is_dir (disk w1) d); cbn [andb]; [|exact Hp1].
  destruct (iterdir (disk w1) d) as [|q l] eqn:Eit; [|exact Hp1].
  cbn [on_disk disk].
  destruct Hp1 as (Hf1 & Hf2 & Hdirs & Hgone).
  assert (Hsub : dirs (disk w1) ∖ {[d]} ⊆ dirs (disk w1)).
  { intros x Hx. apply elem_of_difference in Hx as [Hx _]. exact Hx. }
  assert (Hent : entries {| dirs := dirs (disk w1) ∖ {[d]}; files := files (disk w1) |}
                 ⊆ entries (disk w1)).
  { apply entries_mono; [exact Hsub | apply subseteq_same]. }
  split; [exact Hf1|]. split; [exact Hf2|].
  split; [exact (subseteq_trans _ _ _ Hsub Hdirs)|].
  cbn [dirs]. intros x Hx Hn.
  destruct (decide (x ∈ dirs (disk w1))) as [Hin|Hout].
  - assert (x = d).
    { destruct (decide (x = d)) as [E|E]; [exact E|]. exfalso. apply Hn.
      apply elem_of_difference. split; [exact Hin|].
      intros Hs. apply elem_of_singleton in Hs. contradiction. }
    subst x. split; [exact Hpre|]. split; [exact Eroot|].
    intros q Hq. apply (proj1 (iterdir_nil (disk w1) d) Eit). apply Hent. exact Hq.
  - destruct (Hgone x Hx Hout) as (H1 & H2 & H3).
    split; [exact H1|]. split; [exact H2|].
    intros q Hq. apply H3. apply Hent. exact Hq.
Qed.

Lemma prune_fold_pruned (root : path) (dry_run : bool) (f0 : fs) (j : path)
    (l : list path) :
  (forall d, List.In d l -> is_prefix root d = true) ->
  forall w, journal w = j -> pruned root j f0 (disk w) ->
            pruned root j f0 (disk (List.fold_left (prune_one root dry_run) l w)).
Proof.
  induction l as [|d l IH]; intros Hl w Hj Hw; cbn [List.fold_left]; [exact Hw|].
  apply IH; [intros x Hx; apply Hl; right; exact Hx | |].
  - rewrite prune_one_journal. exact Hj.
  - subst j. apply prune_one_pruned; [apply Hl; left; reflexivity | exact Hw].
Qed.

Lemma dry_prune_journaled (root : path) (w : world) :
  journaled (journal w) (disk w) (disk (prune_empty_dirs root true w)).
Proof.
  unfold prune_empty_dirs.
  apply (fold_journaled (prune_one root true) (journal w)); [|reflexivity].
  intros w0 d Hj. split; [|rewrite prune_one_journal; exact Hj].
  unfold prune_one.
  destruct (bool_decide (d = root)); [apply journaled_refl|].
  destruct (negb (is_dir (disk w0) d)); [apply journaled_refl|].
  destruct (iterdir (disk w0) d); [|apply journaled_refl].
  rewrite <- Hj. apply (log_jsonl_journaled (say w0 "prune" [to_string d])).
Qed.



Lemma clean_one_journal (dry_run : bool) (w : world) (c : path) :
  journal (clean_one dry_run w c) = journal w.
Proof.
  unfold clean_one.
  destruct (is_dir (disk w) c).
  - destruct (found SAMPLE_DIR (name c)); [|reflexivity].
    destruct dry_run; cbn [on_disk journal]; rewrite log_jsonl_journal; reflexivity.
  - destruct (List.existsb _ CLUTTER_FILES); [|reflexivity].
    destruct dry_run; [rewrite log_jsonl_journal; reflexivity|].
    destruct (unlink _ c); cbn [on_disk say journal]; rewrite log_jsonl_journal;
      reflexivity.
Qed.








Lemma dry_clean_journaled (folder : path) (w : world) :
  journaled (journal w) (disk w) (disk (clean_clutter folder true w))
  /\ journal (clean_clutter folder true w) = journal w.
Proof.
  unfold clean_clutter.
  destruct (negb (exists_ (disk w) folder) || negb (is_dir (disk w) folder));
    [split; [apply journaled_refl | reflexivity]|].
  apply (fold_journaled (clean_one true) (journal w)); [|reflexivity].
  intros w0 c Hj. split; [|rewrite clean_one_journal; exact Hj].
  unfold clean_one.
  destruct (is_dir (disk w0) c).
  - destruct (found SAMPLE_DIR (name c)); [|apply journaled_refl].
    rewrite <- Hj. apply (log_jsonl_journaled (say w0 "remove dir" [name c])).
  - destruct (List.existsb _ CLUTTER_FILES); [|apply journaled_refl].
    rewrite <- Hj. apply (log_jsonl_journaled (say w0 "delete" [name c])).
Qed.

End DiskFacts.

(** X12.  [prune_empty_dirs] keeps every file, and creates nothing but the
    journal and the directories above it; a directory it removes lies
    below the root it was given, is not that root, and has no entry
    directly inside it afterwards.  In a dry run it removes nothing: the
    journal and the directories above it are all that may change. *)
Theorem prune_empty_dirs_removes_only_empty_directories
    (root : Path.path) (dry_run : bool) (w : Mutator.world) :
  pruned root (Mutator.journal w) (Mutator.disk w)
    (Mutator.disk (Mutator.prune_empty_dirs root dry_run w))
  /\ journaled (Mutator.journal w) (Mutator.disk w)
       (Mutator.disk (Mutator.prune_empty_dirs root true w)).
Proof.
  split; [|apply dry_prune_journaled].
  unfold Mutator.prune_empty_dirs.
  apply prune_fold_pruned; [|reflexivity|apply pruned_refl].
  intros d Hd. apply in_walk_bottom_up in Hd. exact Hd.
Qed.


Section DryRunMore.
Import Shared Path FS Client Mutator Pipeline.

Lemma grown_refl (j : path) (f : fs) : grown j f f.
Proof.
  split; [apply subseteq_same|]. split; [apply subseteq_union | apply subseteq_same].
Qed.

Lemma grown_trans (j : path) (f g h : fs) : grown j f g -> grown j g h -> grown j f h.
Proof.
  intros (A1 & A2 & A3) (B1 & B2 & B3). split; [exact (subseteq_trans _ _ _ A1 B1)|].
  split; [exact (subseteq_added _ _ _ _ B2 A2) | exact (subseteq_trans _ _ _ A3 B3)].
Qed.

Lemma journaled_grown (j : path) (f g : fs) : journaled j f g -> grown j f g.
Proof. intros (A1 & _ & A3 & A4). split; [exact A3|]. split; [exact A4 | exact A1]. Qed.

Lemma mkdir_parents_grown (j : path) (f f' : fs) (p : path) :
  mkdir_parents f p = Returns f' -> grown j f f'.
Proof.
  unfold mkdir_parents. destruct (List.existsb (is_file f) (prefixes p)); [discriminate|].
  intros [= <-]. split; [apply subseteq_same|].
  split; [apply subseteq_union | cbn [dirs]; apply subseteq_union].
Qed.

Lemma dry_process_video_journaled (api : tmdb) (opts : options) (file_path : path)
    (w w' : world) (r : option (path * path * Scorer.candidate)) :
  dry_run opts = true ->
  process_video api opts file_path w = Returns (w', r) ->
  journaled (journal w) (disk w) (disk w') /\ journal w' = journal w.
Proof.
  intros Hdry. unfold process_video.
  destruct (Names.split_stem_year (stem file_path)) as [title_guess year_guess].
  destruct (find_movie api title_guess year_guess) as [[movie|]|]; [| |discriminate].
  - destruct (destination opts file_path title_guess year_guess movie _) as [dest|];
      [|discriminate].
    destruct (relative_to dest (parent file_path)) as [shown|]; [|discriminate].
    rewrite Hdry. unfold rename_step. intros [= <- _].
    split; [|rewrite log_jsonl_journal; reflexivity].
    apply (log_jsonl_journaled
             (say (say w "guess" [name file_path; title_guess])
                "rename" [name file_path; to_string shown])).
  - intros [= <- _]. split; [apply journaled_refl | reflexivity].
Qed.

Lemma dry_download_poster_grown (api : tmdb) (movie : Scorer.candidate)
    (out_dir : path) (w w' : world) :
  download_poster api movie out_dir true w = Returns w' ->
  grown (journal w) (disk w) (disk w') /\ journal w' = journal w.
Proof.
  unfold download_poster.
  destruct (Scorer.poster_path movie) as [[|c pp]|];
    try (intros [= <-]; split; [apply grown_refl | reflexivity]).
  destruct (build_poster_url api (String c pp)) as [[[|c' u]|]|];
    try (intros [= <-]; split; [apply grown_refl | reflexivity]);
    try discriminate.
  destruct (mkdir_parents (disk w) out_dir) as [f|] eqn:Em; [|discriminate].
  intros [= <-]. cbn [say on_disk disk journal].
  split; [apply (mkdir_parents_grown _ _ _ _ Em) | reflexivity].
Qed.

Lemma dry_trailer_step_grown (fetch : string -> path -> fs -> outcome fs)
    (api : tmdb) (opts : options) (mv : Scorer.candidate) (dest_dir : path) (w : world) :
  dry_run opts = true ->
  grown (journal w) (disk w) (disk (trailer_step fetch api opts mv dest_dir w))
  /\ journal (trailer_step fetch api opts mv dest_dir w) = journal w.
Proof.
  intros Hdry. unfold trailer_step.
  destruct (get_movie_trailer_url api (Scorer.id mv)) as [[|c u]|];
    try (split; [apply grown_refl | reflexivity]).
  unfold download_trailer_with_ytdlp. rewrite Hdry.
  destruct (mkdir_parents (disk w) dest_dir) as [f|] eqn:Em;
    [|split; [apply grown_refl | reflexivity]].
  set (w1 := say (on_disk w f) "trailer" [String c u; to_string dest_dir]).
  split; [|rewrite log_jsonl_journal; reflexivity].
  apply (grown_trans _ _ (disk w1)).
  - apply (mkdir_parents_grown _ _ _ _ Em).
  - apply journaled_grown. apply (log_jsonl_journaled w1).
Qed.

Lemma dry_handle_file (fetch : string -> path -> fs -> outcome fs)
    (api : tmdb) (opts : options) (root : path) (w w' : world) (tp : list path) :
  dry_run opts = true ->
  handle_file fetch api opts root w = Returns (w', tp) ->
  grown (journal w) (disk w) (disk w') /\ journal w' = journal w
  /\ (do_cover opts = false -> do_trailer opts = false ->
      journaled (journal w) (disk w) (disk w')).
Proof.
  intros Hdry. unfold handle_file.
  destruct (negb (in_list (Str.lower (suffix root)) VIDEO_EXTS)).
  { intros [= <- _]. split; [apply grown_refl|].
    split; [reflexivity | intros _ _; apply journaled_refl]. }
  destruct (process_video api opts root w) as [[w1 [[[old new] mv]|]]|] eqn:Ep;
    [| |discriminate].
  - destruct (dry_process_video_journaled _ _ _ _ _ _ Hdry Ep) as [J1 E1].
    rewrite Hdry.
    destruct (do_cover opts).
    + destruct (download_poster api mv (parent new) true w1) as [w2|] eqn:Ed;
        [|discriminate].
      destruct (dry_download_poster_grown _ _ _ _ _ Ed) as [G2 E2].
      rewrite E1 in G2.
      pose proof (grown_trans _ _ _ _ (journaled_grown _ _ _ J1) G2) as G.
      intros [= <- _].
      destruct (do_trailer opts).
      * destruct (dry_trailer_step_grown fetch api opts mv (parent new) w2 Hdry)
          as [G3 E3].
        rewrite E2, E1 in G3.
        split; [exact (grown_trans _ _ _ _ G G3)|].
        split; [congruence | discriminate].
      * split; [exact G|]. split; [congruence | discriminate].
    + intros [= <- _].
      destruct (do_trailer opts).
      * destruct (dry_trailer_step_grown fetch api opts mv (parent new) w1 Hdry)
          as [G3 E3].
        rewrite E1 in G3.
        split; [exact (grown_trans _ _ _ _ (journaled_grown _ _ _ J1) G3)|].
        split; [congruence | discriminate].
      * split; [exact (journaled_grown _ _ _ J1)|].
        split; [exact E1 | intros _ _; exact J1].
  - intros [= <- _].
    destruct (dry_process_video_journaled _ _ _ _ _ _ Hdry Ep) as [J1 E1].
    split; [exact (journaled_grown _ _ _ J1)|].
    split; [exact E1 | intros _ _; exact J1].
Qed.

Lemma dry_clean_all_journaled (folders : list path) (w : world) :
  journaled (journal w)
    (disk w)
    (disk (List.fold_left
             (fun w folder => clean_clutter folder true (say w "clean" [to_string folder]))
             folders w))
  /\ journal (List.fold_left
               (fun w folder => clean_clutter folder true (say w "clean" [to_string folder]))
               folders w)
     = journal w.
Proof.
  apply (fold_journaled
           (fun w folder => clean_clutter folder true (say w "clean" [to_string folder]))
           (journal w)); [|reflexivity].
  intros w0 folder Hj.
  destruct (dry_clean_journaled folder (say w0 "clean" [to_string folder])) as [J E].
  cbn [say journal disk] in J, E. rewrite Hj in J, E. split; assumption.
Qed.

(** X14.  A dry run of [handle_root] on a file never removes or moves a
    file and never removes a directory, and the only file it may write is
    the journal: when it returns, every file and every directory it
    started with is still there, and no file but the journal has come.
    With covers and trailers switched off, the journal and the directories
    above it are all that may have come. *)
Theorem dry_run_keeps_every_file
    (fetch : string -> Path.path -> FS.fs -> Shared.outcome FS.fs)
    (api : Client.tmdb) (opts : Pipeline.options) (root : Path.path)
    (w w' : Mutator.world) :
  FS.is_file (Mutator.disk w) root = true ->
  Pipeline.dry_run opts = true ->
  Pipeline.handle_root fetch api opts root w = Shared.Returns w' ->
  grown (Mutator.journal w) (Mutator.disk w) (Mutator.disk w')
  /\ (Pipeline.do_cover opts = false -> Pipeline.do_trailer opts = false ->
      journaled (Mutator.journal w) (Mutator.disk w) (Mutator.disk w')).
Proof.
  intros _ Hdry. unfold handle_root.
  destruct (handle_file fetch api opts root w) as [[w1 tp]|] eqn:Eh; [|discriminate].
  destruct (dry_handle_file _ _ _ _ _ _ _ Hdry Eh) as (G & E & J).
  rewrite Hdry. intros [= <-].
  set (w2 := if do_clean opts
             then List.fold_left
                    (fun w folder =>
                       clean_clutter folder true (say w "clean" [to_string folder]))
                    tp w1
             else w1).
  assert (H2 : journaled (journal w) (disk w1) (disk w2) /\ journal w2 = journal w).
  { unfold w2. destruct (do_clean opts); [|split; [apply journaled_refl | exact E]].
    destruct (dry_clean_all_journaled tp w1) as [J2 E2]. rewrite E in J2, E2.
    split; assumption. }
  destruct H2 as [J2 E2].
  assert (H3 : journaled (journal w) (disk w2)
                 (disk (if do_prune opts then prune_empty_dirs (parent root) true w2
                        else w2))).
  { destruct (do_prune opts); [|apply journaled_refl].
    rewrite <- E2. apply dry_prune_journaled. }
  pose proof (journaled_trans _ _ _ _ J2 H3) as J23.
  split.
  - exact (grown_trans _ _ _ _ G (journaled_grown _ _ _ J23)).
  - intros Hc Ht. exact (journaled_trans _ _ _ _ (J Hc Ht) J23).
Qed.

End DryRunMore.

(** X14 on a disk that holds one release: with covers on, the dry run
    returns and every file is still there. *)
Lemma dry_run_keeps_every_file_of_a_release :
  let video := ["/"; "movies"; "The.Matrix.1999.1080p.BluRay.x264-GROUP.mkv"] in
  let before := {| Mutator.disk := {| FS.dirs := {[ ["/"]; ["/"; "movies"] ]};
                                      FS.files := {[ video ]} |};
                   Mutator.log := [];
                   Mutator.journal :=
                     ["/"; "home"; "user"; ".config"; "MovieRenamer"; "actions.jsonl"] |} in
  let matrix := {| Scorer.id := 603; Scorer.name := Some "The Matrix";
                   Scorer.original_name := None; Scorer.date := Some "1999-03-30";
                   Scorer.popularity := Some (80 # 1);
                   Scorer.poster_path := Some "/poster.jpg" |} in
  let api := {| Client.search_movie := fun _ _ => Shared.Returns [matrix];
                Client.search_tv := fun _ _ => Shared.Returns [];
                Client.build_poster_url := fun p =>
                  Shared.Returns (Some ("https://image.tmdb.org/t/p/w500" +:+ p));
                Client.http_get := fun _ => Shared.Raises;
                Client.movie_videos := fun _ => Shared.Returns [] |} in
  let fetch := fun (_ : string) (_ : Path.path) (_ : FS.fs) => @Shared.Raises FS.fs in
  let covers := {| Pipeline.do_cover := true; Pipeline.do_clean := true;
                   Pipeline.do_prune := true; Pipeline.dry_run := true;
                   Pipeline.do_trailer := false; Pipeline.movie_fmt := None |} in
  exists w', Pipeline.handle_root fetch api covers video before = Shared.Returns w'
             /\ FS.files (Mutator.disk before) ⊆ FS.files (Mutator.disk w').
Proof.
  intros video before movie api fetch covers.
  assert (Hr : returned (Pipeline.handle_root fetch api covers video before) = true)
    by (vm_compute; reflexivity).
  assert (Hf : FS.is_file (Mutator.disk before) video = true)
    by (vm_compute; reflexivity).
  destruct (Pipeline.handle_root fetch api covers video before) as [w'|] eqn:E;
    [|discriminate Hr].
  exists w'. split; [reflexivity|].
  exact (proj1 (proj1 (dry_run_keeps_every_file fetch api covers video before w'
                         Hf eq_refl E))).
Defined.

(** The journal is written in a dry run: after a dry run of
    [process_video] on a disk without it, the journal and its directory
    are there. *)
Lemma dry_run_writes_the_journal :
  let video := ["/"; "movies"; "The.Matrix.1999.1080p.BluRay.x264-GROUP.mkv"] in
  let journal := ["/"; "home"; "user"; ".config"; "MovieRenamer"; "actions.jsonl"] in
  let before := {| Mutator.disk := {| FS.dirs := {[ ["/"]; ["/"; "movies"] ]};
                                      FS.files := {[ video ]} |};
                   Mutator.log := [];
                   Mutator.journal := journal |} in
  let matrix := {| Scorer.id := 603; Scorer.name := Some "The Matrix";
                   Scorer.original_name := None; Scorer.date := Some "1999-03-30";
                   Scorer.popularity := Some (80 # 1);
                   Scorer.poster_path := None |} in
  let api := {| Client.search_movie := fun _ _ => Shared.Returns [matrix];
                Client.search_tv := fun _ _ => Shared.Returns [];
                Client.build_poster_url := fun _ => Shared.Returns None;
                Client.http_get := fun _ => Shared.Raises;
                Client.movie_videos := fun _ => Shared.Returns [] |} in
  let opts := {| Pipeline.do_cover := false; Pipeline.do_clean := false;
                 Pipeline.do_prune := false; Pipeline.dry_run := true;
                 Pipeline.do_trailer := false; Pipeline.movie_fmt := None |} in
  FS.exists_ (Mutator.disk before) journal = false
  /\ match Pipeline.process_video api opts video before with
     | Shared.Returns (w', Some _) =>
         (FS.is_file (Mutator.disk w') journal,
          FS.is_dir (Mutator.disk w') (Path.parent journal),
          FS.is_file (Mutator.disk w') video)
         = (true, true, true)
     | _ => False
     end.
Proof. vm_compute. repeat split. Qed.

Section RoundTrip.
Import Shared Names.

Lemma pad_ok_all : List.forallb (fun k => pad_ok (Z.of_nat k)) (List.seq 0 1000) = true.
Proof. vm_compute. reflexivity. Qed.

Lemma pad_ok_below (z : Z) : (0 <= z < 1000)%Z -> pad_ok z = true.
Proof.
  intros Hz. pose proof pad_ok_all as H. rewrite List.forallb_forall in H.
  specialize (H (Z.to_nat z)). rewrite Z2Nat.id in H by lia.
  apply H. apply List.in_seq. lia.
Qed.

Lemma pad_facts (z : Z) :
  (0 <= z < 1000)%Z ->
  Str.forallb Chr.is_decimal (pad2_int z) = true
  /\ 2 <= String.length (pad2_int z) <= 3
  /\ Str.int_of_decimal (pad2_int z) = z
  /\ ((z < 100)%Z -> String.length (pad2_int z) = 2).
Proof.
  intros Hz. pose proof (pad_ok_below z Hz) as H. unfold pad_ok in H. cbv zeta in H.
  repeat (apply andb_prop in H as [H ?]).
  split; [exact H|]. split; [split; [apply Nat.leb_le | apply Nat.leb_le]; assumption|].
  split; [apply Z.eqb_eq; assumption|].
  intros Hlt. apply Z.ltb_lt in Hlt. rewrite Hlt in *. apply Nat.eqb_eq. assumption.
Qed.

Lemma s00e00_shape (season episode : Z) (pre post : string) :
  pre +:+ s00e00 season episode +:+ post
  = pre +:+ String "S" (pad2_int season +:+ "" +:+ String "E" (pad2_int episode +:+ post)).
Proof.
  unfold s00e00. f_equal.
  change ("S" +:+ pad2_int season +:+ "E" +:+ pad2_int episode)
    with (String "S" (pad2_int season +:+ String "E" (pad2_int episode))).
  rewrite append_cons, append_assoc, append_cons. reflexivity.
Qed.

Lemma s00e00_is_leftmost (season episode : Z) (pre post : string) :
  (0 <= season < 100)%Z -> (0 <= episode < 1000)%Z ->
  sxe_quiet pre = true -> no_leading_decimal post = true ->
  leftmost_tag (pre +:+ s00e00 season episode +:+ post)
    (pad2_int season) (pad2_int episode).
Proof.
  intros Hs He Hq Hp.
  destruct (pad_facts season ltac:(lia)) as (Hd1 & Hl1 & _ & Hl1').
  destruct (pad_facts episode He) as (Hd2 & Hl2 & _ & _).
  apply (tag_sxe _ _ _ pre "S" "" "E" post); try assumption; try reflexivity.
  - apply s00e00_shape.
  - cbn. lia.
  - rewrite Hl1' by lia. lia.
  - lia.
Qed.

End RoundTrip.

(** X15.  What [s00e00] writes, [parse_filename_basic] reads back: for a
    season below 100 and an episode below 1000, a name whose stem holds
    the tag written by [s00e00], with no [S] directly followed by a digit
    before it and no digit directly after it, parses to that season and
    that episode. *)
Theorem written_tag_reads_back
    (path pre post : string) (season episode : Z) :
  (0 <= season < 100)%Z -> (0 <= episode < 1000)%Z ->
  sxe_quiet pre = true -> no_leading_decimal post = true ->
  Names.base_of path = pre +:+ Shared.s00e00 season episode +:+ post ->
  season_episode (Names.parse_filename_basic path) = (Some season, Some episode).
Proof.
  intros Hs He Hq Hp Hbase.
  pose proof (s00e00_is_leftmost season episode pre post Hs He Hq Hp) as H.
  rewrite <- Hbase in H. apply episode_tag_of_leftmost in H.
  destruct (pad_facts season ltac:(lia)) as (_ & _ & E1 & _).
  destruct (pad_facts episode He) as (_ & _ & E2 & _).
  unfold Names.parse_filename_basic. rewrite H, E1, E2. reflexivity.
Qed.

(** X15 on a name in the default series layout. *)
Lemma written_tag_reads_back_in_the_default_layout :
  season_episode
    (Names.parse_filename_basic
       "/tv/Show (2019)/Show (2019) - Season 02/Show (2019) - S02E117 - Pilot.mkv")
  = (Some 2%Z, Some 117%Z).
Proof.
  apply (written_tag_reads_back _ "Show (2019) - " " - Pilot" 2 117);
    try lia; vm_compute; reflexivity.
Defined.

Section Slugs.
Import Shared Names.

Lemma slug_compiled :
  exists items,
    Re.tree SLUG_ILLEGAL = Re.Cls false items
    /\ Re.icase SLUG_ILLEGAL = false
    /\ forall c, Match.cls_match false false items c = slug_illegal c.
Proof.
  eexists. split; [vm_compute; reflexivity|]. split; [vm_compute; reflexivity|].
  intros [[] [] [] [] [] [] [] []]; vm_compute; reflexivity.
Qed.

Lemma sub_slug (x : string) :
  Match.sub SLUG_ILLEGAL "" x = replace_class slug_illegal "" x.
Proof.
  destruct slug_compiled as (items & Ht & Hi & Hc).
  rewrite (sub_class _ false items "" x Ht), Hi.
  apply replace_class_ext. exact Hc.
Qed.

Lemma delete_class_clean (p : ascii -> bool) (x : string) :
  Str.existsb p (replace_class p "" x) = false.
Proof.
  induction x as [|c x IH]; [reflexivity|]. cbn [replace_class].
  destruct (p c) eqn:E; [rewrite append_nil_l; exact IH|].
  cbn [Str.existsb]. rewrite E, IH. reflexivity.
Qed.

Lemma existsb_collapse (p : ascii -> bool) (x : string) :
  p " "%char = false ->
  forall b, Str.existsb p x = false -> Str.existsb p (collapse b x) = false.
Proof.
  intros Hsp. induction x as [|c x IH]; intros b; [reflexivity|].
  cbn [Str.existsb collapse]. intros H. apply orb_false_elim in H as [Hc H].
  destruct (Chr.is_space c); [destruct b|]; cbn [Str.existsb];
    rewrite ?Hc, ?Hsp, ?IH by exact H; reflexivity.
Qed.

Lemma existsb_lstrip (p q : ascii -> bool) (x : string) :
  Str.existsb p x = false -> Str.existsb p (Str.lstrip q x) = false.
Proof.
  induction x as [|c x IH]; [reflexivity|]. cbn [Str.lstrip].
  destruct (q c); [|trivial]. cbn [Str.existsb]. intros H.
  apply orb_false_elim in H as [_ H]. apply IH. exact H.
Qed.

Lemma existsb_rstrip (p q : ascii -> bool) (x : string) :
  Str.existsb p x = false -> Str.existsb p (Str.rstrip q x) = false.
Proof.
  induction x as [|c x IH]; [reflexivity|]. cbn [Str.rstrip Str.existsb].
  intros H. apply orb_false_elim in H as [Hc H]. specialize (IH H).
  destruct (Str.rstrip q x) as [|d r].
  - destruct (q c); [reflexivity|]. cbn [Str.existsb]. rewrite Hc. reflexivity.
  - cbn [Str.existsb] in *. rewrite Hc. exact IH.
Qed.

Lemma strip_trimmed (x : string) : trimmed (Str.strip x).
Proof.
  unfold trimmed, starts_clean, Str.strip, Str.strip_chars. split.
  - destruct (first_char (Str.rstrip Chr.is_space (Str.lstrip Chr.is_space x)))
      as [c|] eqn:E; [|exact I].
    apply rstrip_first in E. apply lstrip_first in E. exact E.
  - destruct (last_char (Str.rstrip Chr.is_space (Str.lstrip Chr.is_space x)))
      as [c|] eqn:E; [|exact I].
    apply rstrip_last in E. exact E.
Qed.

Lemma slugify_unfold (text : string) :
  slugify text
  = let r := Str.strip (collapse false (replace_class slug_illegal "" text)) in
    if Str.is_empty r then "Unknown" else r.
Proof. unfold slugify. rewrite sub_whitespace, sub_slug. reflexivity. Qed.

End Slugs.

(** X16.  The title [slugify] answers is never empty, holds none of the
    nine marks it deletes, and neither starts nor ends with white
    space. *)
Theorem slugify_answers_a_clean_title (text : string) :
  Names.slugify text <> EmptyString
  /\ Str.existsb slug_illegal (Names.slugify text) = false
  /\ trimmed (Names.slugify text).
Proof.
  rewrite slugify_unfold. cbv zeta.
  pose proof (strip_trimmed (collapse false (replace_class slug_illegal "" text))) as Ht.
  assert (He : Str.existsb slug_illegal
                 (Str.strip (collapse false (replace_class slug_illegal "" text))) = false).
  { unfold Str.strip, Str.strip_chars.
    apply existsb_rstrip, existsb_lstrip, existsb_collapse; [reflexivity|].
    apply delete_class_clean. }
  destruct (Str.strip (collapse false (replace_class slug_illegal "" text))) as [|c r].
  - cbn [Str.is_empty]. split; [discriminate|]. split; vm_compute; auto.
  - cbn [Str.is_empty]. split; [discriminate|]. split; assumption.
Qed.

Section MovieSearch.
Import Shared Client Pipeline.
Local Open Scope Q_scope.

(** X17.  The movie match of [process_video]: a movie it answers comes
    from the search with the guessed year, or, when that gave nothing and
    a year was guessed, from the search without the year, and clears the
    gate of that search with its score in binary64.  A search that fails is read as an empty result;
    the match raises only when the first search answers a list with a
    date that does not convert. *)
Theorem movie_match_survives_failed_searches
    (api : Client.tmdb) (title_guess : string) (year_guess : option Z) :
  match Pipeline.find_movie api title_guess year_guess with
  | Shared.Returns (Some m) =>
      (exists l, Client.search_movie api title_guess year_guess = Shared.Returns l
                 /\ List.In m l
                 /\ (Scorer64.movie_gate title_guess
                     <= Scorer64.movie_score m title_guess year_guess)%Q)
      \/ (exists l, Pipeline.nonzero year_guess <> None
                    /\ Client.search_movie api title_guess None = Shared.Returns l
                    /\ List.In m l
                    /\ (Scorer64.movie_gate title_guess
                        <= Scorer64.movie_score m title_guess None)%Q)
  | Shared.Returns None => True
  | Shared.Raises =>
      exists l, Client.search_movie api title_guess year_guess = Shared.Returns l
                /\ List.Exists Scorer.bad_date l
  end.
Proof.
  unfold find_movie.
  pose proof (select_spec
                (fun c yr => Scorer64.movie_score_at c title_guess year_guess yr)
                (Scorer64.movie_gate title_guess)) as S1.
  pose proof (select_spec
                (fun c yr => Scorer64.movie_score_at c title_guess None yr)
                (Scorer64.movie_gate title_guess)) as S2.
  fold (Scorer64.choose_best_match) in *.
  destruct (search_movie api title_guess year_guess) as [l|] eqn:E1.
  - specialize (S1 l). unfold Scorer64.choose_best_match.
    destruct (Scorer.select _ _ l) as [[m|]|].
    + left. exists l. split; [reflexivity|]. exact S1.
    + destruct (nonzero year_guess) eqn:En; [|exact I].
      destruct (search_movie api title_guess None) as [l2|] eqn:E2; [|exact I].
      specialize (S2 l2).
      destruct (Scorer.select _ _ l2) as [[m|]|]; try exact I.
      right. exists l2. split; [congruence|]. split; [reflexivity|]. exact S2.
    + exists l. split; [reflexivity | exact S1].
  - unfold Scorer64.choose_best_match at 1. cbn [Scorer.select].
    destruct (nonzero year_guess) eqn:En; [|exact I].
    destruct (search_movie api title_guess None) as [l2|] eqn:E2; [|exact I].
    specialize (S2 l2). unfold Scorer64.choose_best_match.
    destruct (Scorer.select _ _ l2) as [[m|]|]; try exact I.
    right. exists l2. split; [congruence|]. split; [reflexivity|]. exact S2.
Qed.

End MovieSearch.

Section Unreachable.
Import Shared Resolver.

Lemma first_match_guarded_down
    (search : string -> option Z -> outcome (list Scorer.candidate))
    (qs : list (string * option Z)) :
  (forall q y0, search q y0 = Raises) ->
  first_match (guarded search) qs = Returns None.
Proof.
  intros Hdown. induction qs as [|[qt qy] tl IH]; [reflexivity|].
  cbn [first_match]. unfold guarded at 1. rewrite Hdown. exact IH.
Qed.

Lemma first_match_down
    (search : string -> option Z -> outcome (list Scorer.candidate))
    (qs : list (string * option Z)) :
  (forall q y0, search q y0 = Raises) -> qs <> [] ->
  first_match search qs = Raises.
Proof.
  intros Hdown Hne. destruct qs as [|[qt qy] tl]; [congruence|].
  cbn [first_match]. rewrite Hdown. reflexivity.
Qed.

Lemma queries_nonempty (cands : list (string * option Z)) :
  cands <> [] -> queries (uniq cands) <> [].
Proof.
  destruct cands as [|[t0 y0] tl]; [congruence|]. intros _.
  unfold uniq. cbn. discriminate.
Qed.

End Unreachable.

(** X18.  With a catalog whose every series search fails, the resolver
    of [movie_tools.py] reads each failure as an empty result and answers
    no match; the resolver of [movie_tool.py] raises at its first
    query. *)
Theorem resolvers_differ_when_the_catalog_is_down
    (api : Client.tmdb) (file_path : Path.path) (title_guess : string)
    (year_guess : option Z) (force_show : option string) (force_year : option Z)
    (cands cands' : list (string * option Z)) :
  (forall q y0, Client.search_tv api q y0 = Shared.Raises) ->
  Resolver.raw_candidates Resolver.SEASON_DIR_TOOLS file_path title_guess year_guess
    force_show force_year = Shared.Returns cands ->
  Resolver.raw_candidates Resolver.SEASON_DIR_TOOL file_path title_guess year_guess
    force_show force_year = Shared.Returns cands' ->
  cands' <> [] ->
  MovieToolsTv.try_tv_match_with_fallbacks api file_path title_guess year_guess
    force_show force_year = Shared.Returns None
  /\ MovieToolTv.try_tv_match_with_fallbacks api file_path title_guess year_guess
       force_show force_year = Shared.Raises.
Proof.
  intros Hdown H1 H2 Hne.
  unfold MovieToolsTv.try_tv_match_with_fallbacks,
    MovieToolTv.try_tv_match_with_fallbacks, Resolver.resolve.
  rewrite H1, H2. split.
  - apply first_match_guarded_down. exact Hdown.
  - apply first_match_down; [exact Hdown | apply queries_nonempty; exact Hne].
Qed.

(** X18 on an episode in a season folder. *)
Lemma resolvers_differ_on_a_season_folder :
  let api := {| Client.search_movie := fun _ _ => Shared.Raises;
                Client.search_tv := fun _ _ => Shared.Raises;
                Client.build_poster_url := fun _ => Shared.Raises;
                Client.http_get := fun _ => Shared.Raises;
                Client.movie_videos := fun _ => Shared.Raises |} in
  let file_path := ["/"; "tv"; "Show Name (2019)"; "Season 02"; "Show.Name.S02E05.mkv"] in
  MovieToolsTv.try_tv_match_with_fallbacks api file_path "Show Name S02E05"
    None None None = Shared.Returns None
  /\ MovieToolTv.try_tv_match_with_fallbacks api file_path "Show Name S02E05"
       None None None = Shared.Raises.
Proof.
  intros api file_path.
  refine (resolvers_differ_when_the_catalog_is_down api file_path "Show Name S02E05"
            None None None
            [("Show Name", None); ("Show Name S02E05", None);
             ("Show Name", Some 2019%Z); ("Season 02", None);
             ("Show Name", Some 2019%Z)]
            [("Show Name", None); ("Show Name S02E05", None);
             ("Show Name", Some 2019%Z); ("Season 02", None);
             ("Show Name", Some 2019%Z)] _ _ _ _).
  - reflexivity.
  - vm_compute. reflexivity.
  - vm_compute. reflexivity.
  - discriminate.
Defined.

Section MatcherInversion.
Import Re Match.

Lemma step_inv (p : ascii -> bool) (s : st) (k : st -> option st) (e : st) :
  step p s k = Some e ->
  exists c t, rest s = String c t /\ p c = true
              /\ k {| prev := Some c; rest := t; pos := S (pos s); caps := caps s |}
                 = Some e.
Proof.
  unfold step. destruct (rest s) as [|c t]; [discriminate|].
  destruct (p c) eqn:E; [|discriminate]. intros H. exists c, t. repeat split; assumption.
Qed.

Lemma or_else_inv (a : option st) (b : unit -> option st) (e : st) :
  or_else a b = Some e -> a = Some e \/ b tt = Some e.
Proof. destruct a; cbn [or_else]; [left | right]; assumption. Qed.

Lemma moved_nil (s : st) : moved s "" (rest s) = s.
Proof. destruct s. reflexivity. Qed.

(** A greedy repetition of a class that succeeds has read a run of the
    class within its bounds. *)
Lemma rep_inv (p : ascii -> bool) (k : st -> option st) (e : st) :
  forall (fuel lo : nat) (hi : option nat) (s : st),
    rep_loop (step p) k true fuel lo hi s = Some e ->
    exists w tail,
      rest s = w +:+ tail /\ Str.forallb p w = true
      /\ lo <= String.length w
      /\ match hi with Some h => String.length w <= h | None => True end
      /\ k (moved s w tail) = Some e.
Proof.
  assert (Hstop : forall lo hi s,
            (if (lo =? 0)%nat then k s else None) = Some e ->
            exists w tail,
              rest s = w +:+ tail /\ Str.forallb p w = true
              /\ lo <= String.length w
              /\ match hi with Some h => String.length w <= h | None => True end
              /\ k (moved s w tail) = Some e).
  { intros lo hi s H. destruct (lo =? 0)%nat eqn:E; [|discriminate].
    apply Nat.eqb_eq in E. subst lo. exists "", (rest s).
    rewrite moved_nil. repeat split; try assumption; try reflexivity.
    destruct hi; cbn; [lia | exact I]. }
  induction fuel as [|f IH]; intros lo hi s H; cbn [rep_loop] in H.
  - apply Hstop. exact H.
  - apply or_else_inv in H as [H|H]; [|apply Hstop; exact H].
    assert (Hhi : hi <> Some 0) by (intros ->; discriminate H).
    assert (H' : step p s (fun s' =>
                   if (pos s' =? pos s)%nat then None
                   else rep_loop (step p) k true f (Nat.pred lo) (option_map Nat.pred hi) s')
                 = Some e).
    { destruct hi as [[|h]|]; [congruence | exact H | exact H]. }
    clear H. apply step_inv in H' as (c & t & Hrest & Hc & H).
    cbn [pos] in H.
    replace (S (pos s) =? pos s)%nat with false in H
      by (symmetry; apply Nat.eqb_neq; lia).
    apply IH in H as (w & tail & Hr & Hall & Hlo & Hh & Hk).
    cbn [rest] in Hr. exists (String c w), tail.
    split; [rewrite Hrest, Hr; reflexivity|].
    split; [cbn [Str.forallb]; rewrite Hc, Hall; reflexivity|].
    split; [cbn [String.length]; lia|].
    split.
    + destruct hi as [[|h]|]; cbn [String.length option_map Nat.pred] in *;
        [congruence | lia | exact I].
    + unfold moved in *. cbn [prev rest pos caps last_or String.length] in *.
      rewrite Nat.add_succ_r in Hk. exact Hk.
Qed.

Lemma length_two (w : string) :
  2 <= String.length w <= 2 -> exists a b, w = String a (String b "").
Proof.
  destruct w as [|a [|b [|c w]]]; cbn [String.length]; intros H; try lia.
  exists a, b. reflexivity.
Qed.

(** Every match that [scan] lists was found by the matcher at some
    place of the text. *)
Lemma scan_hits (p : pattern) (h : hit) :
  forall (fuel : nat) (pv : option ascii) (txt acc : string),
    List.In h (fst (scan p fuel pv txt acc)) ->
    exists pv' txt' e,
      rmatch (icase p) (tree p) (start pv' txt') Some = Some e
      /\ h_text h = Str.take (pos e) txt' /\ h_caps h = caps e.
Proof.
  induction fuel as [|f IH]; intros pv txt acc; cbn [scan]; [intros []|].
  destruct (rmatch (icase p) (tree p) (start pv txt) Some) as [e|] eqn:Em.
  - destruct (pos e =? 0)%nat.
    + destruct txt as [|c t].
      * intros [<-|[]]. exists pv, "", e. repeat split. exact Em.
      * pose proof (IH (Some c) t (String c "")) as IH'.
        destruct (scan p f (Some c) t (String c "")) as [hs tl]. cbn [fst] in *.
        intros [<-|Hin]; [|apply IH'; exact Hin].
        exists pv, (String c t), e. repeat split. exact Em.
    + pose proof (IH (prev e) (rest e) "") as IH'.
      destruct (scan p f (prev e) (rest e) "") as [hs tl]. cbn [fst] in *.
      intros [<-|Hin]; [|apply IH'; exact Hin].
      exists pv, txt, e. repeat split. exact Em.
  - destruct txt as [|c t]; [intros []|]. apply IH.
Qed.

End MatcherInversion.

Section Years.
Import Re Match Names.

Lemma year_token_compiled : YEAR_TOKEN = {| icase := false; tree := YEAR_TREE |}.
Proof. vm_compute. reflexivity. Qed.

Lemma plain_year_compiled : PLAIN_YEAR = {| icase := false; tree := PLAIN_TREE |}.
Proof. vm_compute. reflexivity. Qed.

Lemma lit_inv (a c : ascii) : lit_match false a c = true -> c = a.
Proof. unfold lit_match. apply Ascii.eqb_eq. Qed.

Lemma notbehind_inv (r : regex) (s : st) (k : st -> option st) (e : st) :
  rmatch false (NotBehind r) s k = Some e -> k s = Some e.
Proof.
  cbn [rmatch]. destruct (prev s); [|trivial].
  destruct (rmatch false r _ _); [discriminate | trivial].
Qed.

Lemma notahead_inv (r : regex) (s : st) (k : st -> option st) (e : st) :
  rmatch false (NotAhead r) s k = Some e -> k s = Some e.
Proof. cbn [rmatch]. destruct (rmatch false r s Some); [discriminate | trivial]. Qed.

Lemma wordb_inv (s : st) (k : st -> option st) (e : st) :
  rmatch false WordB s k = Some e -> k s = Some e.
Proof.
  cbn [rmatch]. destruct (xorb (is_word_opt (prev s)) (is_word_opt (next s)));
    [trivial | discriminate].
Qed.

Lemma two_digits_inv (s : st) (k : st -> option st) (e : st) :
  rmatch false (Rep true 2 (Some 2) DIGIT) s k = Some e ->
  exists c3 c4 t,
    rest s = String c3 (String c4 t)
    /\ Chr.is_decimal c3 = true /\ Chr.is_decimal c4 = true
    /\ k {| prev := Some c4; rest := t; pos := 2 + pos s; caps := caps s |} = Some e.
Proof.
  cbn [rmatch]. unfold DIGIT.
  change (rmatch false (Cls false [IDigit])) with (step (cls_match false false [IDigit])).
  intros H. apply rep_inv in H as (w & tail & Hr & Hall & Hlo & Hhi & Hk).
  destruct (length_two w ltac:(lia)) as (c3 & c4 & ->).
  cbn [Str.forallb] in Hall. rewrite !cls_digit in Hall.
  apply andb_prop in Hall as [H3 Hall]. apply andb_prop in Hall as [H4 _].
  exists c3, c4, tail. repeat split; assumption.
Qed.

Ltac read_char H c t :=
  let Hr := fresh "Hr" in
  let Hc := fresh "Hc" in
  apply step_inv in H as (c & t & Hr & Hc & H);
  cbn [rest pos caps prev start set_cap] in Hr, H;
  subst;
  first [apply lit_inv in Hc; subst c | rewrite cls_digit in Hc].

Ltac read_two H c3 c4 t :=
  let Hr := fresh "Hr" in
  let H3 := fresh "Hd" in
  let H4 := fresh "Hd" in
  apply two_digits_inv in H as (c3 & c4 & t & Hr & H3 & H4 & H);
  cbn [rest pos caps prev start set_cap] in Hr, H;
  subst.

Ltac close_match H :=
  match type of H with
  | match ?m with Some _ => None | None => Some _ end = Some _ =>
      destruct m; [discriminate H|]; injection H as <-
  end.

Lemma year_token_inv (pv : option ascii) (txt : string) (e : st) :
  rmatch false YEAR_TREE (start pv txt) Some = Some e ->
  exists d, year_text d /\ List.head (caps e) = Some (1, d).
Proof.
  unfold YEAR_TREE. intros H.
  change (rmatch false (Cat ?a ?b) ?s ?k)
    with (rmatch false a s (fun s' => rmatch false b s' k)) in H.
  apply notbehind_inv in H.
  change (rmatch false (Cat ?a ?b) ?s ?k)
    with (rmatch false a s (fun s' => rmatch false b s' k)) in H.
  cbn [rmatch] in H.
  apply or_else_inv in H as [H|H]; [|apply or_else_inv in H as [H|H]].
  - read_char H c1 t1. read_char H c2 t2.
    apply or_else_inv in H as [H|H]; read_char H c3 t3; read_char H c4 t4;
      close_match H; cbn [caps set_cap List.head pos rest Nat.sub Str.take];
      (eexists; split; [|reflexivity]).
    + exists "8"%char, c4. split; [reflexivity|]. split; [exact Hc|].
      left. split; [reflexivity | left; reflexivity].
    + exists "9"%char, c4. split; [reflexivity|]. split; [exact Hc|].
      left. split; [reflexivity | right; reflexivity].
  - read_char H c1 t1. read_char H c2 t2.
    change (rep_loop (rmatch false DIGIT) ?k true ?f 2 (Some 2) ?s)
      with (rep_loop (rmatch false DIGIT) k true (S (String.length (rest s))) 2 (Some 2) s)
      in H.
    change (rep_loop (rmatch false DIGIT) ?k true (S (String.length (rest ?s))) 2 (Some 2) ?s)
      with (rmatch false (Rep true 2 (Some 2) DIGIT) s k) in H.
    read_two H c3 c4 t4.
    close_match H. cbn [caps set_cap List.head pos rest Nat.sub Nat.add Str.take].
    eexists; split; [|reflexivity].
    exists c3, c4. split; [assumption|]. split; [assumption|].
    right. left. reflexivity.
  - read_char H c1 t1. read_char H c2 t2.
    change (rep_loop (rmatch false DIGIT) ?k true ?f 2 (Some 2) ?s)
      with (rep_loop (rmatch false DIGIT) k true (S (String.length (rest s))) 2 (Some 2) s)
      in H.
    change (rep_loop (rmatch false DIGIT) ?k true (S (String.length (rest ?s))) 2 (Some 2) ?s)
      with (rmatch false (Rep true 2 (Some 2) DIGIT) s k) in H.
    read_two H c3 c4 t4.
    close_match H. cbn [caps set_cap List.head pos rest Nat.sub Nat.add Str.take].
    eexists; split; [|reflexivity].
    exists c3, c4. split; [assumption|]. split; [assumption|].
    right. right. reflexivity.
Qed.

Lemma plain_year_inv (pv : option ascii) (txt : string) (e : st) :
  rmatch false PLAIN_TREE (start pv txt) Some = Some e ->
  exists c3 c4,
    Chr.is_decimal c3 = true /\ Chr.is_decimal c4 = true
    /\ (Str.take (pos e) txt = String "1" (String "9" (String c3 (String c4 "")))
        \/ Str.take (pos e) txt = String "2" (String "0" (String c3 (String c4 "")))).
Proof.
  unfold PLAIN_TREE. intros H.
  change (rmatch false (Cat ?a ?b) ?s ?k)
    with (rmatch false a s (fun s' => rmatch false b s' k)) in H.
  apply wordb_inv in H.
  change (rmatch false (Cat ?a ?b) ?s ?k)
    with (rmatch false a s (fun s' => rmatch false b s' k)) in H.
  change (rmatch false (Grp ?i ?a) ?s ?k)
    with (rmatch false a s (fun s' => k (set_cap i s s'))) in H.
  change (rmatch false (Alt ?a ?b) ?s ?k)
    with (or_else (rmatch false a s k) (fun _ => rmatch false b s k)) in H.
  apply or_else_inv in H as [H|H];
    cbn [rmatch] in H; read_char H c1 t1; read_char H c2 t2;
    change (rep_loop (rmatch false DIGIT) ?k true ?f 2 (Some 2) ?s)
      with (rep_loop (rmatch false DIGIT) k true (S (String.length (rest s))) 2 (Some 2) s)
      in H;
    change (rep_loop (rmatch false DIGIT) ?k true (S (String.length (rest ?s))) 2 (Some 2) ?s)
      with (rmatch false (Rep true 2 (Some 2) DIGIT) s k) in H;
    read_two H c3 c4 t4;
    match type of H with
    | (if ?b then _ else _) = _ => destruct b; [|discriminate H]
    end;
    injection H as <-; cbn [pos Nat.add Str.take];
    exists c3, c4; (split; [assumption|]); (split; [assumption|]);
    [left | right]; reflexivity.
Qed.

Lemma digit_val_range (c : ascii) :
  Chr.is_decimal c = true -> (0 <= Chr.digit_val c <= 9)%Z.
Proof.
  destruct c as [[] [] [] [] [] [] [] []]; vm_compute; intros H;
    first [discriminate H | split; discriminate].
Qed.

Lemma decimal_is_digit (c : ascii) : Chr.is_decimal c = true -> Chr.is_digit c = true.
Proof. unfold Chr.is_digit. intros ->. reflexivity. Qed.

Lemma four_digits_value (a b c3 c4 : ascii) :
  Str.int_of_decimal (String a (String b (String c3 (String c4 ""))))
  = (((Chr.digit_val a * 10 + Chr.digit_val b) * 10 + Chr.digit_val c3) * 10
     + Chr.digit_val c4)%Z.
Proof. unfold Str.int_of_decimal. rewrite Z.mul_0_l, Z.add_0_l. reflexivity. Qed.

Lemma year_text_value (d : string) :
  year_text d -> (1880 <= Str.int_of_decimal d <= 2099)%Z.
Proof.
  intros (c3 & c4 & H3 & H4 & Hd).
  pose proof (digit_val_range c3 H3) as R3. pose proof (digit_val_range c4 H4) as R4.
  destruct Hd as [[-> Hc]|[-> | ->]]; rewrite four_digits_value.
  - change (Chr.digit_val "1") with 1%Z. change (Chr.digit_val "8") with 8%Z.
    destruct Hc as [-> | ->]; [change (Chr.digit_val "8") with 8%Z in *
                              | change (Chr.digit_val "9") with 9%Z in *]; lia.
  - change (Chr.digit_val "1") with 1%Z. change (Chr.digit_val "9") with 9%Z. lia.
  - change (Chr.digit_val "2") with 2%Z. change (Chr.digit_val "0") with 0%Z. lia.
Qed.

Lemma group_of_head (h : hit) (d : string) :
  List.head (h_caps h) = Some (1, d) -> group 1 h = d.
Proof.
  unfold group. destruct (h_caps h) as [|x l]; [discriminate|].
  cbn [List.head]. intros [= ->]. reflexivity.
Qed.

Lemma year_token_hits (txt : string) (h : hit) :
  List.In h (finditer YEAR_TOKEN txt) ->
  (1880 <= Str.int_of_decimal (group 1 h) <= 2099)%Z.
Proof.
  unfold finditer. intros Hin. apply scan_hits in Hin as (pv & t & e & Hm & _ & Hc).
  rewrite year_token_compiled in Hm. cbn [icase tree] in Hm.
  apply year_token_inv in Hm as (d & Hd & Hh). rewrite <- Hc in Hh.
  rewrite (group_of_head h d Hh). apply year_text_value. exact Hd.
Qed.

(** X19.  A year [split_stem_year] guesses always lies between 1880 and
    2099. *)
Theorem guessed_year_is_in_range (stem : string) :
  match snd (Names.split_stem_year stem) with
  | Some yr => (1880 <= yr <= 2099)%Z
  | None => True
  end.
Proof.
  unfold split_stem_year. cbv zeta. cbn [snd].
  match goal with
  | |- context [finditer YEAR_TOKEN ?x] => set (txt := x)
  end.
  assert (H : forall m, List.In m (List.rev (finditer YEAR_TOKEN txt)) ->
                        (1880 <= Str.int_of_decimal (group 1 m) <= 2099)%Z).
  { intros m Hm. apply List.in_rev in Hm. apply (year_token_hits txt m Hm). }
  destruct (List.rev (finditer YEAR_TOKEN txt)) as [|m l]; [exact I|].
  apply H. left. reflexivity.
Qed.

Lemma search_in_finditer (p : pattern) (txt : string) (h : hit) :
  search p txt = Some h -> List.In h (finditer p txt).
Proof.
  unfold search. destruct (finditer p txt) as [|x l]; [discriminate|].
  cbn [List.head]. intros [= ->]. left. reflexivity.
Qed.

Lemma parsed_year_converts (path : string) :
  match snd (fst (fst (parse_filename_basic path))) with
  | Some d =>
      exists v, Resolver._safe_int (Some d) = Shared.Returns (Some v)
                /\ (1900 <= v <= 2099)%Z
  | None => True
  end.
Proof.
  unfold parse_filename_basic. cbv zeta.
  destruct (episode_tag (base_of path)) as [s0 e0]. cbn [fst snd].
  destruct (search PLAIN_YEAR (base_of path)) as [h|] eqn:Es; [|exact I].
  cbn [option_map].
  apply search_in_finditer in Es. unfold finditer in Es.
  apply scan_hits in Es as (pv & t & e & Hm & Ht & _).
  rewrite plain_year_compiled in Hm. cbn [icase tree] in Hm.
  apply plain_year_inv in Hm as (c3 & c4 & H3 & H4 & Hd). rewrite <- Ht in Hd.
  pose proof (digit_val_range c3 H3) as R3. pose proof (digit_val_range c4 H4) as R4.
  destruct Hd as [-> | ->]; unfold Resolver._safe_int; cbn [Str.forallb];
    rewrite H3, H4, (decimal_is_digit c3 H3), (decimal_is_digit c4 H4);
    cbn [andb Chr.is_digit]; (eexists; split; [reflexivity|]);
    rewrite four_digits_value.
  - change (Chr.digit_val "1") with 1%Z. change (Chr.digit_val "9") with 9%Z. lia.
  - change (Chr.digit_val "2") with 2%Z. change (Chr.digit_val "0") with 0%Z. lia.
Qed.

Lemma raw_candidates_returns (pat : pattern) (file_path : Path.path)
    (title_guess : string) (year_guess : option Z)
    (force_show : option string) (force_year : option Z) :
  exists cands,
    Resolver.raw_candidates pat file_path title_guess year_guess force_show force_year
    = Shared.Returns cands.
Proof.
  unfold Resolver.raw_candidates.
  pose proof (parsed_year_converts (Path.to_string file_path)) as Hy.
  destruct (parse_filename_basic (Path.to_string file_path))
    as [[[title_from_parse year_from_parse] s0] e0].
  cbn [fst snd] in Hy. cbv zeta.
  destruct (negb (Str.is_empty title_from_parse) && has_letter title_from_parse);
    [|eexists; reflexivity].
  destruct year_from_parse as [d|].
  - destruct Hy as (v & -> & _). eexists. reflexivity.
  - eexists. reflexivity.
Qed.








End Years.

(** X20.  The year [parse_filename_basic] reads is a text [_safe_int]
    converts, to a number between 1900 and 2099; so building the
    candidates of the series resolver never raises, whatever the path,
    the guesses and the forced values. *)
Theorem resolver_candidates_never_raise
    (pat : Re.pattern) (file_path : Path.path) (title_guess : string)
    (year_guess : option Z) (force_show : option string) (force_year : option Z) :
  match snd (fst (fst (Names.parse_filename_basic (Path.to_string file_path)))) with
  | Some d =>
      exists v, Resolver._safe_int (Some d) = Shared.Returns (Some v)
                /\ (1900 <= v <= 2099)%Z
  | None => True
  end
  /\ exists cands,
       Resolver.raw_candidates pat file_path title_guess year_guess force_show force_year
       = Shared.Returns cands.
Proof. split; [apply parsed_year_converts | apply raw_candidates_returns]. Qed.

Section SeriesFacts.
Import Shared Path FS Client Mutator Series.

Lemma skipped_without_tag (tv : tv_client) (opts : options) (file_path : path)
    (w : world) :
  Pipeline.nonzero (fst (season_episode (Names.parse_filename_basic (to_string file_path))))
  = None
  \/ Pipeline.nonzero (snd (season_episode (Names.parse_filename_basic (to_string file_path))))
     = None ->
  process_series_file tv opts file_path w
  = Returns (say w "warning" ["no SxxEyy detected; skipping"], None).
Proof.
  unfold process_series_file, season_episode.
  destruct (Names.split_stem_year (stem file_path)) as [title_guess year_guess].
  destruct (Names.parse_filename_basic (to_string file_path)) as [[[ti yr] season] episode].
  cbn [fst snd]. intros [H|H]; rewrite H; [reflexivity|].
  destruct (Pipeline.nonzero season); reflexivity.
Qed.

Lemma dry_season_poster_grown (tv : tv_client) (tv_id season : Z) (out_dir : path)
    (w : world) :
  grown (journal w) (disk w)
    (disk (download_season_poster tv tv_id season out_dir true w)).
Proof.
  unfold download_season_poster.
  destruct (season_details tv tv_id season) as [[[|c pp]|]|]; try apply grown_refl.
  destruct (build_poster_url (api tv) (String c pp)) as [[[|c' u]|]|];
    try apply grown_refl.
  destruct (mkdir_parents (disk w) out_dir) as [f|] eqn:Em; [|apply grown_refl].
  cbn [say on_disk disk]. apply (mkdir_parents_grown _ _ _ _ Em).
Qed.

(** X21.  A dry run of [process_series_file] never removes or moves a
    file and never removes a directory, and the only file it may write is
    the journal; with covers switched off, the journal and the directories
    above it are all that may have come. *)
Theorem series_dry_run_keeps_every_file
    (tv : Series.tv_client) (opts : Series.options) (file_path : Path.path)
    (w w' : Mutator.world) (r : option (Path.path * Path.path * Scorer.candidate)) :
  Series.dry_run opts = true ->
  Series.process_series_file tv opts file_path w = Shared.Returns (w', r) ->
  grown (Mutator.journal w) (Mutator.disk w) (Mutator.disk w')
  /\ (Series.do_cover opts = false ->
      journaled (Mutator.journal w) (Mutator.disk w) (Mutator.disk w')).
Proof.
  intros Hdry. unfold process_series_file.
  destruct (Names.split_stem_year (stem file_path)) as [title_guess year_guess].
  destruct (Names.parse_filename_basic (to_string file_path)) as [[[ti yr] season] episode].
  destruct (Pipeline.nonzero season) as [sn|];
    [|intros [= <- _]; split; [apply grown_refl | intros _; apply journaled_refl]].
  destruct (Pipeline.nonzero episode) as [ep|];
    [|intros [= <- _]; split; [apply grown_refl | intros _; apply journaled_refl]].
  destruct (MovieToolsTv.try_tv_match_with_fallbacks _ _ _ _ _ _) as [[show|]|];
    [| intros [= <- _]; split; [apply grown_refl | intros _; apply journaled_refl]
     | discriminate].
  destruct (Scorer.year_of _) as [y0|]; [|discriminate].
  cbv zeta.
  destruct (if Str.is_empty _ then None else _) as [dest|]; [|discriminate].
  destruct (shown_destination _ _ _ _) as [shown|]; [|discriminate].
  rewrite Hdry. unfold rename_step.
  set (w1 := log_jsonl (say w "rename" [name file_path; shown])).
  assert (J1 : journaled (journal w) (disk w) (disk w1))
    by apply (log_jsonl_journaled (say w "rename" [name file_path; shown])).
  assert (E1 : journal w1 = journal w)
    by (unfold w1; rewrite log_jsonl_journal; reflexivity).
  destruct (do_cover opts).
  - destruct (download_poster _ show _ true w1) as [w2|] eqn:Ed; [|discriminate].
    destruct (dry_download_poster_grown _ _ _ _ _ Ed) as [G E2]. rewrite E1 in G.
    pose proof (grown_trans _ _ _ _ (journaled_grown _ _ _ J1) G) as G2.
    intros [= <- _]. split; [|discriminate].
    cbn [andb]. destruct (season_covers opts); [|exact G2].
    apply (grown_trans _ _ _ _ G2).
    rewrite <- E1, <- E2. apply dry_season_poster_grown.
  - intros [= <- _]. cbn [andb].
    split; [exact (journaled_grown _ _ _ J1) | intros _; exact J1].
Qed.

End SeriesFacts.

(** X22.  Specials are not renamed: a file whose stem holds the tag that
    [s00e00] writes for season 0, or for episode 0, is skipped by
    [process_series_file] with a warning, before any catalog query and
    whatever the options; the disk stays as it is. *)
Theorem specials_are_skipped
    (tv : Series.tv_client) (opts : Series.options) (file_path : Path.path)
    (w : Mutator.world) (pre post : string) (season episode : Z) :
  (0 <= season < 100)%Z -> (0 <= episode < 1000)%Z ->
  season = 0%Z \/ episode = 0%Z ->
  sxe_quiet pre = true -> no_leading_decimal post = true ->
  Names.base_of (Path.to_string file_path)
  = pre +:+ Shared.s00e00 season episode +:+ post ->
  Series.process_series_file tv opts file_path w
  = Shared.Returns (Mutator.say w "warning" ["no SxxEyy detected; skipping"], None).
Proof.
  intros Hs He Hz Hq Hp Hbase.
  apply skipped_without_tag.
  pose proof (s00e00_is_leftmost season episode pre post Hs He Hq Hp) as H.
  rewrite <- Hbase in H. apply episode_tag_of_leftmost in H.
  destruct (pad_facts season ltac:(lia)) as (_ & _ & E1 & _).
  destruct (pad_facts episode He) as (_ & _ & E2 & _).
  unfold season_episode, Names.parse_filename_basic. rewrite H, E1, E2. cbn [fst snd].
  destruct Hz as [-> | ->]; [left | right]; reflexivity.
Qed.

(** X22 on a special in a season folder. *)
Lemma specials_are_skipped_in_a_season_folder :
  let tv := {| Series.api :=
                 {| Client.search_movie := fun _ _ => Shared.Returns [];
                    Client.search_tv := fun _ _ => Shared.Returns [];
                    Client.build_poster_url := fun _ => Shared.Returns None;
                    Client.http_get := fun _ => Shared.Raises;
                    Client.movie_videos := fun _ => Shared.Returns [] |};
               Series.get_episode := fun _ _ _ => None;
               Series.season_details := fun _ _ => Shared.Raises |} in
  let opts := {| Series.layout := "folders"; Series.do_cover := true;
                 Series.dry_run := false; Series.series_fmt := None;
                 Series.season_covers := true; Series.force_show := None;
                 Series.force_year := None |} in
  let w := {| Mutator.disk := {| FS.dirs := {[ ["/"]; ["/"; "tv"] ]};
                                 FS.files := {[ ["/"; "tv"; "Show.S00E05.Extras.mkv"] ]} |};
              Mutator.log := [];
              Mutator.journal :=
                ["/"; "home"; "user"; ".config"; "MovieRenamer"; "actions.jsonl"] |} in
  Series.process_series_file tv opts ["/"; "tv"; "Show.S00E05.Extras.mkv"] w
  = Shared.Returns (Mutator.say w "warning" ["no SxxEyy detected; skipping"], None).
Proof.
  intros tv opts w.
  apply (specials_are_skipped tv opts _ w "Show." ".Extras" 0 5);
    try lia; try (left; reflexivity); vm_compute; reflexivity.
Defined.

(** X21 on an episode the catalog knows, with covers on. *)
Lemma series_dry_run_keeps_every_file_of_an_episode :
  let show := {| Scorer.id := 7; Scorer.name := Some "Show Name";
                 Scorer.original_name := None; Scorer.date := Some "2019-01-01";
                 Scorer.popularity := Some (10 # 1);
                 Scorer.poster_path := Some "/p.jpg" |} in
  let tv := {| Series.api :=
                 {| Client.search_movie := fun _ _ => Shared.Returns [];
                    Client.search_tv := fun _ _ => Shared.Returns [show];
                    Client.build_poster_url := fun p =>
                      Shared.Returns (Some ("https://image.tmdb.org/t/p/w500" +:+ p));
                    Client.http_get := fun _ => Shared.Raises;
                    Client.movie_videos := fun _ => Shared.Returns [] |};
               Series.get_episode := fun _ _ _ => Some "Pilot";
               Series.season_details := fun _ _ => Shared.Returns (Some "/s.jpg") |} in
  let opts := {| Series.layout := "folders"; Series.do_cover := true;
                 Series.dry_run := true; Series.series_fmt := None;
                 Series.season_covers := true; Series.force_show := None;
                 Series.force_year := None |} in
  let file_path := ["/"; "tv"; "Show.Name.S02E05.mkv"] in
  let w := {| Mutator.disk := {| FS.dirs := {[ ["/"]; ["/"; "tv"] ]};
                                 FS.files := {[ file_path ]} |};
              Mutator.log := [];
              Mutator.journal :=
                ["/"; "home"; "user"; ".config"; "MovieRenamer"; "actions.jsonl"] |} in
  match Series.process_series_file tv opts file_path w with
  | Shared.Returns (w', Some (_, dest, _)) =>
      Path.to_string dest
      = "/tv/Show Name (2019)/Show Name (2019) - Season 02/Show Name (2019) - S02E05 - Pilot.mkv"
      /\ FS.files (Mutator.disk w) ⊆ FS.files (Mutator.disk w')
  | _ => False
  end.
Proof.
  intros show tv opts file_path w.
  assert (Hd : match Series.process_series_file tv opts file_path w with
               | Shared.Returns (_, Some (_, dest, _)) =>
                   String.eqb (Path.to_string dest)
                     "/tv/Show Name (2019)/Show Name (2019) - Season 02/Show Name (2019) - S02E05 - Pilot.mkv"
               | _ => false
               end = true) by (vm_compute; reflexivity).
  destruct (Series.process_series_file tv opts file_path w)
    as [[w' [[[old dest] sh]|]]|] eqn:E; try discriminate Hd.
  split; [apply String.eqb_eq; exact Hd|].
  exact (proj1 (proj1 (series_dry_run_keeps_every_file tv opts file_path w w' _
                         eq_refl E))).
Defined.

Section FreeDestinations.
Import Shared Path FS Client Mutator.

Lemma next_free_is_free (f : fs) (dst : path) :
  forall (fuel n : nat) (r : path),
    next_free f dst fuel n = Some r -> exists_ f r = false.
Proof.
  induction fuel as [|k IH]; intros n r; cbn [next_free]; [discriminate|].
  destruct (exists_ f (numbered dst n)) eqn:E; [apply IH|].
  intros [= <-]. exact E.
Qed.

Lemma ensure_unique_is_free (fuel : nat) (f : fs) (dst r : path) :
  ensure_unique_path fuel f dst = Some r -> exists_ f r = false.
Proof.
  unfold ensure_unique_path. destruct (exists_ f dst) eqn:E.
  - apply next_free_is_free.
  - intros [= <-]. exact E.
Qed.

Lemma relative_to_is_prefix (p other rel : path) :
  relative_to p other = Returns rel -> is_prefix other p = true.
Proof.
  revert p. induction other as [|y other IH]; intros [|x p]; cbn [relative_to is_prefix];
    try reflexivity; try discriminate.
  destruct (String.eqb x y) eqn:E; [|discriminate].
  rewrite String.eqb_sym, E. apply IH.
Qed.

Lemma process_video_destination_free (api : tmdb) (opts : Pipeline.options)
    (file_path : path) (w w' : world) (old new : path) (mv : Scorer.candidate) :
  Pipeline.process_video api opts file_path w = Returns (w', Some (old, new, mv)) ->
  old = file_path /\ exists_ (disk w) new = false
  /\ is_prefix (parent file_path) new = true.
Proof.
  unfold Pipeline.process_video.
  destruct (Names.split_stem_year (stem file_path)) as [title_guess year_guess].
  destruct (Pipeline.find_movie api title_guess year_guess) as [[movie|]|];
    [| discriminate | discriminate].
  destruct (Pipeline.destination opts file_path title_guess year_guess movie _)
    as [dest|] eqn:Ed; [|discriminate].
  destruct (relative_to dest (parent file_path)) as [shown|] eqn:Er; [|discriminate].
  destruct (rename_step file_path dest _ (Pipeline.dry_run opts) _) as [w1|];
    [|discriminate].
  intros [= _ <- <- _]. split; [reflexivity|].
  split; [|exact (relative_to_is_prefix _ _ _ Er)].
  unfold Pipeline.destination in Ed. cbn [say disk] in Ed.
  destruct (Str.is_empty _); [discriminate|].
  apply ensure_unique_is_free in Ed. exact Ed.
Qed.

Lemma process_series_destination_free (tv : Series.tv_client) (opts : Series.options)
    (file_path : path) (w w' : world) (old new : path) (show : Scorer.candidate) :
  Series.process_series_file tv opts file_path w = Returns (w', Some (old, new, show)) ->
  old = file_path /\ exists_ (disk w) new = false.
Proof.
  unfold Series.process_series_file.
  destruct (Names.split_stem_year (stem file_path)) as [title_guess year_guess].
  destruct (Names.parse_filename_basic (to_string file_path)) as [[[ti yr] season] episode].
  destruct (Pipeline.nonzero season) as [sn|]; [|discriminate].
  destruct (Pipeline.nonzero episode) as [ep|]; [|discriminate].
  destruct (MovieToolsTv.try_tv_match_with_fallbacks _ _ _ _ _ _) as [[sh|]|];
    [| discriminate | discriminate].
  destruct (Scorer.year_of _) as [y0|]; [|discriminate].
  cbv zeta.
  destruct (Str.is_empty _); [discriminate|].
  destruct (ensure_unique_path _ _ _) as [dest|] eqn:Ed; [|discriminate].
  destruct (Series.shown_destination _ _ _ _) as [shown|]; [|discriminate].
  destruct (rename_step file_path dest shown (Series.dry_run opts) w) as [w1|];
    [|discriminate].
  destruct (if Series.do_cover opts then _ else _) as [w2|]; [|discriminate].
  intros [= _ <- <- _]. split; [reflexivity|].
  apply ensure_unique_is_free in Ed. exact Ed.
Qed.

Lemma process_video_unmatched (api : tmdb) (opts : Pipeline.options)
    (file_path : path) (w w' : world) :
  Pipeline.process_video api opts file_path w = Returns (w', None) -> disk w' = disk w.
Proof.
  unfold Pipeline.process_video.
  destruct (Names.split_stem_year (stem file_path)) as [title_guess year_guess].
  destruct (Pipeline.find_movie api title_guess year_guess) as [[movie|]|];
    [| intros [= <-]; reflexivity | discriminate].
  destruct (Pipeline.destination opts file_path title_guess year_guess movie _)
    as [dest|]; [|discriminate].
  destruct (relative_to dest (parent file_path)) as [shown|]; [|discriminate].
  destruct (rename_step file_path dest _ (Pipeline.dry_run opts) _) as [w1|]; discriminate.
Qed.

Lemma process_series_unmatched (tv : Series.tv_client) (opts : Series.options)
    (file_path : path) (w w' : world) :
  Series.process_series_file tv opts file_path w = Returns (w', None) -> disk w' = disk w.
Proof.
  unfold Series.process_series_file.
  destruct (Names.split_stem_year (stem file_path)) as [title_guess year_guess].
  destruct (Names.parse_filename_basic (to_string file_path)) as [[[ti yr] season] episode].
  destruct (Pipeline.nonzero season) as [sn|]; [|intros [= <-]; reflexivity].
  destruct (Pipeline.nonzero episode) as [ep|]; [|intros [= <-]; reflexivity].
  destruct (MovieToolsTv.try_tv_match_with_fallbacks _ _ _ _ _ _) as [[sh|]|];
    [| intros [= <-]; reflexivity | discriminate].
  destruct (Scorer.year_of _) as [y0|]; [|discriminate].
  cbv zeta.
  destruct (Str.is_empty _); [discriminate|].
  destruct (ensure_unique_path _ _ _) as [dest|]; [|discriminate].
  destruct (Series.shown_destination _ _ _ _) as [shown|]; [|discriminate].
  destruct (rename_step file_path dest shown (Series.dry_run opts) w) as [w1|];
    [|discriminate].
  destruct (if Series.do_cover opts then _ else _) as [w2|]; discriminate.
Qed.

End FreeDestinations.

(** X23.  The video is never moved onto something that was there: the
    destination that [process_video] and [process_series_file] answer for
    a file did not exist when the file was taken up, and the source they
    answer is the file itself; the destination of [process_video] lies
    below the folder of the file.  (A sidecar has no such guard:
    [shutil.move] puts it over whatever stands at its destination.) *)
Theorem destination_did_not_exist
    (api : Client.tmdb) (opts : Pipeline.options)
    (tv : Series.tv_client) (sopts : Series.options)
    (file_path : Path.path) (w w' : Mutator.world) (old new : Path.path)
    (found : Scorer.candidate) :
  (Pipeline.process_video api opts file_path w
   = Shared.Returns (w', Some (old, new, found)) ->
   old = file_path /\ FS.exists_ (Mutator.disk w) new = false
   /\ FS.is_prefix (Path.parent file_path) new = true)
  /\ (Series.process_series_file tv sopts file_path w
      = Shared.Returns (w', Some (old, new, found)) ->
      old = file_path /\ FS.exists_ (Mutator.disk w) new = false).
Proof.
  split; intros H;
    [apply (process_video_destination_free _ _ _ _ _ _ _ _ H)
    | apply (process_series_destination_free _ _ _ _ _ _ _ _ H)].
Qed.

(** X23 on a release whose destination is already taken: the second
    copy goes to a numbered name. *)
Lemma destination_did_not_exist_for_a_second_copy :
  let video := ["/"; "movies"; "The.Matrix.1999.1080p.BluRay.x264-GROUP.mkv"] in
  let taken := ["/"; "movies"; "The Matrix (1999)"; "The Matrix (1999).mkv"] in
  let w := {| Mutator.disk :=
                {| FS.dirs := {[ ["/"]; ["/"; "movies"]; ["/"; "movies"; "The Matrix (1999)"] ]};
                   FS.files := {[ video; taken ]} |};
              Mutator.log := [];
              Mutator.journal :=
                ["/"; "home"; "user"; ".config"; "MovieRenamer"; "actions.jsonl"] |} in
  let matrix := {| Scorer.id := 603; Scorer.name := Some "The Matrix";
                   Scorer.original_name := None; Scorer.date := Some "1999-03-30";
                   Scorer.popularity := Some (80 # 1);
                   Scorer.poster_path := None |} in
  let api := {| Client.search_movie := fun _ _ => Shared.Returns [matrix];
                Client.search_tv := fun _ _ => Shared.Returns [];
                Client.build_poster_url := fun _ => Shared.Returns None;
                Client.http_get := fun _ => Shared.Raises;
                Client.movie_videos := fun _ => Shared.Returns [] |} in
  let opts := {| Pipeline.do_cover := false; Pipeline.do_clean := false;
                 Pipeline.do_prune := false; Pipeline.dry_run := false;
                 Pipeline.do_trailer := false; Pipeline.movie_fmt := None |} in
  match Pipeline.process_video api opts video w with
  | Shared.Returns (_, Some (old, new, _)) =>
      Path.to_string new = "/movies/The Matrix (1999)/The Matrix (1999) (2).mkv"
      /\ old = video /\ FS.exists_ (Mutator.disk w) new = false
      /\ FS.is_prefix (Path.parent video) new = true
  | _ => False
  end.
Proof.
  intros video taken w matrix api opts.
  assert (Hd : match Pipeline.process_video api opts video w with
               | Shared.Returns (_, Some (_, new, _)) =>
                   String.eqb (Path.to_string new)
                     "/movies/The Matrix (1999)/The Matrix (1999) (2).mkv"
               | _ => false
               end = true) by (vm_compute; reflexivity).
  destruct (Pipeline.process_video api opts video w)
    as [[w' [[[old new] mv]|]]|] eqn:E; try discriminate Hd.
  split; [apply String.eqb_eq; exact Hd|].
  exact (proj1 (destination_did_not_exist api opts
                  {| Series.api := api; Series.get_episode := fun _ _ _ => None;
                     Series.season_details := fun _ _ => Shared.Raises |}
                  {| Series.layout := "flat"; Series.do_cover := false;
                     Series.dry_run := false; Series.series_fmt := None;
                     Series.season_covers := false; Series.force_show := None;
                     Series.force_year := None |}
                  video w w' old new mv) E).
Defined.

(** A format that renders to the empty path gives a destination beside
    the folder of the file, not below it: [relative_to] raises before
    anything is moved, in a dry run too. *)
Lemma empty_render_raises :
  let video := ["/"; "movies"; "The.Matrix.1999.mkv"] in
  let w := {| Mutator.disk := {| FS.dirs := {[ ["/"]; ["/"; "movies"] ]};
                                 FS.files := {[ video ]} |};
              Mutator.log := [];
              Mutator.journal :=
                ["/"; "home"; "user"; ".config"; "MovieRenamer"; "actions.jsonl"] |} in
  let matrix := {| Scorer.id := 603; Scorer.name := Some "The Matrix";
                   Scorer.original_name := None; Scorer.date := Some "1999-03-30";
                   Scorer.popularity := Some (80 # 1);
                   Scorer.poster_path := None |} in
  let api := {| Client.search_movie := fun _ _ => Shared.Returns [matrix];
                Client.search_tv := fun _ _ => Shared.Returns [];
                Client.build_poster_url := fun _ => Shared.Returns None;
                Client.http_get := fun _ => Shared.Raises;
                Client.movie_videos := fun _ => Shared.Returns [] |} in
  let opts := fun dry =>
    {| Pipeline.do_cover := false; Pipeline.do_clean := false;
       Pipeline.do_prune := false; Pipeline.dry_run := dry;
       Pipeline.do_trailer := false; Pipeline.movie_fmt := Some "/" |} in
  MovieTools.render_format "/"
    {| Shared.n := Some "The Matrix"; Shared.y := Some 1999%Z;
       Shared.ny := Some "The Matrix (1999)"; Shared.s := None; Shared.e := None;
       Shared.s00e00_ := None; Shared.t := None |} = []
  /\ returned (Pipeline.process_video api (opts true) video w) = false
  /\ returned (Pipeline.process_video api (opts false) video w) = false.
Proof. vm_compute. repeat split. Qed.

(** A sidecar is moved over what stands at its destination: the
    subtitle of the release replaces the subtitle that was there, and the
    run returns. *)
Lemma sidecar_replaces_a_subtitle :
  let video := ["/"; "movies"; "The.Matrix.1999.mkv"] in
  let subtitle := ["/"; "movies"; "The.Matrix.1999.en.srt"] in
  let taken := ["/"; "movies"; "The Matrix (1999)"; "The Matrix (1999).en.srt"] in
  let w := {| Mutator.disk :=
                {| FS.dirs := {[ ["/"]; ["/"; "movies"]; ["/"; "movies"; "The Matrix (1999)"] ]};
                   FS.files := {[ video; subtitle; taken ]} |};
              Mutator.log := [];
              Mutator.journal :=
                ["/"; "home"; "user"; ".config"; "MovieRenamer"; "actions.jsonl"] |} in
  let matrix := {| Scorer.id := 603; Scorer.name := Some "The Matrix";
                   Scorer.original_name := None; Scorer.date := Some "1999-03-30";
                   Scorer.popularity := Some (80 # 1);
                   Scorer.poster_path := None |} in
  let api := {| Client.search_movie := fun _ _ => Shared.Returns [matrix];
                Client.search_tv := fun _ _ => Shared.Returns [];
                Client.build_poster_url := fun _ => Shared.Returns None;
                Client.http_get := fun _ => Shared.Raises;
                Client.movie_videos := fun _ => Shared.Returns [] |} in
  let opts := {| Pipeline.do_cover := false; Pipeline.do_clean := false;
                 Pipeline.do_prune := false; Pipeline.dry_run := false;
                 Pipeline.do_trailer := false; Pipeline.movie_fmt := None |} in
  match Pipeline.process_video api opts video w with
  | Shared.Returns (w', Some _) =>
      (FS.is_file (Mutator.disk w') taken, FS.is_file (Mutator.disk w') subtitle,
       FS.is_file (Mutator.disk w') video,
       FS.is_file (Mutator.disk w')
         ["/"; "movies"; "The Matrix (1999)"; "The Matrix (1999).mkv"])
      = (true, false, false, true)
  | _ => False
  end.
Proof. vm_compute. reflexivity. Qed.

(** X24.  A file without a match is left alone: when [process_video] or
    [process_series_file] answers nothing for a file (no tag, no
    confident match), the disk is as it was, in a real run too. *)
Theorem unmatched_files_are_left_alone
    (api : Client.tmdb) (opts : Pipeline.options)
    (tv : Series.tv_client) (sopts : Series.options)
    (file_path : Path.path) (w : Mutator.world) :
  match Pipeline.process_video api opts file_path w with
  | Shared.Returns (w', None) => Mutator.disk w' = Mutator.disk w
  | _ => True
  end
  /\ match Series.process_series_file tv sopts file_path w with
     | Shared.Returns (w', None) => Mutator.disk w' = Mutator.disk w
     | _ => True
     end.
Proof.
  split.
  - destruct (Pipeline.process_video api opts file_path w) as [[w' [r|]]|] eqn:E;
      try exact I. apply (process_video_unmatched _ _ _ _ _ E).
  - destruct (Series.process_series_file tv sopts file_path w) as [[w' [r|]]|] eqn:E;
      try exact I. apply (process_series_unmatched _ _ _ _ _ E).
Qed.

Section Posters.
Import Shared Path FS Client Mutator.

Lemma write_file_adds (f f' : fs) (p : path) :
  write_file f p = Returns f' -> dirs f' = dirs f /\ files f' = files f ∪ {[p]}.
Proof.
  unfold write_file. destruct (is_dir f (parent p) && negb (is_dir f p)); [|discriminate].
  intros [= <-]. split; reflexivity.
Qed.

(** X25.  [download_poster] removes nothing, and the only files it can add
    are the poster of the directory, named after the sanitised directory
    name, and the journal; it adds them only outside a dry run, after a
    response that is an image of at least 1024 bytes. *)
Theorem download_poster_writes_only_a_checked_image
    (api : Client.tmdb) (movie : Scorer.candidate) (out_dir : Path.path)
    (dry_run : bool) (w : Mutator.world) :
  match Mutator.download_poster api movie out_dir dry_run w with
  | Shared.Returns w' =>
      FS.dirs (Mutator.disk w) ⊆ FS.dirs (Mutator.disk w')
      /\ FS.files (Mutator.disk w) ⊆ FS.files (Mutator.disk w')
      /\ (FS.files (Mutator.disk w') = FS.files (Mutator.disk w)
          \/ dry_run = false
             /\ poster_target out_dir ∈ FS.files (Mutator.disk w')
             /\ FS.files (Mutator.disk w')
                ⊆ (FS.files (Mutator.disk w) ∪ {[poster_target out_dir]})
                  ∪ {[Mutator.journal w]}
             /\ exists url r,
                  Client.http_get api url = Shared.Returns r
                  /\ Client.is_image r = true /\ 1024 <= Client.content_length r)
  | Shared.Raises => True
  end.
Proof.
  set (P := fun f' : fs =>
         FS.dirs (disk w) ⊆ FS.dirs f'
         /\ FS.files (disk w) ⊆ FS.files f'
         /\ (files f' = files (disk w)
             \/ dry_run = false
                /\ poster_target out_dir ∈ files f'
                /\ files f' ⊆ (files (disk w) ∪ {[poster_target out_dir]})
                              ∪ {[journal w]}
                /\ exists url r,
                     http_get api url = Returns r
                     /\ is_image r = true /\ 1024 <= content_length r)).
  change (match download_poster api movie out_dir dry_run w with
          | Returns w' => P (disk w')
          | Raises => True
          end).
  assert (Hsame : P (disk w)).
  { split; [apply subseteq_same|]. split; [apply subseteq_same | left; reflexivity]. }
  unfold download_poster.
  destruct (Scorer.poster_path movie) as [[|c pp]|]; [exact Hsame| |exact Hsame].
  destruct (build_poster_url api (String c pp)) as [[[|c' u]|]|];
    [exact Hsame| |exact Hsame|exact I].
  destruct (mkdir_parents (disk w) out_dir) as [f|] eqn:Em; [|exact I].
  destruct (mkdir_parents_grown (journal w) _ _ _ Em) as (Hf1 & _ & Hd).
  assert (Hf : files f = files (disk w)).
  { unfold mkdir_parents in Em. destruct (List.existsb _ _); [discriminate|].
    injection Em as <-. reflexivity. }
  assert (Hgrown : P f).
  { split; [exact Hd|]. split; [exact Hf1 | left; exact Hf]. }
  cbn [say on_disk disk].
  destruct dry_run; [exact Hgrown|].
  destruct (http_get api (String c' u)) as [r|] eqn:Eg; [|exact Hgrown].
  destruct (is_image r) eqn:Ei; cbn [negb]; [|exact Hgrown].
  destruct (content_length r <? 1024)%nat eqn:El; [exact Hgrown|].
  apply Nat.ltb_ge in El.
  destruct (write_file f _) as [f'|] eqn:Ew; [|exact Hgrown].
  apply write_file_adds in Ew as [Hd' Hf'].
  match goal with |- P (disk (log_jsonl ?x)) => set (w2 := x) end.
  destruct (log_jsonl_journaled w2) as (A1 & _ & A3 & A4).
  cbn [w2 say on_disk disk journal] in A1, A3, A4.
  split; [|split].
  - apply (subseteq_trans _ (dirs f')); [rewrite Hd'; exact Hd | exact A1].
  - apply (subseteq_trans _ (files f')); [|exact A3].
    rewrite Hf', Hf. apply subseteq_union.
  - right. split; [reflexivity|]. split; [|split].
    + apply A3. rewrite Hf'. apply elem_of_union. right. apply elem_of_singleton.
      reflexivity.
    + rewrite Hf', Hf in A4. exact A4.
    + exists (String c' u), r. repeat split; assumption.
Qed.

End Posters.

(** * The gates of the scorers and the order of the fallback chain

    These rest on the facts about the year patterns above. *)



(** Rounding decides at the gate and in a tie.  A candidate whose score
    over the rationals is exactly the gate 0.20 gets the double
    0.19999999999999998 and is turned down; and of two candidates whose
    scores over the rationals are both 557/2000, the second gets the
    greater double and is returned, where the first would be under exact
    arithmetic. *)
Lemma rounding_decides_at_the_gate_and_in_a_tie :
  let entry := fun nm d pop =>
    {| Scorer.id := 1; Scorer.name := Some nm; Scorer.original_name := None;
       Scorer.date := d; Scorer.popularity := Some pop; Scorer.poster_path := None |} in
  let prince := entry "Prince" (Some "1998-01-01") (50 # 1) in
  let first := entry "omega" (Some "2001-01-01") (57 # 1) in
  let second := entry "alpha beta delta epsilon" None (37 # 1) in
  (Scorer.movie_score prince "1999" (Some 1999%Z) == 20 # 100)%Q
  /\ Scorer.choose_best_match [prince] "1999" (Some 1999%Z) = Shared.Returns (Some prince)
  /\ Scorer64.choose_best_match [prince] "1999" (Some 1999%Z) = Shared.Returns None
  /\ (Scorer.movie_score first "alpha beta gamma" (Some 2001%Z)
      == Scorer.movie_score second "alpha beta gamma" (Some 2001%Z))%Q
  /\ Scorer.choose_best_match [first; second] "alpha beta gamma" (Some 2001%Z)
     = Shared.Returns (Some first)
  /\ Scorer64.choose_best_match [first; second] "alpha beta gamma" (Some 2001%Z)
     = Shared.Returns (Some second).
Proof. vm_compute. repeat split. Qed.

(** The same for trailers: two playable entries whose scores over the
    rationals are both 4.206 get different doubles, and the second is
    picked. *)
Lemma rounding_decides_between_trailers :
  let entry := fun ty sz lang pub k =>
    {| Trailer.site := Some "YouTube"; Trailer.type := ty;
       Trailer.name := None; Trailer.size := sz;
       Trailer.official := false; Trailer.iso_639_1 := lang;
       Trailer.iso_3166_1 := None; Trailer.published_at := Some pub;
       Trailer.key := Some k; Trailer.url := None |} in
  let hash := fun pub : string => if String.eqb pub "b" then 804%Z else 4%Z in
  let videos := [entry (Some "Teaser") None (Some "de") "b" "B804";
                 entry (Some "Teaser") (Some 720%Z) None "a" "A004"] in
  (Trailer.score hash ["en"] (entry (Some "Teaser") None (Some "de") "b" "B804")
   == Trailer.score hash ["en"] (entry (Some "Teaser") (Some 720%Z) None "a" "A004"))%Q
  /\ Trailer.pick_best_trailer hash videos ["en"]
     = Some "https://www.youtube.com/watch?v=B804"
  /\ Trailer64.pick_best_trailer hash videos ["en"]
     = Some "https://www.youtube.com/watch?v=A004".
Proof. vm_compute. repeat split. Qed.

